(** * Session controller of llama_jni.cpp: context window, batching, UTF-8 gating

    A shallow embedding of [src/core/inference/src/main/cpp/llama_jni.cpp].
    C++ [int] / [llama_pos] / [llama_token] values are integers of [Z] with the
    32-bit wrap-around written out; [std::string] contents are lists of byte
    values; the module-level globals are the fields of [State]; the calls into
    llama.cpp and into the Java consumer are answered by a [World] of oracles
    and logged in a trace. *)

From Stdlib Require Import String Ascii.
From Stdlib Require Import ZArith List Bool Lia.
Import ListNotations.
Local Open Scope Z_scope.
Local Open Scope list_scope.

(* ------------------------------------------------------------------------- *)
(** ** 32-bit signed arithmetic *)
(* ------------------------------------------------------------------------- *)

Module Int32.

Definition INT_MIN : Z := - 2 ^ 31.
Definition INT_MAX : Z := 2 ^ 31 - 1.

Definition in_range (z : Z) : Prop := INT_MIN <= z <= INT_MAX.

(** Two's-complement reduction of a mathematical result to [int]. *)
Definition wrap (z : Z) : Z := (z + 2 ^ 31) mod 2 ^ 32 - 2 ^ 31.

Definition add (a b : Z) : Z := wrap (a + b).
Definition sub (a b : Z) : Z := wrap (a - b).
Definition neg (a : Z) : Z := wrap (- a).
(** C++ [/] on [int] truncates toward zero. *)
Definition div (a b : Z) : Z := wrap (Z.quot a b).

End Int32.

Notation "a +i b" := (Int32.add a b) (at level 50, left associativity).
Notation "a -i b" := (Int32.sub a b) (at level 50, left associativity).
Notation "a /i b" := (Int32.div a b) (at level 40, left associativity).

(* ------------------------------------------------------------------------- *)
(** ** Context memory of the model (llama.cpp, external) *)
(* ------------------------------------------------------------------------- *)

(** One occupied cell of the context memory: sequence id, position, token. *)
Record Cell := mkCell {
  cell_seq : Z;
  cell_pos : Z;
  cell_tok : Z
}.

Definition Memory := list Cell.

(** Modelled from the spec: the range convention of llama.h for
    [llama_memory_seq_rm] / [llama_memory_seq_add], whose code is not in this
    repository: the range is [[p0, p1)], a negative [p0] stands for 0 and a
    negative [p1] for infinity. *)
Definition in_pos_range (p0 p1 pos : Z) : bool :=
  ((if p0 <? 0 then 0 else p0) <=? pos) && ((p1 <? 0) || (pos <? p1)).

(** Modelled from the spec: [llama_memory_seq_rm(mem, seq, p0, p1)] removes the
    cells of sequence [seq] whose position lies in [[p0, p1)]. *)
Definition llama_memory_seq_rm (mem : Memory) (seq p0 p1 : Z) : Memory :=
  filter (fun c => negb ((cell_seq c =? seq) && in_pos_range p0 p1 (cell_pos c))) mem.

(** Modelled from the spec: [llama_memory_seq_add(mem, seq, p0, p1, delta)]
    adds [delta] to the position of every cell of sequence [seq] whose
    position lies in [[p0, p1)]. *)
Definition llama_memory_seq_add (mem : Memory) (seq p0 p1 delta : Z) : Memory :=
  map (fun c =>
         if (cell_seq c =? seq) && in_pos_range p0 p1 (cell_pos c)
         then mkCell (cell_seq c) (cell_pos c +i delta) (cell_tok c)
         else c) mem.

(** Modelled from the spec: [llama_memory_clear] empties the memory. *)
Definition llama_memory_clear (mem : Memory) : Memory := [].

(* ------------------------------------------------------------------------- *)
(** ** Batches and the trace of external calls *)
(* ------------------------------------------------------------------------- *)

(** One entry added by [common_batch_add(batch, token, pos, seq_ids, logits)]. *)
Record BatchEntry := mkEntry {
  be_token  : Z;
  be_pos    : Z;
  be_seq_id : list Z;
  be_logits : bool
}.

Definition Batch := list BatchEntry.

Definition common_batch_clear (batch : Batch) : Batch := [].

Definition common_batch_add (batch : Batch) (id pos : Z) (seq_ids : list Z)
           (logits : bool) : Batch :=
  batch ++ [mkEntry id pos seq_ids logits].

(** Calls that leave the controller, oldest first. *)
Inductive Event :=
| EvShift (n_discard : Z)                 (* shift_context ran *)
| EvDecode (batch : Batch) (ok : bool)    (* llama_decode(ctx, batch) and whether it returned 0 *)
| EvOnToken (chunk : list Z) (threw : bool). (* callback.onToken(chunk) and whether it threw *)

(* ------------------------------------------------------------------------- *)
(** ** Global state *)
(* ------------------------------------------------------------------------- *)

Record State := mkState {
  g_model        : bool;      (* g_model   != nullptr *)
  g_context      : bool;      (* g_context != nullptr *)
  g_context_size : Z;
  g_batch_size   : Z;
  g_chat_msgs    : list (list Z);
  g_system_pos   : Z;
  g_current_pos  : Z;
  g_stop_pos     : Z;
  g_cached_chars : list Z;
  g_assistant_ss : list Z;
  kv             : Memory;    (* llama_get_memory(g_context) *)
  jni_pending    : bool;      (* a Java exception is pending in env *)
  trace          : list Event
}.

Definition with_pos (st : State) (pos : Z) : State :=
  mkState (g_model st) (g_context st) (g_context_size st) (g_batch_size st)
          (g_chat_msgs st) (g_system_pos st) pos
          (g_stop_pos st) (g_cached_chars st) (g_assistant_ss st)
          (kv st) (jni_pending st) (trace st).

Definition with_kv (st : State) (mem : Memory) : State :=
  mkState (g_model st) (g_context st) (g_context_size st) (g_batch_size st)
          (g_chat_msgs st) (g_system_pos st) (g_current_pos st)
          (g_stop_pos st) (g_cached_chars st) (g_assistant_ss st)
          mem (jni_pending st) (trace st).

Definition with_pending (st : State) (pending : bool) : State :=
  mkState (g_model st) (g_context st) (g_context_size st) (g_batch_size st)
          (g_chat_msgs st) (g_system_pos st) (g_current_pos st)
          (g_stop_pos st) (g_cached_chars st) (g_assistant_ss st)
          (kv st) pending (trace st).

Definition log (st : State) (ev : Event) : State :=
  mkState (g_model st) (g_context st) (g_context_size st) (g_batch_size st)
          (g_chat_msgs st) (g_system_pos st) (g_current_pos st)
          (g_stop_pos st) (g_cached_chars st) (g_assistant_ss st)
          (kv st) (jni_pending st) (trace st ++ [ev]).

(** [shift_context()], lines 59-65. *)
Definition shift_context (st : State) : State :=
  let n_discard := (g_current_pos st -i g_system_pos st) /i 2 in
  let mem1 := llama_memory_seq_rm (kv st) 0 (g_system_pos st)
                                  (g_system_pos st +i n_discard) in
  let mem2 := llama_memory_seq_add mem1 0 (g_system_pos st +i n_discard)
                                   (g_current_pos st) (Int32.neg n_discard) in
  with_pos (with_kv (log st (EvShift n_discard)) mem2)
           (g_current_pos st -i n_discard).

(** The eviction of the specification, cell by cell: positions of
    [[S, S + discard)] are removed, positions of [[S + discard, C)] move down
    by [discard], every other cell stays.  [shift_context] is compared
    with it below. *)
Definition spec_evict_cell (S discard C : Z) (c : Cell) : list Cell :=
  if negb (cell_seq c =? 0) then [c]
  else if cell_pos c <? S then [c]
  else if cell_pos c <? S + discard then []
  else if cell_pos c <? C then [mkCell (cell_seq c) (cell_pos c - discard) (cell_tok c)]
  else [c].

(** Modelled from the spec: [llama_decode(ctx, batch)] of llama.cpp stores the
    entries of the batch in the context memory (sequence 0) and returns 0;
    whether it succeeds is the world's answer [ok]. *)
Definition llama_decode (ok : bool) (batch : Batch) (st : State) : State :=
  with_kv (log st (EvDecode batch ok))
          (if ok
           then kv st ++ map (fun e => mkCell 0 (be_pos e) (be_token e)) batch
           else kv st).

(** [reset_chat_state(clear_kv)], lines 45-51. *)
Definition reset_chat_state (clear_kv : bool) (st : State) : State :=
  mkState (g_model st) (g_context st) (g_context_size st) (g_batch_size st)
          [] 0 0
          (g_stop_pos st) (g_cached_chars st) (g_assistant_ss st)
          (if clear_kv && g_context st then llama_memory_clear (kv st) else kv st)
          (jni_pending st) (trace st).

(** [reset_gen_state()], lines 53-57. *)
Definition reset_gen_state (st : State) : State :=
  mkState (g_model st) (g_context st) (g_context_size st) (g_batch_size st)
          (g_chat_msgs st) (g_system_pos st) (g_current_pos st)
          0 [] []
          (kv st) (jni_pending st) (trace st).

(* ------------------------------------------------------------------------- *)
(** ** The world outside the controller *)
(* ------------------------------------------------------------------------- *)

(** Answers of llama.cpp, the sampler and the Java side during one request.
    Decode outcomes are indexed by prompt chunk and by generation step,
    sampled tokens and callback outcomes by generation step. *)
Record World := mkWorld {
  common_tokenize        : list Z -> bool -> bool -> list Z;
  chat_template_explicit : bool;
  common_sampler_sample  : nat -> Z;
  llama_vocab_is_eog     : Z -> bool;
  common_token_to_piece  : Z -> list Z;
  prompt_decode_ok       : nat -> bool;
  gen_decode_ok          : nat -> bool;
  has_onToken            : bool;          (* GetMethodID found onToken *)
  on_token_throws        : nat -> bool;
  new_int_array_ok       : bool           (* NewIntArray returned non-null *)
}.

(** How a native entry point ends: a normal return, or a C++ exception that
    nothing in the file catches. *)
Inductive CppException := length_error.

Inductive Outcome (A : Type) :=
| Returned (a : A)
| Threw (e : CppException)
| Diverged.

Arguments Returned {A} a.
Arguments Threw {A} e.
Arguments Diverged {A}.

(** [(int)tokens.size()]. *)
Definition int_of_size (n : nat) : Z := Int32.wrap (Z.of_nat n).

(* ------------------------------------------------------------------------- *)
(** ** decode_batched, lines 67-91 *)
(* ------------------------------------------------------------------------- *)

(** The inner loop [for (j = 0; j < cur; j++)], [count] iterations left. *)
Fixpoint fill_batch (count : nat) (tokens : list Z) (start i j : Z)
         (logit_last : bool) (batch : Batch) : Batch :=
  match count with
  | O => batch
  | S count' =>
      let want_logit :=
        logit_last && (i +i j =? int_of_size (length tokens) -i 1) in
      fill_batch count' tokens start i (j +i 1) logit_last
        (common_batch_add batch (nth (Z.to_nat (i +i j)) tokens 0)
                          (start +i i +i j) [0] want_logit)
  end.

(** The outer loop from offset [i], which is chunk number [k].  [None] when
    the fuel runs out, which a batch size of at least 1 excludes
    (see [decode_batched_total]). *)
Fixpoint decode_batched_from (fuel : nat) (w : World) (tokens : list Z)
         (start : Z) (logit_last : bool) (k : nat) (i : Z) (st : State)
  : option (Z * State) :=
  if i <? int_of_size (length tokens) then
    match fuel with
    | O => None
    | S fuel' =>
        let cur := Z.min (int_of_size (length tokens) -i i) (g_batch_size st) in
        let batch0 := common_batch_clear [] in
        let st1 := if g_context_size st -i 4 <=? start +i i +i cur
                   then shift_context st else st in
        let batch := fill_batch (Z.to_nat cur) tokens start i 0 logit_last batch0 in
        let ok := prompt_decode_ok w k in
        let st2 := llama_decode ok batch st1 in
        if ok
        then decode_batched_from fuel' w tokens start logit_last (S k)
                                 (i +i g_batch_size st) st2
        else Some (1, st2)
    end
  else Some (0, st).

Definition decode_batched (w : World) (tokens : list Z) (start : Z)
           (logit_last : bool) (st : State) : option (Z * State) :=
  decode_batched_from (length tokens) w tokens start logit_last 0%nat 0 st.

(** The batches handed to [llama_decode], in order. *)
Definition decoded_batches (evs : list Event) : list Batch :=
  flat_map (fun e => match e with EvDecode b _ => [b] | _ => [] end) evs.

(** The entry the specification assigns to token number [idx] of a prompt:
    position [start + idx], sequence id 0, output wanted only on the last
    token and only if [logit_last].  [decode_batched] is compared with
    it below. *)
Definition spec_entry (tokens : list Z) (start : Z) (logit_last : bool)
           (idx : nat) : BatchEntry :=
  mkEntry (nth idx tokens 0) (start + Z.of_nat idx) [0]
          (logit_last && (Z.of_nat idx =? Z.of_nat (length tokens) - 1)).

Definition spec_entries (tokens : list Z) (start : Z) (logit_last : bool)
           (from count : nat) : list BatchEntry :=
  map (spec_entry tokens start logit_last) (seq from count).

(** [ceil(n / B)] for [B > 0]. *)
Definition ceil_div (n B : Z) : Z := (n + B - 1) / B.

(** Only the last entry of the last batch carries the output flag, and it
    carries [want]. *)
Definition only_last_wants (want : bool) (bs : list Batch) : Prop :=
  exists init init_b e,
    bs = init ++ [init_b ++ [e]]
    /\ be_logits e = want
    /\ Forall (Forall (fun x => be_logits x = false)) init
    /\ Forall (fun x => be_logits x = false) init_b.

(* ------------------------------------------------------------------------- *)
(** ** is_valid_utf8, lines 93-110, and the trimming of lines 276-285 *)
(* ------------------------------------------------------------------------- *)

(** [std::string::c_str()] seen as a C string: the bytes before the first NUL. *)
Fixpoint c_str (s : list Z) : list Z :=
  match s with
  | [] => []
  | b :: rest => if b =? 0 then [] else b :: c_str rest
  end.

(** The [if / else if] chain on the lead byte; [None] is [return false]. *)
Definition unit_length (b : Z) : option nat :=
  if Z.land b 0x80 =? 0x00 then Some 1%nat
  else if Z.land b 0xE0 =? 0xC0 then Some 2%nat
  else if Z.land b 0xF0 =? 0xE0 then Some 3%nat
  else if Z.land b 0xF8 =? 0xF0 then Some 4%nat
  else None.

Definition is_continuation (b : Z) : bool := Z.land b 0xC0 =? 0x80.

(** The [while] loop over the bytes at [b]; the inner [for] loop is the
    local [conts], which hands back to the outer loop when its [k]
    continuation bytes are read.  The end of the list is the terminating NUL:
    it ends the outer loop with [true] and fails the inner test. *)
Fixpoint utf8_scan (s : list Z) : bool :=
  match s with
  | [] => true
  | b :: rest =>
      if b =? 0 then true
      else
        match unit_length b with
        | None => false
        | Some n =>
            (fix conts (k : nat) (r : list Z) {struct r} : bool :=
               match k with
               | O => utf8_scan r
               | S k' =>
                   match r with
                   | [] => false
                   | c :: r' => if is_continuation c then conts k' r' else false
                   end
               end) (Nat.pred n) rest
        end
  end.

(** The inner [for] loop followed by the rest of the outer loop, as a
    function of its own; [utf8_scan_cons] shows it is the local [conts]. *)
Fixpoint expect_conts (k : nat) (r : list Z) : bool :=
  match k with
  | O => utf8_scan r
  | S k' =>
      match r with
      | [] => false
      | c :: r' => if is_continuation c then expect_conts k' r' else false
      end
  end.

(** [is_valid_utf8(const char *s)]; [None] is the null pointer. *)
Definition is_valid_utf8 (s : option (list Z)) : bool :=
  match s with
  | None => true
  | Some bytes => utf8_scan bytes
  end.

(** [while (!output.empty() && (output.back() & 0xC0) == 0x80) output.pop_back()]
    on the reversed string. *)
Fixpoint pop_continuations (rev_output : list Z) : list Z :=
  match rev_output with
  | [] => []
  | b :: rest => if is_continuation b then pop_continuations rest else rev_output
  end.

(** [if (!output.empty() && (output.back() & 0x80) != 0) output.pop_back()]. *)
Definition pop_lead (rev_output : list Z) : list Z :=
  match rev_output with
  | [] => []
  | b :: rest => if negb (Z.land b 0x80 =? 0) then rest else rev_output
  end.

(** Lines 276-285: the output as it is handed to [NewStringUTF]. *)
Definition validate_output (output : list Z) : list Z :=
  if negb (is_valid_utf8 (Some output))
  then rev (pop_lead (pop_continuations (rev output)))
  else output.

(** The chunks handed to the consumer, in order. *)
Definition delivered (evs : list Event) : list (list Z) :=
  flat_map (fun e => match e with EvOnToken chunk _ => [chunk] | _ => [] end) evs.

(** The fragments of the generation steps [i], ..., [i + m - 1]. *)
Definition fragments (w : World) (i m : nat) : list Z :=
  concat (map (fun j => common_token_to_piece w (common_sampler_sample w j)) (seq i m)).

(** A string without NUL bytes: its [c_str()] is the whole string. *)
Definition nul_free (s : list Z) : Prop := Forall (fun b => b <> 0) s.

(** A text unit cut short: a lead byte that announces [n >= 2] bytes,
    followed by fewer than [n - 1] continuation bytes. *)
Definition incomplete_unit (u : list Z) : Prop :=
  exists lead cs n,
    u = lead :: cs
    /\ unit_length lead = Some n
    /\ (2 <= n)%nat
    /\ Forall (fun c => is_continuation c = true) cs
    /\ (S (length cs) < n)%nat.

(* ------------------------------------------------------------------------- *)
(** ** Prompt truncation, lines 239-243 and 319-320 *)
(* ------------------------------------------------------------------------- *)

(** Conversion of an [int] argument to [size_t] (64 bits on the arm64
    target; on a 32-bit target both constants shrink alike). *)
Definition to_size_t (z : Z) : Z := z mod 2 ^ 64.

(** Modelled from the spec: not in this repository; [max_size()] of
    [std::vector<llama_token>] as the C++ standard library has it, the
    smaller of what the allocator can address in 4-byte elements and of the
    largest [difference_type]. *)
Definition vector_max_size : Z := Z.min ((2 ^ 64 - 1) / 4) (2 ^ 63 - 1).

(** Modelled from the spec: not in this repository; [std::vector::resize(count)]
    as the C++ standard library has it: it keeps the first [count] elements,
    or appends zeros up to [count] elements, and throws [std::length_error]
    beyond [max_size()]. *)
Definition vector_resize (v : list Z) (count : Z) : Outcome (list Z) :=
  if count <=? Z.of_nat (length v) then Returned (firstn (Z.to_nat count) v)
  else if vector_max_size <? count then Threw length_error
  else Returned (v ++ repeat 0 (Z.to_nat (count - Z.of_nat (length v)))).

(** [int max_prompt = g_context_size - maxTokens - 4]. *)
Definition max_prompt (st : State) (maxTokens : Z) : Z :=
  g_context_size st -i maxTokens -i 4.

(** [if ((int)tokens.size() > max_prompt) tokens.resize(max_prompt)]. *)
Definition truncate_prompt (st : State) (maxTokens : Z) (tokens : list Z)
  : Outcome (list Z) :=
  if max_prompt st maxTokens <? int_of_size (length tokens)
  then vector_resize tokens (to_size_t (max_prompt st maxTokens))
  else Returned tokens.

(* ------------------------------------------------------------------------- *)
(** ** nativeGenerate, lines 207-288 *)
(* ------------------------------------------------------------------------- *)

Definition bytes_of_string (s : String.string) : list Z :=
  map (fun a => Z.of_N (Ascii.N_of_ascii a)) (String.list_ascii_of_string s).

Definition error_not_loaded : list Z :=
  Eval cbv in bytes_of_string "[Error: Model not loaded]"%string.

Definition error_prompt_failed : list Z :=
  Eval cbv in bytes_of_string "[Error: Failed to process prompt]"%string.

(** Why a generation loop was left. *)
Inductive Stop := StopBudget | StopEog | StopDecodeFailed | StopCancelled.

(** [if (g_current_pos >= g_context_size - 4) shift_context()]. *)
Definition shift_if_full (st : State) : State :=
  if g_context_size st -i 4 <=? g_current_pos st then shift_context st else st.

(** [common_batch_clear; common_batch_add(g_batch, id, g_current_pos, {0}, true);
    llama_decode]. *)
Definition decode_one (ok : bool) (id : Z) (st : State) : State :=
  llama_decode ok
    (common_batch_add (common_batch_clear []) id (g_current_pos st) [0] true) st.

(** The loop of lines 253-271 at step [i] with [n] steps of budget left;
    [result] is the content of the output stream. *)
Fixpoint generate_loop (w : World) (n i : nat) (st : State) (result : list Z)
  : State * list Z * Stop :=
  match n with
  | O => (st, result, StopBudget)
  | S n' =>
      let st1 := shift_if_full st in
      let id := common_sampler_sample w i in
      if llama_vocab_is_eog w id then (st1, result, StopEog)
      else
        let result1 := result ++ common_token_to_piece w id in
        let ok := gen_decode_ok w i in
        let st2 := decode_one ok id st1 in
        if ok
        then generate_loop w n' (S i) (with_pos st2 (g_current_pos st2 +i 1)) result1
        else (st2, result1, StopDecodeFailed)
  end.

(** [nativeGenerate]: the returned [jstring] as the bytes before the first
    NUL of what is handed to [NewStringUTF].  The sampler parameters only
    reach the sampler, which is the oracle [common_sampler_sample]. *)
Definition nativeGenerate (w : World) (prompt : list Z) (maxTokens : Z)
           (st : State) : Outcome (list Z) * State :=
  if negb (g_model st) || negb (g_context st)
  then (Returned (c_str error_not_loaded), st)
  else
    let st1 := reset_gen_state (reset_chat_state true st) in
    let has_tmpl := chat_template_explicit w in
    let tokens := common_tokenize w prompt has_tmpl has_tmpl in
    match truncate_prompt st1 maxTokens tokens with
    | Threw e => (Threw e, st1)
    | Diverged => (Diverged, st1)
    | Returned tokens' =>
        match decode_batched w tokens' 0 true st1 with
        | None => (Diverged, st1)
        | Some (rc, st2) =>
            if negb (rc =? 0) then (Returned (c_str error_prompt_failed), st2)
            else
              let st3 := with_pos st2 (int_of_size (length tokens')) in
              let '(st4, result, _) :=
                generate_loop w (Z.to_nat maxTokens) 0 st3 [] in
              (Returned (c_str (validate_output result)), st4)
        end
    end.

(* ------------------------------------------------------------------------- *)
(** ** When eviction runs: reading the trace *)
(* ------------------------------------------------------------------------- *)

(** Every batch handed to [llama_decode], with whether [shift_context] ran
    since the previous submission ([shifted] carries that flag along). *)
Fixpoint submissions (shifted : bool) (evs : list Event) : list (bool * Batch) :=
  match evs with
  | [] => []
  | EvShift _ :: rest => submissions true rest
  | EvDecode b _ :: rest => (shifted, b) :: submissions false rest
  | EvOnToken _ _ :: rest => submissions shifted rest
  end.

(** The position of the first entry of a batch. *)
Definition first_pos (b : Batch) : Z :=
  match b with
  | e :: _ => be_pos e
  | [] => 0
  end.

(** [shouldEvict(pending)] in the words of the specification:
    [cursor + pending >= capacity - reserve] with a reserve of 4. *)
Definition spec_should_evict (cursor pending capacity : Z) : bool :=
  capacity - 4 <=? cursor + pending.

(** What the generation loop submits, in mathematical integers: at a cursor
    [c] the trigger is [c >= capacity - 4], the pending token is not added;
    an eviction moves the cursor down by [floor((c - boundary) / 2)], and the token
    is submitted at the cursor, which then advances by one.
    [generate_loop] is compared with it below. *)
Fixpoint spec_gen_submissions (w : World) (capacity boundary : Z) (n i : nat)
         (cursor : Z) : list (bool * Batch) :=
  match n with
  | O => []
  | S n' =>
      let id := common_sampler_sample w i in
      if llama_vocab_is_eog w id then []
      else
        let evict := capacity - 4 <=? cursor in
        let pos := if evict then cursor - (cursor - boundary) / 2 else cursor in
        (evict, [mkEntry id pos [0] true])
          :: (if gen_decode_ok w i
              then spec_gen_submissions w capacity boundary n' (S i) (pos + 1)
              else [])
  end.

(* ------------------------------------------------------------------------- *)
(** ** nativeGenerateStream, lines 291-363 *)
(* ------------------------------------------------------------------------- *)

(** [env->CallVoidMethod(callback, onToken, jtoken)]: the consumer receives
    the chunk and may leave a pending exception. *)
Definition call_on_token (chunk : list Z) (threw : bool) (st : State) : State :=
  with_pending (log st (EvOnToken chunk threw)) (jni_pending st || threw).

(** Lines 344-356: returns the state, the buffer and whether the loop breaks. *)
Definition deliver_if_valid (w : World) (i : nat) (st : State) (cached : list Z)
  : State * list Z * bool :=
  if is_valid_utf8 (Some cached) then
    let st1 := call_on_token (c_str cached) (on_token_throws w i) st in
    (* cached.clear() *)
    if jni_pending st1                      (* env->ExceptionCheck() *)
    then (with_pending st1 false, [], true) (* env->ExceptionClear(); break *)
    else (st1, [], false)
  else (st, cached, false).

(** The loop of lines 334-362. *)
Fixpoint stream_loop (w : World) (n i : nat) (st : State) (cached : list Z)
  : State * list Z * Stop :=
  match n with
  | O => (st, cached, StopBudget)
  | S n' =>
      let st1 := shift_if_full st in
      let id := common_sampler_sample w i in
      if llama_vocab_is_eog w id then (st1, cached, StopEog)
      else
        let cached1 := cached ++ common_token_to_piece w id in
        let '(st2, cached2, brk) := deliver_if_valid w i st1 cached1 in
        if brk then (st2, cached2, StopCancelled)
        else
          let ok := gen_decode_ok w i in
          let st3 := decode_one ok id st2 in
          if ok
          then stream_loop w n' (S i) (with_pos st3 (g_current_pos st3 +i 1)) cached2
          else (st3, cached2, StopDecodeFailed)
  end.

(** [nativeGenerateStream] returns [void]; what the consumer received is in
    the trace.  The local buffer [cached] dies with the call. *)
Definition nativeGenerateStream (w : World) (prompt : list Z) (maxTokens : Z)
           (st : State) : Outcome unit * State :=
  if negb (g_model st) || negb (g_context st)
  then (Returned tt, st)
  else
    let st1 := reset_gen_state (reset_chat_state true st) in
    let has_tmpl := chat_template_explicit w in
    let tokens := common_tokenize w prompt has_tmpl has_tmpl in
    match truncate_prompt st1 maxTokens tokens with
    | Threw e => (Threw e, st1)
    | Diverged => (Diverged, st1)
    | Returned tokens' =>
        match decode_batched w tokens' 0 true st1 with
        | None => (Diverged, st1)
        | Some (rc, st2) =>
            if negb (rc =? 0) then (Returned tt, st2)
            else
              let st3 := with_pos st2 (int_of_size (length tokens')) in
              if negb (has_onToken w)
              then (Returned tt, with_pending st3 true) (* NoSuchMethodError stays pending *)
              else
                let '(st4, _, _) :=
                  stream_loop w (Z.to_nat maxTokens) 0 st3 [] in
                (Returned tt, st4)
        end
    end.

(* ------------------------------------------------------------------------- *)
(** ** nativeTokenize, lines 366-384 *)
(* ------------------------------------------------------------------------- *)

(** The returned [jintArray]: [None] is a null reference. *)
Definition nativeTokenize (w : World) (text : list Z) (st : State)
  : option (list Z) * State :=
  if negb (g_context st)
  then ((if new_int_array_ok w then Some [] else None), st)
  else
    let tokens := common_tokenize w text false false in
    ((if new_int_array_ok w then Some tokens else None), st).

(* ------------------------------------------------------------------------- *)
(** ** Structure of accepted text *)
(* ------------------------------------------------------------------------- *)

(** One text unit as [is_valid_utf8] reads it: a lead byte other than NUL
    and exactly the number of continuation bytes it announces. *)
Definition complete_unit (u : list Z) : Prop :=
  exists lead cs n,
    u = lead :: cs
    /\ lead <> 0
    /\ unit_length lead = Some n
    /\ length cs = Nat.pred n
    /\ Forall (fun c => is_continuation c = true) cs.

(** A byte with the high bit set, the test of [pop_lead]. *)
Definition high_bit (b : Z) : Prop := Z.land b 0x80 <> 0.

(* ------------------------------------------------------------------------- *)
(** ** Comparing sessions *)
(* ------------------------------------------------------------------------- *)

(** The session without its log of external calls: what a later request can
    observe of an earlier one. *)
Definition forget_trace (st : State) : State :=
  mkState (g_model st) (g_context st) (g_context_size st) (g_batch_size st)
          (g_chat_msgs st) (g_system_pos st) (g_current_pos st)
          (g_stop_pos st) (g_cached_chars st) (g_assistant_ss st)
          (kv st) (jni_pending st) [].

(* ------------------------------------------------------------------------- *)
(** ** Reading positions and memory off the trace *)
(* ------------------------------------------------------------------------- *)

(** The discard counts of the evictions that ran, in order. *)
Definition discards (evs : list Event) : list Z :=
  flat_map (fun e => match e with EvShift d => [d] | _ => [] end) evs.

(** The positions of the entries handed to [llama_decode], in order. *)
Definition submitted_positions (evs : list Event) : list Z :=
  map be_pos (concat (decoded_batches evs)).

(** The cells that the successful decodes of a trace store. *)
Definition stored_cells (evs : list Event) : Memory :=
  flat_map (fun e => match e with
                     | EvDecode b true => map (fun x => mkCell 0 (be_pos x) (be_token x)) b
                     | _ => []
                     end) evs.

(** The positions 0, 1, ..., [count - 1]. *)
Definition first_positions (count : nat) : list Z := map Z.of_nat (seq 0 count).

(** The fields a request reads but that neither a decode nor a delivery
    changes. *)
Definition same_settings (a b : State) : Prop :=
  g_model a = g_model b /\ g_context a = g_context b
  /\ g_context_size a = g_context_size b /\ g_batch_size a = g_batch_size b
  /\ g_system_pos a = g_system_pos b.

(** A request that went from [st] to [st'] without eviction: no
    [shift_context] ran, the positions submitted are 0, 1, ... in order and
    below [capacity - 4], the cursor ends inside the window, and the context
    memory is what the successful decodes stored. *)
Definition ran_inside_window (st st' : State) : Prop :=
  exists evs count,
    trace st' = trace st ++ evs
    /\ discards evs = []
    /\ submitted_positions evs = first_positions count
    /\ Z.of_nat count <= g_context_size st - 4
    /\ 0 <= g_current_pos st' <= g_context_size st - 4
    /\ kv st' = stored_cells evs.

(** The window invariant of a session whose boundary is 0, as every reset
    leaves it: the capacity leaves a reserve that can be halved, the cursor
    is inside [0, capacity - 4], and the context memory holds one cell of
    sequence 0 for each of the positions 0, ..., cursor - 1, in order. *)
Definition window_ok (st : State) : Prop :=
  6 <= g_context_size st <= Int32.INT_MAX
  /\ g_system_pos st = 0
  /\ 0 <= g_current_pos st <= g_context_size st - 4
  /\ map cell_pos (kv st) = first_positions (Z.to_nat (g_current_pos st))
  /\ Forall (fun c => cell_seq c = 0) (kv st).

(** The session [st] run after the external calls [t] instead of after none. *)
Definition prepend_trace (t : list Event) (st : State) : State :=
  mkState (g_model st) (g_context st) (g_context_size st) (g_batch_size st)
          (g_chat_msgs st) (g_system_pos st) (g_current_pos st)
          (g_stop_pos st) (g_cached_chars st) (g_assistant_ss st)
          (kv st) (jni_pending st) (t ++ trace st).

(** What [reset_chat_state] and [reset_gen_state] leave of a loaded session,
    with an empty log. *)
Definition clean_session (st : State) : State :=
  mkState true true (g_context_size st) (g_batch_size st)
          [] 0 0 0 [] [] [] (jni_pending st) [].

(* ------------------------------------------------------------------------- *)
(** ** nativeLoadModel, lines 131-187, and nativeFreeModel, lines 190-204 *)
(* ------------------------------------------------------------------------- *)

(** Answers of llama.cpp and of the system while a model is loaded: the
    address of the model ([0] for [nullptr]), the number of processors
    online, and whether a context is created for a context size, a batch
    size and a thread count. *)
Record LoadWorld := mkLoadWorld {
  llama_model_load_from_file : Z;
  sysconf_nprocessors        : Z;
  llama_init_from_model      : Z -> Z -> Z -> bool
}.

(** [std::max(2, std::min(threads, (int)sysconf(_SC_NPROCESSORS_ONLN) - 2))]. *)
Definition load_threads (lw : LoadWorld) (threads : Z) : Z :=
  Z.max 2 (Z.min threads (sysconf_nprocessors lw -i 2)).

(** The globals after [g_model = model; g_context_size = contextSize;
    g_batch_size = 512]. *)
Definition with_model (st : State) (contextSize : Z) : State :=
  mkState true (g_context st) contextSize 512
          (g_chat_msgs st) (g_system_pos st) (g_current_pos st)
          (g_stop_pos st) (g_cached_chars st) (g_assistant_ss st)
          (kv st) (jni_pending st) (trace st).

(** [g_context = ...] with its memory: a new context starts with an empty
    memory, a null context has none. *)
Definition with_context (st : State) (created : bool) : State :=
  mkState (g_model st) created (g_context_size st) (g_batch_size st)
          (g_chat_msgs st) (g_system_pos st) (g_current_pos st)
          (g_stop_pos st) (g_cached_chars st) (g_assistant_ss st)
          [] (jni_pending st) (trace st).

(** [g_model = nullptr]. *)
Definition without_model (st : State) : State :=
  mkState false (g_context st) (g_context_size st) (g_batch_size st)
          (g_chat_msgs st) (g_system_pos st) (g_current_pos st)
          (g_stop_pos st) (g_cached_chars st) (g_assistant_ss st)
          (kv st) (jni_pending st) (trace st).

(** [nativeLoadModel]: the returned handle is the address of the model, 0 on
    failure.  The GPU layer count and the mmap and flash-attention flags only
    reach llama.cpp. *)
Definition nativeLoadModel (lw : LoadWorld) (contextSize threads : Z) (st : State)
  : Z * State :=
  let model := llama_model_load_from_file lw in
  if model =? 0 then (0, st)
  else
    let st1 := with_model st contextSize in
    let n_threads := load_threads lw threads in
    let created := llama_init_from_model lw contextSize (g_batch_size st1) n_threads in
    let st2 := with_context st1 created in
    if negb created then (0, without_model st2)
    else (model, reset_gen_state (reset_chat_state true st2)).

(** The storage behind [g_batch]: the zero-initialised static, the arrays
    that [llama_batch_init] allocated, or arrays already released whose
    addresses [g_batch] still holds. *)
Inductive BatchStorage := BatchNull | BatchAllocated | BatchReleased.

(** Modelled from the spec: [llama_batch_free(batch)] of llama.cpp, whose code
    is not in this repository, frees each array of the batch whose pointer is
    not null; the batch is passed by value, so the pointers of the caller's
    copy stay as they are.  Releasing released arrays is a double free:
    [None], the behaviour is undefined. *)
Definition llama_batch_free (b : BatchStorage) : option BatchStorage :=
  match b with
  | BatchNull => Some BatchNull
  | BatchAllocated => Some BatchReleased
  | BatchReleased => None
  end.

(** Line 174: a successful [nativeLoadModel], the one that returns a handle
    other than 0, stores the result of [llama_batch_init] in [g_batch]; a
    failed one returns before that line. *)
Definition batch_after_load (handle : Z) (b : BatchStorage) : BatchStorage :=
  if handle =? 0 then b else BatchAllocated.

(** [nativeFreeModel] on the globals and on the storage of [g_batch]: the
    handle is not looked at, and [llama_batch_free(g_batch)] is called
    without a test.  [None] when it is reached with released storage. *)
Definition nativeFreeModel (handle : Z) (st : State) (b : BatchStorage)
  : option (State * BatchStorage) :=
  let st1 := reset_gen_state (reset_chat_state false st) in
  match llama_batch_free b with
  | None => None
  | Some b' => Some (without_model (with_context st1 false), b')
  end.

(* ------------------------------------------------------------------------- *)
(** ** How far a generation loop got *)
(* ------------------------------------------------------------------------- *)

(** The loop that starts at step [i] with a budget of [n] steps appended the
    fragments of the [m] steps [i], ..., [i + m - 1] and was left for the
    reason [stop]: none of these steps drew a stop token and the decodes of
    all of them but the last succeeded; then either the budget was used up,
    or step [i + m] drew a stop token, or the decode of the last step
    failed, or the consumer ended the loop in the last step. *)
Definition steps_run (w : World) (i n m : nat) (stop : Stop) : Prop :=
  (m <= n)%nat
  /\ (forall j, (j < m)%nat ->
                llama_vocab_is_eog w (common_sampler_sample w (i + j)) = false)
  /\ (forall j, (S j < m)%nat -> gen_decode_ok w (i + j) = true)
  /\ match stop with
     | StopBudget =>
         m = n /\ (forall j, (j < m)%nat -> gen_decode_ok w (i + j) = true)
     | StopEog =>
         (m < n)%nat
         /\ llama_vocab_is_eog w (common_sampler_sample w (i + m)) = true
         /\ (forall j, (j < m)%nat -> gen_decode_ok w (i + j) = true)
     | StopDecodeFailed => exists j, m = S j /\ gen_decode_ok w (i + j) = false
     | StopCancelled => exists j, m = S j
     end.

(** The tokens handed to [llama_decode], in order. *)
Definition submitted_tokens (evs : list Event) : list Z :=
  map be_token (concat (decoded_batches evs)).

(** The tokenized prompt of a request. *)
Definition prompt_tokens (w : World) (prompt : list Z) : list Z :=
  common_tokenize w prompt (chat_template_explicit w) (chat_template_explicit w).

(** What the specification asks to be submitted: the prefix of length
    [bound] of a prompt longer than [bound], the whole prompt otherwise. *)
Definition spec_kept (bound : Z) (tokens : list Z) : list Z :=
  if bound <? Z.of_nat (length tokens)
  then firstn (Z.to_nat bound) tokens else tokens.

(* ------------------------------------------------------------------------- *)
(** ** Concrete sessions and worlds *)
(* ------------------------------------------------------------------------- *)

(** Scenario B of the specification: cursor 12, boundary 2, the memory
    holding positions 0 to 11. *)
Definition scenario_B_state : State :=
  mkState true true 16 4 [] 2 12 0 [] []
          (map (fun p => mkCell 0 (Z.of_nat p) (100 + Z.of_nat p)) (seq 0 12))
          false [].

(** A world in which nothing fails: the tokenizer maps every byte to a
    token, the sampler draws 65, 66, ... and never the stop token, every
    decode succeeds and the consumer never throws. *)
Definition quiet_world : World :=
  mkWorld (fun text _ _ => text) false (fun i => 65 + Z.of_nat i)
          (fun _ => false) (fun id => [id])
          (fun _ => true) (fun _ => true) true (fun _ => false) true.

(** Scenario A of the specification: capacity 16, batch limit 4, a prompt of
    10 tokens. *)
Definition scenario_A_state : State :=
  mkState true true 16 4 [] 0 0 0 [] [] [] false [].

Definition scenario_A_prompt : list Z := [11; 12; 13; 14; 15; 16; 17; 18; 19; 20].

(** A prompt that fills the window of [scenario_A_state] up to its reserve
    once one token of budget is set aside: 11 = 16 - 1 - 4. *)
Definition prompt_of_11 : list Z := [11; 12; 13; 14; 15; 16; 17; 18; 19; 20; 21].

(** A session in the generation phase: capacity 16, cursor 11, boundary 0. *)
Definition generating_state : State :=
  mkState true true 16 4 [] 0 11 0 [] [] [] false [].

(** A world whose sampler draws the byte tokens [ids] in turn and then the
    end-of-generation token 0; the piece of a token is that one byte, the
    piece of token 0 is empty. *)
Definition byte_world (ids : list Z) (throws : nat -> bool) (decode_ok : nat -> bool)
  : World :=
  mkWorld (fun text _ _ => text) false (fun i => nth i ids 0)
          (fun id => id =? 0) (fun id => if id =? 0 then [] else [id])
          (fun _ => true) decode_ok true throws true.

Definition never : nat -> bool := fun _ => false.
Definition always : nat -> bool := fun _ => true.

(** A loaded session with the default window of 4096 positions and batches
    of 512 tokens. *)
Definition default_state : State :=
  mkState true true 4096 512 [] 0 0 0 [] [] [] false [].

(** No model is loaded: the state before [nativeLoadModel] and after
    [nativeFreeModel]. *)
Definition unloaded_state : State :=
  mkState false false 4096 512 [] 0 0 0 [] [] [] false [].

(** A world in which the first decode of the prompt fails. *)
Definition failing_prompt_world : World :=
  mkWorld (fun text _ _ => text) false (fun i => 65 + Z.of_nat i)
          (fun _ => false) (fun id => [id])
          (fun _ => false) (fun _ => true) true (fun _ => false) true.

(** The state in which [decode_batched] leaves a session. *)
Definition after_prompt (w : World) (tokens : list Z) (st : State) : State :=
  match decode_batched w tokens 0 true st with
  | Some (_, st') => st'
  | None => st
  end.

(** A world that generates the letters a, b, c, in which the decode of the
    second generated token fails. *)
Definition failing_step_world : World :=
  byte_world [0x61; 0x62; 0x63] never (fun i => Nat.eqb i 0).

(** A world that generates the byte 0xFF, which starts no unit, and then the
    letters a, b, c. *)
Definition malformed_world : World :=
  byte_world [0xFF; 0x61; 0x62; 0x63] never always.

(** A prompt of 20 tokens, longer than the window of [scenario_A_state]. *)
Definition prompt_of_20 : list Z := map Z.of_nat (seq 1 20).

(** A session whose window of 16 is full up to the reserve: cursor 12,
    boundary 0, the memory holding positions 0 to 11. *)
Definition full_window_state : State :=
  mkState true true 16 4 [] 0 12 0 [] []
          (map (fun p => mkCell 0 (Z.of_nat p) (100 + Z.of_nat p)) (seq 0 12))
          false [].

(** A world in which the third decode of the prompt fails. *)
Definition third_chunk_fails_world : World :=
  mkWorld (fun text _ _ => text) false (fun i => 65 + Z.of_nat i)
          (fun _ => false) (fun id => [id])
          (fun k => negb (Nat.eqb k 2)) (fun _ => true) true (fun _ => false) true.

(** A session that has served a request: cursor 9, a chat message, cached
    characters, nine cells in memory and a log. *)
Definition used_state : State :=
  mkState true true 16 4 [[104; 105]] 0 9 7 [0xE4] [0x61]
          (map (fun p => mkCell 0 (Z.of_nat p) (100 + Z.of_nat p)) (seq 0 9))
          false [EvShift 3; EvOnToken [0x61] false].

(** A device with 8 processors on which the model at address 4096 loads and
    every context is created. *)
Definition working_loader : LoadWorld := mkLoadWorld 4096 8 (fun _ _ _ => true).

(** The same device when no context can be created. *)
Definition no_context_loader : LoadWorld := mkLoadWorld 4096 8 (fun _ _ _ => false).


(** A world whose first generated token has the three-byte piece
    [61 00 FF], a letter, a NUL and a byte that starts no unit, and whose
    second token is the letter b; the third draw is the stop token 0. *)
Definition nul_piece_world : World :=
  mkWorld (fun text _ _ => text) false (fun i => nth i [7; 8] 0)
          (fun id => id =? 0)
          (fun id => if id =? 7 then [0x61; 0x00; 0xFF]
                     else if id =? 8 then [0x62] else [])
          (fun _ => true) (fun _ => true) true (fun _ => false) true.

(** A session with a window of 5 positions, one of them in use. *)
Definition tiny_window_state : State :=
  mkState true true 5 4 [] 0 1 0 [] [] [mkCell 0 0 100] false [].

(* ========================================================================= *)
(** * Properties *)
(* ========================================================================= *)

(** ** Arithmetic of [int] *)

Lemma wrap_small (z : Z) : Int32.in_range z -> Int32.wrap z = z.
Proof.
  unfold Int32.in_range, Int32.wrap, Int32.INT_MIN, Int32.INT_MAX. intros H.
  rewrite Z.mod_small; lia.
Qed.

Lemma add_small (a b : Z) : Int32.in_range (a + b) -> a +i b = a + b.
Proof. apply wrap_small. Qed.

Lemma sub_small (a b : Z) : Int32.in_range (a - b) -> a -i b = a - b.
Proof. apply wrap_small. Qed.

Lemma neg_small (a : Z) : Int32.in_range (- a) -> Int32.neg a = - a.
Proof. apply wrap_small. Qed.

Lemma div2_small (a : Z) : 0 <= a <= Int32.INT_MAX -> a /i 2 = a / 2.
Proof.
  intros H. unfold Int32.div.
  rewrite Z.quot_div_nonneg by lia.
  apply wrap_small. unfold Int32.in_range, Int32.INT_MIN, Int32.INT_MAX in *.
  pose proof (Z.div_pos a 2). pose proof (Z.div_le_upper_bound a 2 a). lia.
Qed.

Lemma int_of_size_small (n : nat) :
  Z.of_nat n <= Int32.INT_MAX -> int_of_size n = Z.of_nat n.
Proof.
  intros H. apply wrap_small.
  unfold Int32.in_range, Int32.INT_MIN, Int32.INT_MAX in *. lia.
Qed.

Ltac int_range := unfold Int32.in_range, Int32.INT_MIN, Int32.INT_MAX in *; lia.

(** ** Eviction *)

Lemma shift_memory_cells (S d C : Z) (mem : Memory) :
  0 <= S -> 0 <= d -> S + d <= C -> C <= Int32.INT_MAX ->
  llama_memory_seq_add (llama_memory_seq_rm mem 0 S (S + d)) 0 (S + d) C (- d)
  = flat_map (spec_evict_cell S d C) mem.
Proof.
  intros HS Hd HdC HC.
  unfold llama_memory_seq_add, llama_memory_seq_rm.
  induction mem as [|c mem IH]; [reflexivity|].
  cbn [filter flat_map]. rewrite <- IH. clear IH.
  unfold spec_evict_cell, in_pos_range.
  destruct (cell_seq c =? 0) eqn:Hseq; cbn [negb andb].
  2:{ cbn [map app]. rewrite Hseq. reflexivity. }
  destruct (S <? 0) eqn:E0; [lia|].
  destruct (S + d <? 0) eqn:E1; [lia|].
  destruct (C <? 0) eqn:E2; [lia|].
  cbn [orb].
  destruct (cell_pos c <? S) eqn:E3.
  - replace (S <=? cell_pos c) with false by lia. cbn [andb negb map app].
    rewrite Hseq. replace (S + d <=? cell_pos c) with false by lia. reflexivity.
  - replace (S <=? cell_pos c) with true by lia. cbn [andb].
    destruct (cell_pos c <? S + d) eqn:E4; cbn [negb]; [reflexivity|].
    cbn [map app]. rewrite Hseq.
    replace (S + d <=? cell_pos c) with true by lia. cbn [andb].
    destruct (cell_pos c <? C) eqn:E5; [|reflexivity].
    rewrite add_small by int_range. reflexivity.
Qed.

Lemma evict_nothing (S C : Z) (mem : Memory) :
  C = S -> flat_map (spec_evict_cell S 0 C) mem = mem.
Proof.
  intros HCS. subst C. induction mem as [|c mem IH]; [reflexivity|].
  cbn [flat_map]. rewrite IH. unfold spec_evict_cell.
  destruct (cell_seq c =? 0); cbn [negb]; [|reflexivity].
  rewrite Z.add_0_r.
  destruct (cell_pos c <? S); reflexivity.
Qed.

Lemma discard_value (S C : Z) :
  0 <= S -> S <= C -> C <= Int32.INT_MAX ->
  (C -i S) /i 2 = (C - S) / 2 /\ 0 <= (C - S) / 2 <= C - S.
Proof.
  intros HS HSC HC. split.
  - rewrite sub_small by int_range. apply div2_small. int_range.
  - split; [apply Z.div_pos; lia|]. apply Z.div_le_upper_bound; lia.
Qed.

Lemma shift_context_cursor (st : State) :
  0 <= g_system_pos st -> g_system_pos st <= g_current_pos st ->
  g_current_pos st <= Int32.INT_MAX ->
  g_current_pos (shift_context st)
  = g_current_pos st - (g_current_pos st - g_system_pos st) / 2
  /\ trace (shift_context st)
     = trace st ++ [EvShift ((g_current_pos st - g_system_pos st) / 2)].
Proof.
  intros HS HSC HC.
  destruct (discard_value _ _ HS HSC HC) as [En Hd].
  unfold shift_context. rewrite En.
  cbn [g_current_pos trace with_pos with_kv log].
  rewrite sub_small by int_range. split; reflexivity.
Qed.

(** C1. With cursor [C] and system boundary [S], [0 <= S <= C],
    [shift_context] discards [floor((C - S) / 2)] positions: the cells of
    [[S, S + discard)] are removed, those of [[S + discard, C)] move down by
    [discard], the cursor becomes [C - discard >= S], the boundary stays; with
    [C = S] the discard is 0 and cursor, boundary and memory are unchanged. *)
Theorem shift_context_half_window (st : State) :
  let S := g_system_pos st in
  let C := g_current_pos st in
  let discard := (C - S) / 2 in
  0 <= S -> S <= C -> C <= Int32.INT_MAX ->
  g_current_pos (shift_context st) = C - discard
  /\ S <= C - discard
  /\ g_system_pos (shift_context st) = S
  /\ kv (shift_context st) = flat_map (spec_evict_cell S discard C) (kv st)
  /\ trace (shift_context st) = trace st ++ [EvShift discard]
  /\ (C = S -> discard = 0 /\ g_current_pos (shift_context st) = C
               /\ kv (shift_context st) = kv st).
Proof.
  intros S C discard HS HSC HC.
  destruct (discard_value S C HS HSC HC) as [En Hd]. fold discard in En, Hd.
  unfold shift_context. fold S C. rewrite En.
  cbn [g_current_pos g_system_pos kv trace with_pos with_kv log].
  rewrite (add_small S discard) by int_range.
  rewrite (sub_small C discard) by int_range.
  rewrite neg_small by int_range.
  rewrite shift_memory_cells by lia.
  split; [reflexivity|]. split; [lia|]. split; [reflexivity|].
  split; [reflexivity|]. split; [reflexivity|].
  intros E. assert (E0 : discard = 0) by lia.
  split; [assumption|]. split; [lia|].
  rewrite E0. apply evict_nothing. assumption.
Qed.

(** Scenario B of the specification. *)
Lemma shift_context_half_window_witness :
  g_current_pos (shift_context scenario_B_state) = 7
  /\ 2 <= 7
  /\ g_system_pos (shift_context scenario_B_state) = 2
  /\ kv (shift_context scenario_B_state)
     = flat_map (spec_evict_cell 2 5 12) (kv scenario_B_state)
  /\ trace (shift_context scenario_B_state) = [EvShift 5]
  /\ (12 = 2 -> 5 = 0 /\ g_current_pos (shift_context scenario_B_state) = 12
               /\ kv (shift_context scenario_B_state) = kv scenario_B_state).
Proof.
  apply (shift_context_half_window scenario_B_state); cbn; unfold Int32.INT_MAX; lia.
Defined.

(** ** Batched prompt submission *)

Lemma fill_batch_spec (tokens : list Z) (start i : Z) (logit_last : bool) :
  0 <= start -> 0 <= i -> Z.of_nat (length tokens) <= Int32.INT_MAX ->
  forall (count : nat) (j : Z) (batch : Batch),
    0 <= j -> start + i + j + Z.of_nat count <= Int32.INT_MAX ->
    fill_batch count tokens start i j logit_last batch
    = batch ++ spec_entries tokens start logit_last (Z.to_nat (i + j)) count.
Proof.
  intros Hs Hi Hn. induction count as [|count IH]; intros j batch Hj Hb.
  - cbn. rewrite app_nil_r. reflexivity.
  - cbn [fill_batch]. rewrite IH by (try rewrite add_small; int_range).
    unfold common_batch_add, spec_entries. cbn [seq map].
    rewrite <- app_assoc. cbn [app]. f_equal.
    rewrite (add_small j 1), (add_small i j), (add_small start i) by int_range.
    rewrite add_small by int_range.
    rewrite int_of_size_small by assumption. rewrite sub_small by int_range.
    replace (Z.to_nat (i + (j + 1))) with (S (Z.to_nat (i + j))) by lia.
    f_equal. unfold spec_entry. rewrite Z2Nat.id by lia.
    f_equal. lia.
Qed.

Lemma spec_entries_split (tokens : list Z) (start : Z) (ll : bool) (from a b : nat) :
  spec_entries tokens start ll from (a + b)
  = spec_entries tokens start ll from a ++ spec_entries tokens start ll (from + a) b.
Proof. unfold spec_entries. rewrite seq_app, map_app. reflexivity. Qed.

Lemma spec_entries_no_output (tokens : list Z) (start : Z) (ll : bool) (from count : nat) :
  (from + count < length tokens)%nat ->
  Forall (fun x => be_logits x = false) (spec_entries tokens start ll from count).
Proof.
  intros H. unfold spec_entries. apply Forall_forall. intros x Hx.
  apply in_map_iff in Hx. destruct Hx as [idx [<- Hin]].
  apply in_seq in Hin. cbn [spec_entry be_logits].
  replace (Z.of_nat idx =? Z.of_nat (length tokens) - 1) with false by lia.
  apply andb_false_r.
Qed.

Lemma ceil_div_small (x B : Z) : 0 < x <= B -> ceil_div x B = 1.
Proof.
  intros H. unfold ceil_div.
  replace (x + B - 1) with ((x - 1) + 1 * B) by lia.
  rewrite Z.div_add by lia. rewrite Z.div_small; lia.
Qed.

Lemma ceil_div_step (x B : Z) : 0 < B -> ceil_div (x + B) B = ceil_div x B + 1.
Proof.
  intros H. unfold ceil_div.
  replace (x + B + B - 1) with ((x + B - 1) + 1 * B) by lia.
  rewrite Z.div_add by lia. reflexivity.
Qed.

Lemma decoded_batches_app (a b : list Event) :
  decoded_batches (a ++ b) = decoded_batches a ++ decoded_batches b.
Proof. unfold decoded_batches. apply flat_map_app. Qed.

Section DecodeBatched.

Variables (w : World) (tokens : list Z) (start : Z) (ll : bool) (B cap : Z).

Local Abbreviation n := (Z.of_nat (length tokens)).

Hypothesis HB : 0 < B.
Hypothesis Hstart : 0 <= start.
Hypothesis Hfit : start + n <= Int32.INT_MAX.
Hypothesis HnB : n + B <= Int32.INT_MAX.
Hypothesis Hok : forall k, prompt_decode_ok w k = true.
Hypothesis Hcap : Int32.INT_MIN + 4 <= cap <= Int32.INT_MAX.

Lemma decode_batched_from_done (fuel k : nat) (i : Z) (st : State) :
  n <= i -> decode_batched_from fuel w tokens start ll k i st = Some (0, st).
Proof.
  intros Hi. destruct fuel; cbn [decode_batched_from];
    rewrite int_of_size_small by int_range;
    replace (i <? n) with false by lia; reflexivity.
Qed.

Lemma chunk_is_spec (i cur : Z) :
  0 <= i -> 0 <= cur -> i + cur <= n ->
  fill_batch (Z.to_nat cur) tokens start i 0 ll (common_batch_clear [])
  = spec_entries tokens start ll (Z.to_nat i) (Z.to_nat cur).
Proof.
  intros Hi Hc Hle. rewrite fill_batch_spec by int_range.
  unfold common_batch_clear. cbn [app]. rewrite Z.add_0_r. reflexivity.
Qed.

Lemma shift_before_chunk (st : State) (c : bool) :
  exists sh, trace (if c then shift_context st else st) = trace st ++ sh
             /\ decoded_batches sh = []
             /\ g_batch_size (if c then shift_context st else st) = g_batch_size st.
Proof.
  destruct c.
  - eexists. split; [reflexivity|]. split; reflexivity.
  - exists []. rewrite app_nil_r. repeat split.
Qed.

Lemma decode_batched_from_spec :
  forall (fuel k : nat) (i : Z) (st : State),
    g_batch_size st = B -> 0 <= i < n -> n - i <= Z.of_nat fuel ->
    exists st' evs,
      decode_batched_from fuel w tokens start ll k i st = Some (0, st')
      /\ trace st' = trace st ++ evs
      /\ Z.of_nat (length (decoded_batches evs)) = ceil_div (n - i) B
      /\ Forall (fun b => (0 < length b)%nat /\ Z.of_nat (length b) <= B)
                (decoded_batches evs)
      /\ concat (decoded_batches evs)
         = spec_entries tokens start ll (Z.to_nat i) (Z.to_nat (n - i))
      /\ only_last_wants ll (decoded_batches evs).
Proof.
  induction fuel as [|fuel IH]; intros k i st HBst Hi Hfuel; [lia|].
  cbn [decode_batched_from].
  rewrite int_of_size_small by int_range.
  replace (i <? n) with true by lia.
  rewrite Hok, HBst.
  rewrite (sub_small n i) by int_range.
  rewrite (add_small i B) by int_range.
  set (cur := Z.min (n - i) B).
  set (c := g_context_size st -i 4 <=? start +i i +i cur).
  destruct (shift_before_chunk st c) as [sh [Htr [Hsh HB1]]].
  set (st1 := if c then shift_context st else st) in *.
  rewrite chunk_is_spec by lia.
  set (batch := spec_entries tokens start ll (Z.to_nat i) (Z.to_nat cur)).
  assert (Hlen : length batch = Z.to_nat cur).
  { unfold batch, spec_entries. rewrite length_map, length_seq. reflexivity. }
  destruct (Z_le_gt_dec (n - i) B) as [Hlast | Hmore].
  - (* the last chunk *)
    rewrite decode_batched_from_done by lia.
    exists (llama_decode true batch st1), (sh ++ [EvDecode batch true]).
    assert (Hcur : cur = n - i) by (unfold cur; lia).
    split; [reflexivity|].
    split. { cbn [llama_decode trace with_kv log]. rewrite Htr, app_assoc. reflexivity. }
    rewrite decoded_batches_app, Hsh. cbn [app decoded_batches flat_map length concat].
    split. { rewrite ceil_div_small by lia. reflexivity. }
    split. { constructor; [|constructor]. rewrite Hlen. lia. }
    split. { rewrite app_nil_r. unfold batch. rewrite Hcur. reflexivity. }
    exists [], (spec_entries tokens start ll (Z.to_nat i) (Z.to_nat (n - i - 1))),
      (spec_entry tokens start ll (Z.to_nat (n - 1))).
    split.
    { cbn [app]. f_equal. unfold batch. rewrite Hcur.
      replace (Z.to_nat (n - i)) with (Z.to_nat (n - i - 1) + 1)%nat by lia.
      rewrite spec_entries_split. f_equal. unfold spec_entries. cbn [seq map].
      do 2 f_equal. lia. }
    split.
    { cbn [spec_entry be_logits].
      rewrite Z2Nat.id by lia. rewrite Z.eqb_refl.
      apply andb_true_r. }
    split; [constructor|].
    apply spec_entries_no_output. lia.
  - (* a full chunk, more to come *)
    assert (Hcur : cur = B) by (unfold cur; lia).
    destruct (IH (S k) (i + B) (llama_decode true batch st1))
      as [st' [evs [Hrun [Htr' [Hcnt [Hall [Hcat Hlastw]]]]]]];
      [cbn [llama_decode g_batch_size with_kv log]; congruence | lia | lia |].
    exists st', (sh ++ [EvDecode batch true] ++ evs).
    split; [exact Hrun|].
    split.
    { rewrite Htr'. cbn [llama_decode trace with_kv log]. rewrite Htr.
      rewrite <- !app_assoc. reflexivity. }
    rewrite !decoded_batches_app, Hsh.
    cbn [app decoded_batches flat_map length concat].
    change (flat_map _ evs) with (decoded_batches evs).
    split.
    { rewrite Nat2Z.inj_succ, Hcnt.
      replace (ceil_div (n - i) B) with (ceil_div (n - (i + B) + B) B)
        by (f_equal; lia).
      rewrite ceil_div_step by lia. lia. }
    split. { constructor; [rewrite Hlen; lia | exact Hall]. }
    split.
    { rewrite Hcat. unfold batch. rewrite Hcur.
      replace (Z.to_nat (n - i)) with (Z.to_nat B + Z.to_nat (n - (i + B)))%nat by lia.
      rewrite spec_entries_split. do 2 f_equal. lia. }
    destruct Hlastw as [init [init_b [e [Hbs [He [Hinit Hinit_b]]]]]].
    exists (batch :: init), init_b, e.
    split; [rewrite Hbs; reflexivity|].
    split; [exact He|].
    split; [|exact Hinit_b].
    constructor; [|exact Hinit].
    apply spec_entries_no_output. lia.
Qed.

Lemma shift_trace (st : State) (c : bool) :
  exists d, trace (if c then shift_context st else st)
            = trace st ++ (if c then [EvShift d] else []).
Proof.
  destruct c.
  - eexists. reflexivity.
  - exists 0. rewrite app_nil_r. reflexivity.
Qed.

Lemma submissions_chunk (c : bool) (d : Z) (b : Batch) (ok : bool) (rest : list Event) :
  submissions false ((if c then [EvShift d] else []) ++ EvDecode b ok :: rest)
  = (c, b) :: submissions false rest.
Proof. destruct c; reflexivity. Qed.

Lemma chunk_shape (i cur : Z) :
  0 <= i -> 0 < cur ->
  let b := spec_entries tokens start ll (Z.to_nat i) (Z.to_nat cur) in
  first_pos b = start + i /\ Z.of_nat (length b) = cur.
Proof.
  intros Hi Hc b. unfold b, spec_entries. split.
  - destruct (Z.to_nat cur) as [|m] eqn:E; [lia|].
    cbn [seq map first_pos spec_entry be_pos]. lia.
  - rewrite length_map, length_seq. lia.
Qed.

(** The guard of [decode_batched] against the trigger of the
    specification, the cursor being the position of the chunk's first
    token; any decode outcome. *)
Lemma decode_batched_from_guard :
  forall (fuel k : nat) (i : Z) (st : State),
    g_batch_size st = B -> g_context_size st = cap ->
    0 <= i -> n - i <= Z.of_nat fuel ->
    exists rc st' evs,
      decode_batched_from fuel w tokens start ll k i st = Some (rc, st')
      /\ trace st' = trace st ++ evs
      /\ Forall (fun sb => fst sb = spec_should_evict (first_pos (snd sb))
                                       (Z.of_nat (length (snd sb))) cap)
                (submissions false evs).
Proof.
  induction fuel as [|fuel IH]; intros k i st HBst Hcst Hi Hfuel.
  { exists 0, st, []. rewrite decode_batched_from_done by lia.
    rewrite app_nil_r. repeat split. constructor. }
  destruct (Z_le_gt_dec n i) as [Hdone | Hlt].
  { exists 0, st, []. rewrite decode_batched_from_done by lia.
    rewrite app_nil_r. repeat split. constructor. }
  cbn [decode_batched_from].
  rewrite int_of_size_small by int_range.
  replace (i <? n) with true by lia.
  rewrite HBst, Hcst.
  rewrite (sub_small n i) by int_range.
  rewrite (add_small i B) by int_range.
  set (cur := Z.min (n - i) B).
  assert (Hcur : 0 < cur <= n - i) by (unfold cur; lia).
  rewrite (sub_small cap 4) by int_range.
  rewrite (add_small start i) by int_range.
  rewrite (add_small (start + i) cur) by int_range.
  set (c := cap - 4 <=? start + i + cur).
  destruct (shift_trace st c) as [d Htr].
  set (st1 := if c then shift_context st else st) in *.
  assert (HB1 : g_batch_size st1 = B) by (unfold st1; destruct c; assumption).
  assert (Hc1 : g_context_size st1 = cap) by (unfold st1; destruct c; assumption).
  rewrite chunk_is_spec by lia.
  destruct (chunk_shape i cur) as [Hfirst Hlen]; [lia | lia |].
  set (batch := spec_entries tokens start ll (Z.to_nat i) (Z.to_nat cur)) in *.
  assert (Hflag : c = spec_should_evict (first_pos batch) (Z.of_nat (length batch)) cap).
  { rewrite Hfirst, Hlen. reflexivity. }
  destruct (prompt_decode_ok w k) eqn:Hdec.
  - destruct (IH (S k) (i + B) (llama_decode true batch st1))
      as [rc [st' [evs [Hrun [Htr' Hall]]]]];
      [exact HB1 | exact Hc1 | lia | lia |].
    exists rc, st', ((if c then [EvShift d] else []) ++ EvDecode batch true :: evs).
    split; [exact Hrun|].
    split.
    { rewrite Htr'. cbn [llama_decode trace with_kv log]. rewrite Htr.
      rewrite <- !app_assoc. reflexivity. }
    rewrite submissions_chunk. constructor; [exact Hflag | exact Hall].
  - exists 1, (llama_decode false batch st1),
      ((if c then [EvShift d] else []) ++ EvDecode batch false :: []).
    split; [reflexivity|].
    split.
    { cbn [llama_decode trace with_kv log]. rewrite Htr.
      rewrite <- !app_assoc. reflexivity. }
    rewrite submissions_chunk. constructor; [exact Hflag | constructor].
Qed.

End DecodeBatched.

(** [decode_batched] returns for every outcome of the decodes once the batch
    size is at least 1: the fuel of [decode_batched_from] is enough. *)
Lemma decode_batched_total (w : World) (tokens : list Z) (start : Z) (ll : bool)
      (st : State) :
  0 < g_batch_size st -> 0 <= start ->
  start + Z.of_nat (length tokens) <= Int32.INT_MAX ->
  Z.of_nat (length tokens) + g_batch_size st <= Int32.INT_MAX ->
  Int32.INT_MIN + 4 <= g_context_size st <= Int32.INT_MAX ->
  exists rc st', decode_batched w tokens start ll st = Some (rc, st').
Proof.
  intros HB Hs Hfit HnB Hcap.
  destruct (decode_batched_from_guard w tokens start ll (g_batch_size st)
              (g_context_size st) HB Hs Hfit HnB Hcap (length tokens) 0%nat 0 st)
    as [rc [st' [evs [Hrun _]]]]; try reflexivity; try lia.
  exists rc, st'. exact Hrun.
Qed.

Lemma map_nth_seq (l : list Z) (d : Z) :
  map (fun idx => nth idx l d) (seq 0 (length l)) = l.
Proof.
  induction l as [|x l IH]; [reflexivity|].
  cbn [length seq map nth]. rewrite <- seq_shift, map_map. cbn [nth].
  rewrite IH. reflexivity.
Qed.

Lemma spec_entries_tokens (tokens : list Z) (start : Z) (ll : bool) :
  map be_token (spec_entries tokens start ll 0 (length tokens)) = tokens.
Proof.
  unfold spec_entries. rewrite map_map. cbn [spec_entry be_token].
  apply map_nth_seq.
Qed.

(** C2. With a batch size [B >= 1] and every [llama_decode] succeeding,
    [decode_batched] returns 0 after submitting exactly [ceil(n / B)] batches,
    each of at most [B] entries; their concatenation is the entry list of the
    specification (token [i] at position [start + i], sequence id 0), so the
    tokens read back are the original sequence; and only the last entry of
    the last batch can want output, which it does iff [logit_last]. *)
Theorem decode_batched_partition (w : World) (tokens : list Z) (start : Z)
        (logit_last : bool) (st : State) :
  0 < g_batch_size st ->
  0 <= start ->
  start + Z.of_nat (length tokens) <= Int32.INT_MAX ->
  Z.of_nat (length tokens) + g_batch_size st <= Int32.INT_MAX ->
  (forall k, prompt_decode_ok w k = true) ->
  exists st' evs,
    decode_batched w tokens start logit_last st = Some (0, st')
    /\ trace st' = trace st ++ evs
    /\ Z.of_nat (length (decoded_batches evs))
       = ceil_div (Z.of_nat (length tokens)) (g_batch_size st)
    /\ Forall (fun b => Z.of_nat (length b) <= g_batch_size st) (decoded_batches evs)
    /\ concat (decoded_batches evs)
       = spec_entries tokens start logit_last 0 (length tokens)
    /\ map be_token (concat (decoded_batches evs)) = tokens
    /\ (tokens <> [] -> only_last_wants logit_last (decoded_batches evs)).
Proof.
  intros HB Hs Hfit HnB Hok. unfold decode_batched.
  destruct tokens as [|t tokens'] eqn:Et.
  - exists st, []. cbn. rewrite app_nil_r. unfold ceil_div.
    rewrite Z.div_small by lia. repeat split; try constructor. congruence.
  - rewrite <- Et in *.
    assert (Hpos : 0 < Z.of_nat (length tokens)) by (rewrite Et; cbn [length]; lia).
    destruct (decode_batched_from_spec w tokens start logit_last (g_batch_size st)
                HB Hs Hfit HnB Hok (length tokens) 0%nat 0 st eq_refl)
      as [st' [evs [Hrun [Htr [Hcnt [Hall [Hcat Hlastw]]]]]]]; [lia | lia |].
    rewrite Z.sub_0_r in Hcnt, Hcat. rewrite Nat2Z.id in Hcat. cbn [Z.to_nat] in Hcat.
    exists st', evs.
    split; [exact Hrun|]. split; [exact Htr|]. split; [exact Hcnt|].
    split. { eapply Forall_impl; [|exact Hall]. cbn. intros b Hb. apply Hb. }
    split; [exact Hcat|].
    split. { rewrite Hcat. apply spec_entries_tokens. }
    intros _. exact Hlastw.
Qed.

Lemma decode_batched_partition_witness :
  exists st' evs,
    decode_batched quiet_world scenario_A_prompt 0 true scenario_A_state = Some (0, st')
    /\ trace st' = [] ++ evs
    /\ Z.of_nat (length (decoded_batches evs)) = ceil_div 10 4
    /\ Forall (fun b => Z.of_nat (length b) <= 4) (decoded_batches evs)
    /\ concat (decoded_batches evs) = spec_entries scenario_A_prompt 0 true 0 10
    /\ map be_token (concat (decoded_batches evs)) = scenario_A_prompt
    /\ (scenario_A_prompt <> [] -> only_last_wants true (decoded_batches evs)).
Proof.
  apply (decode_batched_partition quiet_world scenario_A_prompt 0 true scenario_A_state);
    cbn; unfold Int32.INT_MAX; try lia; reflexivity.
Defined.

(** Scenario A, evaluated: three batches of 4, 4 and 2 entries. *)
Example scenario_A_batches :
  match decode_batched quiet_world scenario_A_prompt 0 true scenario_A_state with
  | Some (rc, st') =>
      rc = 0
      /\ map (fun b => length b) (decoded_batches (trace st')) = [4; 4; 2]%nat
      /\ map be_logits (concat (decoded_batches (trace st')))
         = [false; false; false; false; false; false; false; false; false; true]
  | None => False
  end.
Proof. vm_compute. repeat split. Qed.

(** ** When eviction runs *)

Lemma shift_if_full_spec (st : State) :
  Int32.INT_MIN + 4 <= g_context_size st <= Int32.INT_MAX ->
  0 <= g_system_pos st <= g_current_pos st ->
  g_current_pos st <= Int32.INT_MAX ->
  let c := g_context_size st - 4 <=? g_current_pos st in
  let d := (g_current_pos st - g_system_pos st) / 2 in
  g_current_pos (shift_if_full st) = (if c then g_current_pos st - d else g_current_pos st)
  /\ trace (shift_if_full st) = trace st ++ (if c then [EvShift d] else [])
  /\ g_system_pos (shift_if_full st) = g_system_pos st
  /\ g_context_size (shift_if_full st) = g_context_size st
  /\ g_system_pos st <= g_current_pos (shift_if_full st) <= g_current_pos st.
Proof.
  intros Hcap HS HC c d. unfold shift_if_full.
  rewrite sub_small by int_range. fold c.
  destruct (discard_value (g_system_pos st) (g_current_pos st)) as [_ Hd]; try lia.
  fold d in Hd.
  destruct c.
  - destruct (shift_context_cursor st) as [Hpos Htr]; try lia.
    rewrite Hpos, Htr. fold d. repeat split; try reflexivity; lia.
  - rewrite app_nil_r. repeat split; try reflexivity; lia.
Qed.

Lemma generate_loop_submissions (w : World) :
  forall (n i : nat) (st : State) (result : list Z),
    Int32.INT_MIN + 4 <= g_context_size st <= Int32.INT_MAX ->
    0 <= g_system_pos st <= g_current_pos st ->
    g_current_pos st + Z.of_nat n <= Int32.INT_MAX ->
    exists evs,
      trace (fst (fst (generate_loop w n i st result))) = trace st ++ evs
      /\ submissions false evs
         = spec_gen_submissions w (g_context_size st) (g_system_pos st) n i
                                (g_current_pos st).
Proof.
  induction n as [|n IH]; intros i st result Hcap HS HC.
  { exists []. cbn. rewrite app_nil_r. split; reflexivity. }
  cbn [generate_loop spec_gen_submissions].
  destruct (shift_if_full_spec st Hcap HS) as [Hpos [Htr [Hsys [Hsize Hbnd]]]]; [lia|].
  set (c := g_context_size st - 4 <=? g_current_pos st) in *.
  set (d := (g_current_pos st - g_system_pos st) / 2) in *.
  set (st1 := shift_if_full st) in *.
  set (id := common_sampler_sample w i).
  destruct (llama_vocab_is_eog w id).
  { exists (if c then [EvShift d] else []). cbn [fst].
    split; [exact Htr|]. destruct c; reflexivity. }
  unfold decode_one, common_batch_clear, common_batch_add. cbn [app].
  destruct (gen_decode_ok w i).
  - set (st2 := with_pos _ _).
    destruct (IH (S i) st2 (result ++ common_token_to_piece w id))
      as [evs [Htr' Hsub]].
    + unfold st2. cbn. fold st1. rewrite Hsize. exact Hcap.
    + unfold st2. cbn. fold st1. rewrite Hsys. rewrite add_small by int_range. lia.
    + unfold st2. cbn. fold st1. rewrite add_small by int_range. int_range.
    + exists ((if c then [EvShift d] else [])
                ++ EvDecode [mkEntry id (g_current_pos st1) [0] true] true :: evs).
      split.
      { rewrite Htr'. unfold st2. cbn. fold st1. rewrite Htr.
        rewrite <- !app_assoc. reflexivity. }
      rewrite submissions_chunk, Hsub. unfold st2. cbn. fold st1.
      rewrite Hsize, Hsys, Hpos. rewrite add_small by (destruct c; int_range).
      reflexivity.
  - exists ((if c then [EvShift d] else [])
              ++ EvDecode [mkEntry id (g_current_pos st1) [0] true] false :: []).
    cbn [fst]. split.
    { cbn. fold st1. rewrite Htr. rewrite <- !app_assoc. reflexivity. }
    rewrite submissions_chunk, Hpos. reflexivity.
Qed.

(** C3, as amended.  Before every prompt chunk [decode_batched] evicts iff
    [p + pending >= capacity - 4], where [p] is the position of the chunk's
    first token and [pending] the chunk's length; the generation loop
    evicts before a single-token batch iff [cursor >= capacity - 4], the
    pending token not being counted ([spec_gen_submissions]). *)
Theorem eviction_trigger (w : World) (st : State) (tokens : list Z) (start : Z)
        (logit_last : bool) (n i : nat) (result : list Z) :
  Int32.INT_MIN + 4 <= g_context_size st <= Int32.INT_MAX ->
  0 < g_batch_size st ->
  0 <= start ->
  start + Z.of_nat (length tokens) <= Int32.INT_MAX ->
  Z.of_nat (length tokens) + g_batch_size st <= Int32.INT_MAX ->
  0 <= g_system_pos st <= g_current_pos st ->
  g_current_pos st + Z.of_nat n <= Int32.INT_MAX ->
  (exists rc st' evs,
      decode_batched w tokens start logit_last st = Some (rc, st')
      /\ trace st' = trace st ++ evs
      /\ Forall (fun sb => fst sb = spec_should_evict (first_pos (snd sb))
                                       (Z.of_nat (length (snd sb)))
                                       (g_context_size st))
                (submissions false evs))
  /\ (exists evs,
         trace (fst (fst (generate_loop w n i st result))) = trace st ++ evs
         /\ submissions false evs
            = spec_gen_submissions w (g_context_size st) (g_system_pos st) n i
                                   (g_current_pos st)).
Proof.
  intros Hcap HB Hs Hfit HnB HS HC. split.
  - unfold decode_batched.
    apply (decode_batched_from_guard w tokens start logit_last (g_batch_size st)
             (g_context_size st) HB Hs Hfit HnB Hcap); try reflexivity; lia.
  - apply generate_loop_submissions; assumption.
Qed.

Lemma eviction_trigger_witness :
  (exists rc st' evs,
      decode_batched quiet_world prompt_of_11 0 true generating_state = Some (rc, st')
      /\ trace st' = trace generating_state ++ evs
      /\ Forall (fun sb => fst sb = spec_should_evict (first_pos (snd sb))
                                       (Z.of_nat (length (snd sb))) 16)
                (submissions false evs))
  /\ (exists evs,
         trace (fst (fst (generate_loop quiet_world 3 0 generating_state [])))
         = trace generating_state ++ evs
         /\ submissions false evs = spec_gen_submissions quiet_world 16 0 3 0 11).
Proof.
  apply (eviction_trigger quiet_world generating_state prompt_of_11 0 true 3 0 []);
    cbn; unfold Int32.INT_MIN, Int32.INT_MAX; lia.
Defined.

(** The generation loop from cursor 11 in a window of 16: the first token is
    submitted without eviction, the second after one. *)
Example generating_state_submissions :
  submissions false (trace (fst (fst (generate_loop quiet_world 3 0 generating_state []))))
  = [ (false, [mkEntry 65 11 [0] true]);
      (true,  [mkEntry 66 6 [0] true]);
      (false, [mkEntry 67 7 [0] true]) ].
Proof. vm_compute. reflexivity. Qed.

(** C3 as stated fails in the generation loop.  A request with capacity 16,
    a prompt of 11 tokens and a budget of 1 token submits its single-token
    batch at cursor 11 without eviction, although
    [cursor + pending = 12 >= 16 - 4]. *)
Lemma eviction_trigger_counterexample :
  let st' := snd (nativeGenerate quiet_world prompt_of_11 1 scenario_A_state) in
  nth_error (submissions false (trace st')) 3 = Some (false, [mkEntry 65 11 [0] true])
  /\ spec_should_evict 11 1 (g_context_size st') = true.
Proof. vm_compute. split; reflexivity. Qed.

(** ** UTF-8 validation *)

Lemma utf8_scan_cons (b : Z) (rest : list Z) :
  utf8_scan (b :: rest)
  = if b =? 0 then true
    else match unit_length b with
         | None => false
         | Some n => expect_conts (Nat.pred n) rest
         end.
Proof.
  cbn [utf8_scan]. destruct (b =? 0); [reflexivity|].
  destruct (unit_length b) as [n|]; [|reflexivity].
  generalize (Nat.pred n). intros k. revert k.
  induction rest as [|c rest IH]; intros [|k]; try reflexivity.
  cbn [expect_conts]. destruct (is_continuation c); [apply IH | reflexivity].
Qed.

Lemma expect_conts_c_str (s : list Z) :
  forall k, expect_conts k (c_str s) = expect_conts k s.
Proof.
  induction s as [|b rest IH]; intros k; [reflexivity|].
  cbn [c_str]. destruct (b =? 0) eqn:Eb.
  - apply Z.eqb_eq in Eb. subst b. destruct k; reflexivity.
  - destruct k as [|k].
    + cbn [expect_conts]. rewrite !utf8_scan_cons, Eb.
      destruct (unit_length b); [apply IH | reflexivity].
    + cbn [expect_conts]. destruct (is_continuation b); [apply IH | reflexivity].
Qed.

Lemma utf8_scan_c_str (s : list Z) : utf8_scan (c_str s) = utf8_scan s.
Proof. apply (expect_conts_c_str s 0%nat). Qed.

Lemma c_str_nul_free (s : list Z) : nul_free s -> c_str s = s.
Proof.
  induction 1 as [|b rest Hb _ IH]; [reflexivity|].
  cbn [c_str]. replace (b =? 0) with false by lia. rewrite IH. reflexivity.
Qed.

Lemma expect_conts_app (v t : list Z) :
  nul_free v ->
  forall k, expect_conts k v = true -> expect_conts k (v ++ t) = utf8_scan t.
Proof.
  induction 1 as [|b v Hb _ IH]; intros k Hk.
  - destruct k; [reflexivity | discriminate].
  - destruct k as [|k]; cbn [app expect_conts] in *.
    + rewrite utf8_scan_cons in *. replace (b =? 0) with false in * by lia.
      destruct (unit_length b); [apply IH; assumption | discriminate].
    + destruct (is_continuation b); [apply IH; assumption | discriminate].
Qed.

Lemma expect_conts_short (cs : list Z) :
  forall k, (length cs < k)%nat -> expect_conts k cs = false.
Proof.
  induction cs as [|c cs IH]; intros [|k] Hk; cbn in Hk; try lia; try reflexivity.
  cbn [expect_conts]. destruct (is_continuation c); [apply IH; lia | reflexivity].
Qed.

Lemma land_submask (b m v k : Z) :
  Z.land b m = v -> Z.land m k = k -> Z.land b k = Z.land v k.
Proof.
  intros Hv Hk. subst v. rewrite <- Z.land_assoc, Hk. reflexivity.
Qed.

(** A lead byte of a multi-byte unit has its two top bits set. *)
Lemma multi_byte_lead (b : Z) (n : nat) :
  unit_length b = Some n -> (2 <= n)%nat ->
  Z.land b 0xC0 = 0xC0 /\ Z.land b 0x80 = 0x80.
Proof.
  unfold unit_length. intros H Hn.
  destruct (Z.land b 0x80 =? 0x00); [injection H as <-; lia|].
  destruct (Z.land b 0xE0 =? 0xC0) eqn:E2.
  { apply Z.eqb_eq in E2.
    rewrite (land_submask b 0xE0 0xC0 0xC0 E2 eq_refl).
    rewrite (land_submask b 0xE0 0xC0 0x80 E2 eq_refl). split; reflexivity. }
  destruct (Z.land b 0xF0 =? 0xE0) eqn:E3.
  { apply Z.eqb_eq in E3.
    rewrite (land_submask b 0xF0 0xE0 0xC0 E3 eq_refl).
    rewrite (land_submask b 0xF0 0xE0 0x80 E3 eq_refl). split; reflexivity. }
  destruct (Z.land b 0xF8 =? 0xF0) eqn:E4; [|discriminate].
  apply Z.eqb_eq in E4.
  rewrite (land_submask b 0xF8 0xF0 0xC0 E4 eq_refl).
  rewrite (land_submask b 0xF8 0xF0 0x80 E4 eq_refl). split; reflexivity.
Qed.

Lemma pop_continuations_app (cs rest : list Z) (lead : Z) :
  Forall (fun c => is_continuation c = true) cs ->
  is_continuation lead = false ->
  pop_continuations (rev cs ++ lead :: rest) = lead :: rest.
Proof.
  intros Hcs Hlead. apply Forall_rev in Hcs.
  induction Hcs as [|c r Hc _ IH]; cbn [app pop_continuations].
  - rewrite Hlead. reflexivity.
  - rewrite Hc. exact IH.
Qed.

(** An output that ends in one incomplete unit does not validate, and the
    trimming of [validate_output] removes exactly that unit. *)
Lemma validate_output_trims (v u : list Z) :
  nul_free v -> utf8_scan v = true -> incomplete_unit u ->
  utf8_scan (v ++ u) = false /\ validate_output (v ++ u) = v.
Proof.
  intros Hv Hscan [lead [cs [n [-> [Hn [Hn2 [Hcs Hlen]]]]]]].
  destruct (multi_byte_lead lead n Hn Hn2) as [HC0 H80].
  assert (Hinvalid : utf8_scan (v ++ lead :: cs) = false).
  { change (utf8_scan (v ++ lead :: cs)) with (expect_conts 0 (v ++ lead :: cs)).
    rewrite (expect_conts_app v (lead :: cs) Hv 0%nat Hscan).
    rewrite utf8_scan_cons, Hn.
    replace (lead =? 0) with false
      by (symmetry; apply Z.eqb_neq; intros ->; discriminate).
    apply expect_conts_short. lia. }
  split; [exact Hinvalid|].
  unfold validate_output, is_valid_utf8. rewrite Hinvalid. cbn [negb].
  rewrite rev_app_distr. cbn [rev]. rewrite <- app_assoc. cbn [app].
  rewrite pop_continuations_app;
    [| exact Hcs | unfold is_continuation; rewrite HC0; reflexivity].
  cbn [pop_lead]. rewrite H80. cbn. apply rev_involutive.
Qed.

(** ** The streaming loop *)

Lemma shift_if_full_trace (st : State) :
  exists sh, trace (shift_if_full st) = trace st ++ sh
             /\ delivered sh = [] /\ decoded_batches sh = []
             /\ jni_pending (shift_if_full st) = jni_pending st.
Proof.
  unfold shift_if_full. destruct (_ <=? _).
  - eexists. repeat split.
  - exists []. rewrite app_nil_r. repeat split.
Qed.

Lemma delivered_app (a b : list Event) :
  delivered (a ++ b) = delivered a ++ delivered b.
Proof. unfold delivered. apply flat_map_app. Qed.

Lemma stream_loop_chunks (w : World) :
  forall (n i : nat) (st : State) (cached : list Z),
  exists evs m,
    trace (fst (fst (stream_loop w n i st cached))) = trace st ++ evs
    /\ (m <= n)%nat
    /\ Forall (fun chunk => is_valid_utf8 (Some chunk) = true) (delivered evs)
    /\ (cached = [] \/ is_valid_utf8 (Some cached) = false ->
        snd (fst (stream_loop w n i st cached)) = []
        \/ is_valid_utf8 (Some (snd (fst (stream_loop w n i st cached)))) = false)
    /\ (nul_free cached -> (forall id, nul_free (common_token_to_piece w id)) ->
        cached ++ fragments w i m
        = concat (delivered evs) ++ snd (fst (stream_loop w n i st cached))).
Proof.
  induction n as [|n IH]; intros i st cached.
  { exists [], 0%nat. cbn. rewrite !app_nil_r. repeat split; auto. }
  cbn [stream_loop].
  destruct (shift_if_full_trace st) as [sh [Htr [Hsh _]]].
  set (st1 := shift_if_full st) in *.
  set (id := common_sampler_sample w i).
  destruct (llama_vocab_is_eog w id).
  { exists sh, 0%nat. cbn [fst snd]. rewrite Hsh. cbn. rewrite !app_nil_r.
    repeat split; auto. lia. }
  set (cached1 := cached ++ common_token_to_piece w id).
  assert (Hnf : nul_free cached -> (forall id, nul_free (common_token_to_piece w id)) ->
                nul_free cached1).
  { intros H1 H2. unfold cached1, nul_free. apply Forall_app. split; [exact H1 | apply H2]. }
  unfold deliver_if_valid.
  destruct (is_valid_utf8 (Some cached1)) eqn:Hvalid.
  - (* the buffer validates: it is delivered and cleared *)
    assert (Hchunk : is_valid_utf8 (Some (c_str cached1)) = true).
    { cbn [is_valid_utf8] in *. rewrite utf8_scan_c_str. exact Hvalid. }
    set (st_cb := call_on_token (c_str cached1) (on_token_throws w i) st1).
    assert (Htr_cb : trace st_cb
                     = trace st ++ sh ++ [EvOnToken (c_str cached1) (on_token_throws w i)]).
    { unfold st_cb. cbn. fold st1. rewrite Htr, <- app_assoc. reflexivity. }
    destruct (jni_pending st_cb).
    + exists (sh ++ [EvOnToken (c_str cached1) (on_token_throws w i)]), 1%nat.
      cbn [fst snd]. split; [exact Htr_cb|]. split; [lia|].
      rewrite delivered_app, Hsh. cbn.
      split; [constructor; [exact Hchunk | constructor]|].
      split; [left; reflexivity|].
      intros H1 H2. unfold fragments. cbn. rewrite !app_nil_r.
      fold id. fold cached1. rewrite c_str_nul_free by auto. reflexivity.
    + destruct (gen_decode_ok w i).
      * set (st3 := with_pos _ _).
        destruct (IH (S i) st3 []) as [evs [m [Htr' [Hm [Hall [Hres Hcons]]]]]].
        exists (sh ++ [EvOnToken (c_str cached1) (on_token_throws w i)]
                   ++ [EvDecode [mkEntry id (g_current_pos st_cb) [0] true] true] ++ evs),
          (S m).
        split.
        { rewrite Htr'. unfold st3. cbn. fold st1. rewrite Htr.
          rewrite <- !app_assoc. reflexivity. }
        split; [lia|].
        rewrite !delivered_app, Hsh. cbn [delivered flat_map app concat].
        change (flat_map _ evs) with (delivered evs).
        split; [constructor; [exact Hchunk | exact Hall]|].
        split; [intros _; apply Hres; left; reflexivity|].
        intros H1 H2. unfold fragments in *. cbn [seq map concat].
        fold id. rewrite app_assoc. fold cached1.
        rewrite c_str_nul_free by auto. rewrite <- app_assoc. f_equal.
        apply (Hcons (Forall_nil _) H2).
      * exists (sh ++ [EvOnToken (c_str cached1) (on_token_throws w i)]
                   ++ [EvDecode [mkEntry id (g_current_pos st_cb) [0] true] false]),
          1%nat.
        cbn [fst snd]. split.
        { cbn. fold st1. rewrite Htr. rewrite <- !app_assoc. reflexivity. }
        split; [lia|].
        rewrite !delivered_app, Hsh. cbn.
        split; [constructor; [exact Hchunk | constructor]|].
        split; [left; reflexivity|].
        intros H1 H2. unfold fragments. cbn. rewrite !app_nil_r.
        fold id. fold cached1. rewrite c_str_nul_free by auto. reflexivity.
  - (* the buffer does not validate: nothing is delivered, the bytes stay *)
    destruct (gen_decode_ok w i).
    + set (st3 := with_pos _ _).
      destruct (IH (S i) st3 cached1) as [evs [m [Htr' [Hm [Hall [Hres Hcons]]]]]].
      exists (sh ++ [EvDecode [mkEntry id (g_current_pos st1) [0] true] true] ++ evs),
        (S m).
      split.
      { rewrite Htr'. unfold st3. cbn. fold st1. rewrite Htr.
        rewrite <- !app_assoc. reflexivity. }
      split; [lia|].
      rewrite !delivered_app, Hsh. cbn [delivered flat_map app].
      change (flat_map _ evs) with (delivered evs).
      split; [exact Hall|].
      split; [intros _; apply Hres; right; exact Hvalid|].
      intros H1 H2. unfold fragments in *. cbn [seq map concat].
      fold id. rewrite app_assoc. fold cached1. apply Hcons; auto.
    + exists (sh ++ [EvDecode [mkEntry id (g_current_pos st1) [0] true] false]), 1%nat.
      cbn [fst snd]. split.
      { cbn. fold st1. rewrite Htr. rewrite <- !app_assoc. reflexivity. }
      split; [lia|].
      rewrite !delivered_app, Hsh. cbn.
      split; [constructor|].
      split; [right; exact Hvalid|].
      intros H1 H2. unfold fragments. cbn. rewrite !app_nil_r. reflexivity.
Qed.

Lemma decode_batched_from_quiet (w : World) (tokens : list Z) (start : Z) (ll : bool) :
  forall (fuel k : nat) (i : Z) (st : State) (rc : Z) (st' : State),
    decode_batched_from fuel w tokens start ll k i st = Some (rc, st') ->
    exists evs, trace st' = trace st ++ evs /\ delivered evs = [].
Proof.
  induction fuel as [|fuel IH]; intros k i st rc st' Hrun; cbn [decode_batched_from] in Hrun;
    destruct (i <? _); try discriminate;
    try (injection Hrun as _ <-; exists []; rewrite app_nil_r; split; reflexivity).
  destruct (shift_trace st (g_context_size st -i 4
                            <=? start +i i +i Z.min (int_of_size (length tokens) -i i)
                                                     (g_batch_size st)))
    as [d Hsh].
  destruct (prompt_decode_ok w k).
  - apply IH in Hrun. destruct Hrun as [evs [Htr Hdel]].
    eexists. split.
    + rewrite Htr. cbn [llama_decode trace with_kv log]. rewrite Hsh.
      rewrite <- !app_assoc. reflexivity.
    + rewrite !delivered_app, Hdel. destruct (_ <=? _); reflexivity.
  - injection Hrun as _ <-. eexists. split.
    + cbn [llama_decode trace with_kv log]. rewrite Hsh.
      rewrite <- !app_assoc. reflexivity.
    + rewrite !delivered_app. destruct (_ <=? _); reflexivity.
Qed.

(** Whatever the request, every chunk [nativeGenerateStream] hands to the
    consumer validates. *)
Lemma nativeGenerateStream_chunks (w : World) (prompt : list Z) (maxTokens : Z)
      (st : State) :
  exists evs,
    trace (snd (nativeGenerateStream w prompt maxTokens st)) = trace st ++ evs
    /\ Forall (fun chunk => is_valid_utf8 (Some chunk) = true) (delivered evs).
Proof.
  assert (Hnone : exists evs, trace st = trace st ++ evs
                  /\ Forall (fun chunk => is_valid_utf8 (Some chunk) = true) (delivered evs)).
  { exists []. rewrite app_nil_r. split; [reflexivity | constructor]. }
  unfold nativeGenerateStream.
  destruct (negb (g_model st) || negb (g_context st)); [exact Hnone|].
  destruct (truncate_prompt _ _ _) as [kept | e |]; try exact Hnone.
  destruct (decode_batched w kept 0 true _) as [[rc st2]|] eqn:Hdec; [|exact Hnone].
  apply decode_batched_from_quiet in Hdec. destruct Hdec as [evs1 [Htr1 Hdel1]].
  cbn [trace reset_gen_state reset_chat_state] in Htr1.
  destruct (negb (rc =? 0)).
  { exists evs1. cbn [snd]. rewrite Hdel1. split; [exact Htr1 | constructor]. }
  destruct (negb (has_onToken w)).
  { exists evs1. cbn [snd]. rewrite Hdel1. split; [exact Htr1 | constructor]. }
  destruct (stream_loop_chunks w (Z.to_nat maxTokens) 0
              (with_pos st2 (int_of_size (length kept))) [])
    as [evs2 [m [Htr2 [_ [Hall _]]]]].
  destruct (stream_loop w _ 0 _ []) as [[st4 c] stop].
  cbn [fst snd trace with_pos] in *.
  exists (evs1 ++ evs2). split.
  - rewrite Htr2, Htr1, app_assoc. reflexivity.
  - rewrite delivered_app, Hdel1. exact Hall.
Qed.


(** ** Prompt truncation *)

Lemma wrap_in_range (z : Z) : Int32.in_range (Int32.wrap z).
Proof.
  unfold Int32.in_range, Int32.wrap, Int32.INT_MIN, Int32.INT_MAX.
  pose proof (Z.mod_pos_bound (z + 2 ^ 31) (2 ^ 32)). lia.
Qed.

Lemma max_prompt_small (st : State) (maxTokens : Z) :
  0 <= g_context_size st - maxTokens - 4 ->
  g_context_size st - maxTokens <= Int32.INT_MAX ->
  max_prompt st maxTokens = g_context_size st - maxTokens - 4.
Proof.
  intros H0 H1. unfold max_prompt.
  rewrite (sub_small (g_context_size st) maxTokens) by int_range.
  apply sub_small. int_range.
Qed.

Lemma truncate_prompt_prefix (st : State) (maxTokens : Z) (tokens : list Z) :
  0 <= g_context_size st - maxTokens - 4 ->
  g_context_size st - maxTokens <= Int32.INT_MAX ->
  Z.of_nat (length tokens) <= Int32.INT_MAX ->
  truncate_prompt st maxTokens tokens
  = Returned (if g_context_size st - maxTokens - 4 <? Z.of_nat (length tokens)
              then firstn (Z.to_nat (g_context_size st - maxTokens - 4)) tokens
              else tokens).
Proof.
  intros H0 H1 Hn. unfold truncate_prompt.
  rewrite max_prompt_small, int_of_size_small by assumption.
  destruct (_ <? _) eqn:E; [|reflexivity].
  unfold vector_resize, to_size_t.
  rewrite Z.mod_small by int_range.
  replace (_ <=? _) with true by lia. reflexivity.
Qed.

Lemma truncate_prompt_negative (st : State) (maxTokens : Z) (tokens : list Z) :
  max_prompt st maxTokens < 0 ->
  Z.of_nat (length tokens) <= Int32.INT_MAX ->
  truncate_prompt st maxTokens tokens = Threw length_error.
Proof.
  intros Hneg Hn. unfold truncate_prompt.
  rewrite int_of_size_small by assumption.
  replace (_ <? _) with true by lia.
  assert (Hr : Int32.in_range (max_prompt st maxTokens))
    by (unfold max_prompt, Int32.sub; apply wrap_in_range).
  assert (Hsz : to_size_t (max_prompt st maxTokens) = max_prompt st maxTokens + 2 ^ 64).
  { unfold to_size_t.
    replace (max_prompt st maxTokens)
      with (max_prompt st maxTokens + 2 ^ 64 + (-1) * 2 ^ 64) at 1 by lia.
    rewrite Z.mod_add by lia. apply Z.mod_small. int_range. }
  unfold vector_resize. rewrite Hsz.
  replace (_ <=? _) with false by int_range.
  replace (vector_max_size <? _) with true; [reflexivity|].
  symmetry. apply Z.ltb_lt. unfold vector_max_size.
  assert (Z.min ((2 ^ 64 - 1) / 4) (2 ^ 63 - 1) < 2 ^ 63) by (apply Z.min_lt_iff; right; lia).
  int_range.
Qed.


(** C10.  The truncation is not total: whenever the bound
    [g_context_size - maxTokens - 4] is negative, every tokenized prompt is
    longer than it, [resize] receives the bound converted to [size_t], and
    both entry points end in an uncaught [std::length_error]. *)
Theorem truncation_negative_bound_throws (w : World) (prompt : list Z)
        (maxTokens : Z) (st : State) :
  g_model st = true -> g_context st = true ->
  max_prompt st maxTokens < 0 ->
  Z.of_nat (length (common_tokenize w prompt (chat_template_explicit w)
                                    (chat_template_explicit w))) <= Int32.INT_MAX ->
  fst (nativeGenerate w prompt maxTokens st) = Threw length_error
  /\ fst (nativeGenerateStream w prompt maxTokens st) = Threw length_error.
Proof.
  intros Hm Hc Hneg Hn.
  unfold nativeGenerate, nativeGenerateStream. rewrite Hm, Hc. cbn [negb orb].
  rewrite truncate_prompt_negative by assumption. split; reflexivity.
Qed.

Lemma truncation_negative_bound_throws_witness :
  fst (nativeGenerate quiet_world [104; 105] 5000 default_state) = Threw length_error
  /\ fst (nativeGenerateStream quiet_world [104; 105] 5000 default_state)
     = Threw length_error.
Proof.
  apply (truncation_negative_bound_throws quiet_world [104; 105] 5000 default_state);
    try reflexivity; cbn; unfold Int32.INT_MAX; lia.
Defined.


(** ** Leaving the generation loops *)

Lemma stream_loop_split (w : World) :
  forall (k m i : nat) (st : State) (cached : list Z) (st_k : State) (cached_k : list Z),
    stream_loop w k i st cached = (st_k, cached_k, StopBudget) ->
    stream_loop w (k + m) i st cached = stream_loop w m (i + k) st_k cached_k.
Proof.
  induction k as [|k IH]; intros m i st cached st_k cached_k Hrun.
  { cbn in Hrun. injection Hrun as <- <-. rewrite Nat.add_0_r. reflexivity. }
  cbn [stream_loop Nat.add] in *.
  destruct (llama_vocab_is_eog w (common_sampler_sample w i)); [discriminate|].
  destruct (deliver_if_valid w i (shift_if_full st) _) as [[st2 cached2] brk].
  destruct brk; [discriminate|].
  destruct (gen_decode_ok w i); [|discriminate].
  rewrite (IH m (S i) _ _ _ _ Hrun). f_equal. lia.
Qed.

Lemma generate_loop_split (w : World) :
  forall (k m i : nat) (st : State) (result : list Z) (st_k : State) (result_k : list Z),
    generate_loop w k i st result = (st_k, result_k, StopBudget) ->
    generate_loop w (k + m) i st result = generate_loop w m (i + k) st_k result_k
    /\ result_k = result ++ fragments w i k.
Proof.
  induction k as [|k IH]; intros m i st result st_k result_k Hrun.
  { cbn in Hrun. injection Hrun as <- <-. rewrite Nat.add_0_r.
    unfold fragments. cbn. rewrite app_nil_r. split; reflexivity. }
  cbn [generate_loop Nat.add] in *.
  destruct (llama_vocab_is_eog w (common_sampler_sample w i)); [discriminate|].
  destruct (gen_decode_ok w i); [|discriminate].
  destruct (IH m (S i) _ _ _ _ Hrun) as [Hsplit Hres].
  rewrite Hsplit. split; [f_equal; lia|].
  rewrite Hres. unfold fragments. cbn [seq map concat].
  rewrite <- app_assoc. reflexivity.
Qed.

Lemma stream_loop_cancel (w : World) (k m i : nat) (st : State) (cached : list Z)
      (st_k : State) (cached_k : list Z) :
  stream_loop w k i st cached = (st_k, cached_k, StopBudget) ->
  llama_vocab_is_eog w (common_sampler_sample w (i + k)) = false ->
  is_valid_utf8
    (Some (cached_k ++ common_token_to_piece w (common_sampler_sample w (i + k)))) = true ->
  on_token_throws w (i + k) = true ->
  stream_loop w (k + S m) i st cached
  = (with_pending
       (call_on_token
          (c_str (cached_k ++ common_token_to_piece w (common_sampler_sample w (i + k))))
          true (shift_if_full st_k))
       false,
     [], StopCancelled).
Proof.
  intros Hrun Heog Hvalid Hthrow.
  rewrite (stream_loop_split w k (S m) i st cached st_k cached_k Hrun).
  cbn [stream_loop]. rewrite Heog.
  unfold deliver_if_valid. rewrite Hvalid, Hthrow.
  cbn [call_on_token jni_pending with_pending log].
  rewrite orb_true_r. reflexivity.
Qed.

(** C7.  In [nativeGenerateStream], when the prompt is processed, the first
    [k] steps of the loop run through and the consumer throws on the chunk
    delivered at step [k], the loop ends there whatever budget is left: the
    delivery is the last event of the trace (no [llama_decode] follows it),
    cursor and context memory are those at the delivery, the pending
    exception is cleared, the loop reports [StopCancelled] and the call
    returns normally. *)
Theorem consumer_cancellation (w : World) (prompt : list Z) (maxTokens : Z)
        (st : State) (tokens' : list Z) (st2 : State)
        (k m : nat) (st_k : State) (cached_k : list Z) :
  g_model st = true -> g_context st = true ->
  truncate_prompt (reset_gen_state (reset_chat_state true st)) maxTokens
                  (common_tokenize w prompt (chat_template_explicit w)
                                   (chat_template_explicit w))
  = Returned tokens' ->
  decode_batched w tokens' 0 true (reset_gen_state (reset_chat_state true st))
  = Some (0, st2) ->
  has_onToken w = true ->
  Z.to_nat maxTokens = (k + S m)%nat ->
  stream_loop w k 0 (with_pos st2 (int_of_size (length tokens'))) []
  = (st_k, cached_k, StopBudget) ->
  llama_vocab_is_eog w (common_sampler_sample w k) = false ->
  is_valid_utf8
    (Some (cached_k ++ common_token_to_piece w (common_sampler_sample w k))) = true ->
  on_token_throws w k = true ->
  exists st_c,
    nativeGenerateStream w prompt maxTokens st = (Returned tt, st_c)
    /\ stream_loop w (k + S m) 0 (with_pos st2 (int_of_size (length tokens'))) []
       = (st_c, [], StopCancelled)
    /\ trace st_c
       = trace (shift_if_full st_k)
           ++ [EvOnToken (c_str (cached_k
                                   ++ common_token_to_piece w (common_sampler_sample w k)))
                         true]
    /\ decoded_batches (trace st_c) = decoded_batches (trace st_k)
    /\ g_current_pos st_c = g_current_pos (shift_if_full st_k)
    /\ kv st_c = kv (shift_if_full st_k)
    /\ jni_pending st_c = false.
Proof.
  intros Hm Hc Htrunc Hdec Hcb Hbudget Hrun Heog Hvalid Hthrow.
  pose proof (stream_loop_cancel w k m 0 _ _ _ _ Hrun Heog Hvalid Hthrow) as Hloop.
  eexists. split.
  { unfold nativeGenerateStream. rewrite Hm, Hc. cbn [negb orb].
    rewrite Htrunc, Hdec, Hcb. cbn [Z.eqb negb].
    rewrite Hbudget, Hloop. reflexivity. }
  split; [exact Hloop|].
  unfold call_on_token. cbn [trace g_current_pos kv jni_pending with_pending log].
  split; [reflexivity|].
  split.
  { destruct (shift_if_full_trace st_k) as [sh [Htr [_ [Hsh _]]]].
    rewrite Htr, !decoded_batches_app, Hsh. cbn. rewrite !app_nil_r. reflexivity. }
  repeat split.
Qed.

Lemma consumer_cancellation_witness :
  let w := byte_world [0x61; 0x62; 0x63; 0x64] (fun i => Nat.eqb i 1) always in
  let st2 := after_prompt w [1; 2; 3] scenario_A_state in
  let st_k := fst (fst (stream_loop w 1 0 (with_pos st2 3) [])) in
  exists st_c,
    nativeGenerateStream w [1; 2; 3] 4 scenario_A_state = (Returned tt, st_c)
    /\ stream_loop w (1 + S 2) 0 (with_pos st2 (int_of_size (length [1; 2; 3]))) []
       = (st_c, [], StopCancelled)
    /\ trace st_c = trace (shift_if_full st_k) ++ [EvOnToken (c_str ([] ++ [0x62])) true]
    /\ decoded_batches (trace st_c) = decoded_batches (trace st_k)
    /\ g_current_pos st_c = g_current_pos (shift_if_full st_k)
    /\ kv st_c = kv (shift_if_full st_k)
    /\ jni_pending st_c = false.
Proof.
  apply (consumer_cancellation
           (byte_world [0x61; 0x62; 0x63; 0x64] (fun i => Nat.eqb i 1) always)
           [1; 2; 3] 4 scenario_A_state [1; 2; 3]
           (after_prompt (byte_world [0x61; 0x62; 0x63; 0x64] (fun i => Nat.eqb i 1) always)
                         [1; 2; 3] scenario_A_state)
           1 2
           (fst (fst (stream_loop
                        (byte_world [0x61; 0x62; 0x63; 0x64] (fun i => Nat.eqb i 1) always)
                        1 0
                        (with_pos (after_prompt
                                     (byte_world [0x61; 0x62; 0x63; 0x64]
                                                 (fun i => Nat.eqb i 1) always)
                                     [1; 2; 3] scenario_A_state) 3)
                        [])))
           []); reflexivity.
Defined.

(** Scenario D: the consumer throws on the second chunk of four; two chunks
    were delivered and one single-token batch was decoded after the prompt. *)
Example scenario_D_cancel :
  let w := byte_world [0x61; 0x62; 0x63; 0x64] (fun i => Nat.eqb i 1) always in
  let r := nativeGenerateStream w [1; 2; 3] 4 scenario_A_state in
  fst r = Returned tt
  /\ delivered (trace (snd r)) = [[0x61]; [0x62]]
  /\ map (map be_token) (decoded_batches (trace (snd r))) = [[1; 2; 3]; [0x61]]
  /\ g_current_pos (snd r) = 4
  /\ jni_pending (snd r) = false.
Proof. vm_compute. repeat split; reflexivity. Qed.





(** The two failures, evaluated: the letters produced up to the failed
    decode come back as text; a failed prompt comes back as the error text. *)
Example decode_failure_runs :
  fst (nativeGenerate failing_step_world [1; 2; 3] 4 scenario_A_state)
  = Returned [0x61; 0x62]
  /\ fst (nativeGenerate failing_prompt_world [1; 2; 3] 4 scenario_A_state)
     = Returned error_prompt_failed.
Proof. vm_compute. split; reflexivity. Qed.

(** ** Requests without a model *)

(** C9, as amended.  Without a model or a context, [nativeGenerate] returns
    the text "[Error: Model not loaded]", [nativeGenerateStream] returns
    without calling the consumer and without an error value, and without a
    context [nativeTokenize] returns an empty array; none of them changes the
    state.  [nativeTokenize] never changes the state, loaded or not. *)
Theorem model_unavailable (w : World) (prompt text : list Z) (maxTokens : Z)
        (st : State) :
  g_model st = false \/ g_context st = false ->
  nativeGenerate w prompt maxTokens st = (Returned error_not_loaded, st)
  /\ nativeGenerateStream w prompt maxTokens st = (Returned tt, st)
  /\ (g_context st = false ->
      nativeTokenize w text st = ((if new_int_array_ok w then Some [] else None), st))
  /\ (forall w' text' st', snd (nativeTokenize w' text' st') = st').
Proof.
  intros Hno.
  assert (Hguard : negb (g_model st) || negb (g_context st) = true).
  { destruct Hno as [-> | ->]; [reflexivity | apply orb_true_r]. }
  unfold nativeGenerate, nativeGenerateStream. rewrite Hguard.
  split; [reflexivity|]. split; [reflexivity|]. split.
  - intros Hc. unfold nativeTokenize. rewrite Hc. reflexivity.
  - intros w' text' st'. unfold nativeTokenize.
    destruct (negb (g_context st')); reflexivity.
Qed.

Lemma model_unavailable_witness :
  nativeGenerate quiet_world [104; 105] 8 unloaded_state
  = (Returned error_not_loaded, unloaded_state)
  /\ nativeGenerateStream quiet_world [104; 105] 8 unloaded_state
     = (Returned tt, unloaded_state)
  /\ (g_context unloaded_state = false ->
      nativeTokenize quiet_world [104; 105] unloaded_state
      = ((if new_int_array_ok quiet_world then Some [] else None), unloaded_state))
  /\ (forall w' text' st', snd (nativeTokenize w' text' st') = st').
Proof.
  apply (model_unavailable quiet_world [104; 105] [104; 105] 8 unloaded_state).
  left; reflexivity.
Defined.

(** C9 as stated fails for tokenization and for streaming.  Without a model,
    tokenizing a text returns the empty array that a loaded session returns
    for the empty text, and the streaming request returns as a loaded session
    with no budget does: neither result carries an error. *)
Lemma model_unavailable_counterexample :
  fst (nativeTokenize quiet_world [104; 105] unloaded_state) = Some []
  /\ fst (nativeTokenize quiet_world [] default_state) = Some []
  /\ fst (nativeGenerateStream quiet_world [104; 105] 8 unloaded_state) = Returned tt
  /\ trace (snd (nativeGenerateStream quiet_world [104; 105] 8 unloaded_state)) = []
  /\ fst (nativeGenerateStream quiet_world [] 0 default_state) = Returned tt
  /\ trace (snd (nativeGenerateStream quiet_world [] 0 default_state)) = [].
Proof. vm_compute. repeat split; reflexivity. Qed.

(** ** Scenario C of the specification *)

(** A budget of 5 tokens and the stop token drawn at the third step: the
    result is the first two fragments. *)
Example scenario_C_stop_token :
  let w := byte_world [0x61; 0x62] never always in
  fst (nativeGenerate w [1; 2; 3] 5 scenario_A_state) = Returned [0x61; 0x62]
  /\ snd (generate_loop w 5 0 (with_pos (after_prompt w [1; 2; 3] scenario_A_state) 3) [])
     = StopEog.
Proof. vm_compute. split; reflexivity. Qed.

(* ========================================================================= *)
(** * Further properties of the code *)
(* ========================================================================= *)

(** ** What [is_valid_utf8] accepts *)

Lemma continuation_not_nul (c : Z) : is_continuation c = true -> c <> 0.
Proof. intros H ->. discriminate. Qed.

Lemma expect_conts_exact (cs t : list Z) :
  Forall (fun c => is_continuation c = true) cs ->
  expect_conts (length cs) (cs ++ t) = utf8_scan t.
Proof.
  induction 1 as [|c cs Hc _ IH]; [reflexivity|].
  cbn [length app expect_conts]. rewrite Hc. exact IH.
Qed.

Lemma complete_unit_nul_free (u : list Z) : complete_unit u -> nul_free u.
Proof.
  intros [lead [cs [n [-> [Hlead [_ [_ Hcs]]]]]]].
  constructor; [exact Hlead|].
  eapply Forall_impl; [|exact Hcs]. intros c. apply continuation_not_nul.
Qed.

Lemma complete_unit_scan (u t : list Z) :
  complete_unit u -> utf8_scan (u ++ t) = utf8_scan t.
Proof.
  intros [lead [cs [n [-> [Hlead [Hn [Hlen Hcs]]]]]]].
  cbn [app]. rewrite utf8_scan_cons, Hn.
  replace (lead =? 0) with false by lia.
  rewrite <- Hlen. apply expect_conts_exact. exact Hcs.
Qed.

Lemma units_scan (units : list (list Z)) :
  Forall complete_unit units -> utf8_scan (concat units) = true.
Proof.
  induction 1 as [|u units Hu _ IH]; [reflexivity|].
  cbn [concat]. rewrite complete_unit_scan by exact Hu. exact IH.
Qed.

Lemma scan_units (s : list Z) :
  forall k, expect_conts k s = true ->
  exists cs units,
    c_str s = cs ++ concat units
    /\ length cs = k
    /\ Forall (fun c => is_continuation c = true) cs
    /\ Forall complete_unit units.
Proof.
  induction s as [|b rest IH]; intros k Hk.
  - destruct k; [|discriminate]. exists [], []. repeat split; constructor.
  - destruct k as [|k].
    + cbn [expect_conts] in Hk. rewrite utf8_scan_cons in Hk. cbn [c_str].
      destruct (b =? 0) eqn:Eb.
      { exists [], []. repeat split; constructor. }
      destruct (unit_length b) as [n|] eqn:En; [|discriminate].
      destruct (IH _ Hk) as [cs [units [Hstr [Hlen [Hcs Hunits]]]]].
      exists [], ((b :: cs) :: units). cbn [app concat].
      rewrite Hstr. repeat split; try constructor; try assumption.
      exists b, cs, n. repeat split; try assumption. lia.
    + cbn [expect_conts] in Hk.
      destruct (is_continuation b) eqn:Hb; [|discriminate].
      destruct (IH _ Hk) as [cs [units [Hstr [Hlen [Hcs Hunits]]]]].
      exists (b :: cs), units. cbn [c_str].
      replace (b =? 0) with false
        by (symmetry; apply Z.eqb_neq; apply continuation_not_nul; exact Hb).
      rewrite Hstr. cbn [app length]. repeat split; try constructor; try assumption.
      congruence.
Qed.

(** X1.  [is_valid_utf8] accepts the null pointer, and accepts a string
    exactly when its bytes before the first NUL split into units of a lead
    byte followed by the number of continuation bytes the lead byte
    announces; nothing else about the bytes is looked at. *)
Theorem is_valid_utf8_units :
  is_valid_utf8 None = true
  /\ forall s,
      is_valid_utf8 (Some s) = true
      <-> exists units, c_str s = concat units /\ Forall complete_unit units.
Proof.
  split; [reflexivity|]. intros s. cbn [is_valid_utf8]. split.
  - intros H. destruct (scan_units s 0%nat H) as [cs [units [Hstr [Hlen [_ Hunits]]]]].
    destruct cs; [|discriminate]. exists units. split; assumption.
  - intros [units [Hstr Hunits]].
    rewrite <- utf8_scan_c_str, Hstr. apply units_scan. exact Hunits.
Qed.

(** X2.  Valid NUL-free text in front of a string does not change whether
    the string validates; so chunks that validate one by one validate when
    they are put together. *)
Theorem valid_chunks_concatenate (v t : list Z) (chunks : list (list Z)) :
  nul_free v -> is_valid_utf8 (Some v) = true ->
  Forall (fun c => nul_free c /\ is_valid_utf8 (Some c) = true) chunks ->
  is_valid_utf8 (Some (v ++ t)) = is_valid_utf8 (Some t)
  /\ is_valid_utf8 (Some (concat chunks)) = true.
Proof.
  intros Hnf Hv Hchunks. cbn [is_valid_utf8] in *. split.
  - apply (expect_conts_app v t Hnf 0%nat Hv).
  - induction Hchunks as [|c chunks [Hc1 Hc2] _ IH]; [reflexivity|].
    cbn [concat]. rewrite <- IH. apply (expect_conts_app c _ Hc1 0%nat Hc2).
Qed.

Lemma valid_chunks_concatenate_witness :
  is_valid_utf8 (Some ([0xC3; 0xA9] ++ [0xE4; 0xBD])) = is_valid_utf8 (Some [0xE4; 0xBD])
  /\ is_valid_utf8 (Some (concat [[0xC3; 0xA9]; [0x61]; [0xE4; 0xBD; 0xA0]])) = true.
Proof.
  apply (valid_chunks_concatenate [0xC3; 0xA9] [0xE4; 0xBD]
           [[0xC3; 0xA9]; [0x61]; [0xE4; 0xBD; 0xA0]]).
  - repeat constructor; lia.
  - reflexivity.
  - repeat constructor; lia.
Defined.

(** ** What the trimming removes *)

Lemma continuation_high_bit (c : Z) : is_continuation c = true -> high_bit c.
Proof.
  unfold is_continuation, high_bit. intros H. apply Z.eqb_eq in H.
  rewrite (land_submask c 0xC0 0x80 0x80 H eq_refl). discriminate.
Qed.

Lemma pop_continuations_split (r : list Z) :
  exists p, r = p ++ pop_continuations r /\ Forall high_bit p.
Proof.
  induction r as [|b r [p [Hr Hp]]]; [exists []; split; [reflexivity | constructor]|].
  cbn [pop_continuations]. destruct (is_continuation b) eqn:Hb.
  - exists (b :: p). cbn [app]. split; [congruence|].
    constructor; [apply continuation_high_bit; exact Hb | exact Hp].
  - exists []. split; [reflexivity | constructor].
Qed.

Lemma pop_lead_split (r : list Z) :
  exists p, r = p ++ pop_lead r /\ Forall high_bit p.
Proof.
  destruct r as [|b r]; [exists []; split; [reflexivity | constructor]|].
  cbn [pop_lead]. destruct (Z.land b 0x80 =? 0) eqn:Hb; cbn [negb].
  - exists []. split; [reflexivity | constructor].
  - exists [b]. split; [reflexivity|].
    constructor; [apply Z.eqb_neq; exact Hb | constructor].
Qed.

(** X3.  [validate_output] only ever cuts bytes off the end of the output:
    the result is a prefix of the output, and every byte cut off has the high
    bit set, so no ASCII byte is lost and no byte is altered. *)
Theorem validate_output_prefix (output : list Z) :
  exists removed,
    output = validate_output output ++ removed /\ Forall high_bit removed.
Proof.
  unfold validate_output. destruct (is_valid_utf8 (Some output)); cbn [negb].
  { exists []. rewrite app_nil_r. split; [reflexivity | constructor]. }
  destruct (pop_continuations_split (rev output)) as [p1 [H1 Hp1]].
  destruct (pop_lead_split (pop_continuations (rev output))) as [p2 [H2 Hp2]].
  exists (rev p2 ++ rev p1). split.
  - rewrite <- (rev_involutive output) at 1. rewrite H1 at 1. rewrite H2 at 1.
    rewrite !rev_app_distr, app_assoc. reflexivity.
  - apply Forall_app. split; apply Forall_rev; assumption.
Qed.

(** ** A malformed byte in the stream buffer *)

Lemma stream_loop_poisoned (w : World) :
  forall (n i : nat) (st : State) (cached : list Z),
    (forall t, is_valid_utf8 (Some (cached ++ t)) = false) ->
    exists evs m,
      trace (fst (fst (stream_loop w n i st cached))) = trace st ++ evs
      /\ delivered evs = []
      /\ (m <= n)%nat
      /\ snd (fst (stream_loop w n i st cached)) = cached ++ fragments w i m.
Proof.
  induction n as [|n IH]; intros i st cached Hbad.
  { exists [], 0%nat. unfold fragments. cbn. rewrite !app_nil_r.
    split; [reflexivity|]. split; [reflexivity|]. split; [lia | reflexivity]. }
  cbn [stream_loop].
  destruct (shift_if_full_trace st) as [sh [Htr [Hsh _]]].
  set (st1 := shift_if_full st) in *.
  set (id := common_sampler_sample w i).
  destruct (llama_vocab_is_eog w id).
  { exists sh, 0%nat. cbn [fst snd]. unfold fragments. cbn. rewrite app_nil_r.
    split; [exact Htr|]. split; [exact Hsh|]. split; [lia | reflexivity]. }
  unfold deliver_if_valid. rewrite (Hbad (common_token_to_piece w id)).
  destruct (gen_decode_ok w i).
  - set (st3 := with_pos _ _).
    destruct (IH (S i) st3 (cached ++ common_token_to_piece w id))
      as [evs [m [Htr' [Hdel [Hm Hres]]]]].
    { intros t. rewrite <- app_assoc. apply Hbad. }
    exists (sh ++ [EvDecode [mkEntry id (g_current_pos st1) [0] true] true] ++ evs), (S m).
    split.
    { rewrite Htr'. unfold st3. cbn. fold st1. rewrite Htr.
      rewrite <- !app_assoc. reflexivity. }
    rewrite !delivered_app, Hsh, Hdel. split; [reflexivity|]. split; [lia|].
    rewrite Hres. unfold fragments. cbn [seq map concat]. fold id.
    rewrite <- app_assoc. reflexivity.
  - exists (sh ++ [EvDecode [mkEntry id (g_current_pos st1) [0] true] false]), 1%nat.
    cbn [fst snd]. split.
    { cbn. fold st1. rewrite Htr. rewrite <- !app_assoc. reflexivity. }
    rewrite !delivered_app, Hsh. split; [reflexivity|]. split; [lia|].
    unfold fragments. cbn. rewrite app_nil_r. reflexivity.
Qed.

(** X4.  Once the stream buffer holds, after valid NUL-free text, a byte
    that cannot start a unit, no later fragment makes it validate: for the
    rest of the request the consumer receives nothing and the buffer keeps
    every fragment. *)
Theorem stream_silenced_by_malformed_byte (w : World) (n i : nat) (st : State)
        (v r : list Z) (b : Z) :
  nul_free v -> is_valid_utf8 (Some v) = true -> unit_length b = None ->
  exists evs m,
    trace (fst (fst (stream_loop w n i st (v ++ b :: r)))) = trace st ++ evs
    /\ delivered evs = []
    /\ (m <= n)%nat
    /\ snd (fst (stream_loop w n i st (v ++ b :: r))) = (v ++ b :: r) ++ fragments w i m.
Proof.
  intros Hnf Hv Hb. apply stream_loop_poisoned. intros t.
  rewrite <- app_assoc. cbn [is_valid_utf8 app] in *.
  change (utf8_scan (v ++ b :: r ++ t)) with (expect_conts 0 (v ++ b :: r ++ t)).
  rewrite (expect_conts_app v _ Hnf 0%nat Hv).
  rewrite utf8_scan_cons, Hb.
  destruct (b =? 0) eqn:Eb; [|reflexivity].
  apply Z.eqb_eq in Eb. subst b. discriminate.
Qed.

Lemma stream_silenced_by_malformed_byte_witness :
  exists evs m,
    trace (fst (fst (stream_loop malformed_world 3 1 scenario_A_state ([0x68] ++ 0xFF :: []))))
    = trace scenario_A_state ++ evs
    /\ delivered evs = []
    /\ (m <= 3)%nat
    /\ snd (fst (stream_loop malformed_world 3 1 scenario_A_state ([0x68] ++ 0xFF :: [])))
       = ([0x68] ++ 0xFF :: []) ++ fragments malformed_world 1 m.
Proof.
  apply (stream_silenced_by_malformed_byte malformed_world 3 1 scenario_A_state
           [0x68] [] 0xFF).
  - repeat constructor; lia.
  - reflexivity.
  - reflexivity.
Defined.

(** The same at the entry point: after the byte 0xFF nothing reaches the
    consumer, although three letters follow. *)
Example malformed_stream_delivers_nothing :
  delivered (trace (snd (nativeGenerateStream malformed_world [1; 2; 3] 4 scenario_A_state)))
  = [].
Proof. vm_compute. reflexivity. Qed.

(** ** When the truncation throws *)

Lemma wrap_le_nonneg (z : Z) : 0 <= z -> Int32.wrap z <= z.
Proof.
  intros Hz. unfold Int32.wrap.
  pose proof (Z.mod_le (z + 2 ^ 31) (2 ^ 32)). lia.
Qed.

Lemma truncate_prompt_throws_only_negative (st : State) (maxTokens : Z) (tokens : list Z)
      (e : CppException) :
  truncate_prompt st maxTokens tokens = Threw e -> max_prompt st maxTokens < 0.
Proof.
  unfold truncate_prompt, vector_resize, to_size_t.
  destruct (_ <? int_of_size _) eqn:Elt; [|discriminate].
  destruct (Z_lt_ge_dec (max_prompt st maxTokens) 0) as [Hneg | Hpos]; [trivial|].
  assert (Hr : Int32.in_range (max_prompt st maxTokens))
    by (unfold max_prompt, Int32.sub; apply wrap_in_range).
  rewrite Z.mod_small by int_range.
  pose proof (wrap_le_nonneg (Z.of_nat (length tokens)) (Nat2Z.is_nonneg _)).
  unfold int_of_size in Elt.
  replace (_ <=? _) with true by lia. discriminate.
Qed.

Lemma truncate_prompt_never_diverges (st : State) (maxTokens : Z) (tokens : list Z) :
  truncate_prompt st maxTokens tokens <> Diverged.
Proof.
  unfold truncate_prompt, vector_resize.
  destruct (_ <? _); [|discriminate].
  destruct (_ <=? _); [discriminate|]. destruct (_ <? _); discriminate.
Qed.


(** ** A stop token *)

(** X6.  In [nativeGenerate], when the first [k] generation steps run
    through and the token drawn at step [k] is an end-of-generation token,
    the call returns the fragments of steps 0 to [k - 1]: the piece of the
    stop token is not part of the text, the token is not decoded and the
    cursor does not advance.  The test for a full window comes before the
    draw, so it still runs in that last step. *)
Theorem stop_token_ends_generation (w : World) (prompt : list Z) (maxTokens : Z)
        (st : State) (tokens' : list Z) (st2 : State)
        (k m : nat) (st_k : State) (result_k : list Z) :
  g_model st = true -> g_context st = true ->
  truncate_prompt (reset_gen_state (reset_chat_state true st)) maxTokens
                  (common_tokenize w prompt (chat_template_explicit w)
                                   (chat_template_explicit w))
  = Returned tokens' ->
  decode_batched w tokens' 0 true (reset_gen_state (reset_chat_state true st))
  = Some (0, st2) ->
  Z.to_nat maxTokens = (k + S m)%nat ->
  generate_loop w k 0 (with_pos st2 (int_of_size (length tokens'))) []
  = (st_k, result_k, StopBudget) ->
  llama_vocab_is_eog w (common_sampler_sample w k) = true ->
  nativeGenerate w prompt maxTokens st
  = (Returned (c_str (validate_output (fragments w 0 k))), shift_if_full st_k)
  /\ generate_loop w (k + S m) 0 (with_pos st2 (int_of_size (length tokens'))) []
     = (shift_if_full st_k, fragments w 0 k, StopEog)
  /\ decoded_batches (trace (shift_if_full st_k)) = decoded_batches (trace st_k).
Proof.
  intros Hm Hc Htrunc Hdec Hbudget Hrun Heog.
  destruct (generate_loop_split w k (S m) 0 _ _ _ _ Hrun) as [Hsplit Hres].
  cbn [app] in Hres.
  assert (Hloop : generate_loop w (k + S m) 0
                    (with_pos st2 (int_of_size (length tokens'))) []
                  = (shift_if_full st_k, fragments w 0 k, StopEog)).
  { rewrite Hsplit. cbn [generate_loop Nat.add]. rewrite Heog, Hres. reflexivity. }
  split.
  { unfold nativeGenerate. rewrite Hm, Hc. cbn [negb orb].
    rewrite Htrunc, Hdec. cbn [Z.eqb negb]. rewrite Hbudget, Hloop. reflexivity. }
  split; [exact Hloop|].
  destruct (shift_if_full_trace st_k) as [sh [Htr [_ [Hsh _]]]].
  rewrite Htr, decoded_batches_app, Hsh. apply app_nil_r.
Qed.

Lemma stop_token_ends_generation_witness :
  let w := byte_world [0x61; 0x62] never always in
  let st2 := after_prompt w [1; 2; 3] scenario_A_state in
  let st_k := fst (fst (generate_loop w 2 0 (with_pos st2 3) [])) in
  nativeGenerate w [1; 2; 3] 5 scenario_A_state
  = (Returned (c_str (validate_output (fragments w 0 2))), shift_if_full st_k)
  /\ generate_loop w (2 + S 2) 0 (with_pos st2 (int_of_size (length [1; 2; 3]))) []
     = (shift_if_full st_k, fragments w 0 2, StopEog)
  /\ decoded_batches (trace (shift_if_full st_k)) = decoded_batches (trace st_k).
Proof.
  apply (stop_token_ends_generation (byte_world [0x61; 0x62] never always)
           [1; 2; 3] 5 scenario_A_state [1; 2; 3]
           (after_prompt (byte_world [0x61; 0x62] never always) [1; 2; 3] scenario_A_state)
           2 2
           (fst (fst (generate_loop (byte_world [0x61; 0x62] never always) 2 0
                        (with_pos (after_prompt (byte_world [0x61; 0x62] never always)
                                                [1; 2; 3] scenario_A_state) 3) [])))
           [0x61; 0x62]); reflexivity.
Defined.

(** ** Sessions up to their log *)

Lemma forget_trace_shift_if_full (a b : State) :
  forget_trace a = forget_trace b ->
  forget_trace (shift_if_full a) = forget_trace (shift_if_full b).
Proof.
  destruct a, b. unfold forget_trace. cbn. intros H. injection H as -> -> -> -> -> -> -> -> -> -> -> ->.
  unfold shift_if_full. cbn. destruct (_ <=? _); reflexivity.
Qed.

Lemma forget_trace_step (a b : State) (ok : bool) (id : Z) :
  forget_trace a = forget_trace b ->
  forget_trace (with_pos (decode_one ok id a) (g_current_pos (decode_one ok id a) +i 1))
  = forget_trace (with_pos (decode_one ok id b) (g_current_pos (decode_one ok id b) +i 1))
  /\ forget_trace (decode_one ok id a) = forget_trace (decode_one ok id b).
Proof.
  destruct a, b. unfold forget_trace. cbn. intros H. injection H as -> -> -> -> -> -> -> -> -> -> -> ->.
  split; reflexivity.
Qed.

Lemma forget_trace_decoded (st : State) (ok : bool) (id : Z) :
  decoded_batches (trace (decode_one ok id st))
  = decoded_batches (trace st) ++ [[mkEntry id (g_current_pos st) [0] true]].
Proof. cbn. rewrite decoded_batches_app. reflexivity. Qed.


(** ** Eviction during the prompt *)

Lemma filter_all {A : Type} (f : A -> bool) (l : list A) :
  (forall x, f x = true) -> filter f l = l.
Proof.
  intros H. induction l as [|x l IH]; [reflexivity|]. cbn. rewrite H, IH. reflexivity.
Qed.

Lemma empty_range (pos : Z) : in_pos_range 0 0 pos = false.
Proof. unfold in_pos_range. cbn. destruct (0 <=? pos) eqn:E; [|reflexivity]. cbn. lia. Qed.

Lemma shift_context_fresh (st : State) :
  g_system_pos st = 0 -> g_current_pos st = 0 ->
  shift_context st = log st (EvShift 0).
Proof.
  intros HS HC. unfold shift_context. rewrite HS, HC.
  change ((0 -i 0) /i 2) with 0. change (0 +i 0) with 0.
  change (Int32.neg 0) with 0. change (0 -i 0) with 0.
  assert (Hmem : llama_memory_seq_add (llama_memory_seq_rm (kv st) 0 0 0) 0 0 0 0 = kv st).
  { unfold llama_memory_seq_add, llama_memory_seq_rm.
    rewrite filter_all by (intros c; rewrite empty_range, andb_false_r; reflexivity).
    rewrite <- (map_id (kv st)) at 2. apply map_ext. intros c.
    rewrite empty_range, andb_false_r. reflexivity. }
  rewrite Hmem. destruct st. cbn in *. subst. reflexivity.
Qed.

Lemma discards_app (a b : list Event) : discards (a ++ b) = discards a ++ discards b.
Proof. unfold discards. apply flat_map_app. Qed.

Lemma stored_cells_app (a b : list Event) :
  stored_cells (a ++ b) = stored_cells a ++ stored_cells b.
Proof. unfold stored_cells. apply flat_map_app. Qed.

Lemma submitted_positions_app (a b : list Event) :
  submitted_positions (a ++ b) = submitted_positions a ++ submitted_positions b.
Proof.
  unfold submitted_positions. rewrite decoded_batches_app, concat_app, map_app. reflexivity.
Qed.

Lemma decode_batched_from_fresh (w : World) (tokens : list Z) (start : Z) (ll : bool) :
  forall (fuel k : nat) (i : Z) (st : State) (rc : Z) (st' : State),
    g_system_pos st = 0 -> g_current_pos st = 0 ->
    decode_batched_from fuel w tokens start ll k i st = Some (rc, st') ->
    exists evs,
      trace st' = trace st ++ evs
      /\ Forall (fun d => d = 0) (discards evs)
      /\ g_current_pos st' = 0 /\ g_system_pos st' = 0
      /\ kv st' = kv st ++ stored_cells evs.
Proof.
  induction fuel as [|fuel IH]; intros k i st rc st' HS HC Hrun;
    cbn [decode_batched_from] in Hrun; destruct (i <? _); try discriminate;
    try (injection Hrun as _ <-; exists []; cbn; rewrite !app_nil_r;
         repeat split; try assumption; constructor).
  set (c := g_context_size st -i 4 <=? _) in Hrun.
  set (st1 := if c then shift_context st else st) in *.
  assert (H1 : exists sh, trace st1 = trace st ++ sh
                          /\ Forall (fun d => d = 0) (discards sh)
                          /\ stored_cells sh = []
                          /\ g_system_pos st1 = 0 /\ g_current_pos st1 = 0
                          /\ kv st1 = kv st).
  { unfold st1. destruct c.
    - rewrite shift_context_fresh by assumption. exists [EvShift 0].
      cbn. repeat split; try assumption. repeat constructor.
    - exists []. rewrite app_nil_r. repeat split; try assumption. constructor. }
  destruct H1 as [sh [Htr [Hd [Hsc [HS1 [HC1 Hkv1]]]]]].
  set (batch := fill_batch _ _ _ _ _ _ _) in Hrun.
  destruct (prompt_decode_ok w k).
  - apply IH in Hrun; [|exact HS1 | exact HC1].
    destruct Hrun as [evs [Htr' [Hd' [HC' [HS' Hkv']]]]].
    exists (sh ++ [EvDecode batch true] ++ evs).
    split. { rewrite Htr'. cbn. rewrite Htr, <- !app_assoc. reflexivity. }
    split. { rewrite !discards_app. cbn. apply Forall_app. split; assumption. }
    split; [exact HC'|]. split; [exact HS'|].
    rewrite Hkv'. cbn [llama_decode kv with_kv log]. rewrite Hkv1.
    rewrite !stored_cells_app, Hsc. cbn. rewrite app_nil_r, <- !app_assoc. reflexivity.
  - injection Hrun as _ <-.
    exists (sh ++ [EvDecode batch false]).
    split. { cbn. rewrite Htr, <- !app_assoc. reflexivity. }
    split. { rewrite !discards_app. cbn. rewrite app_nil_r. exact Hd. }
    split; [exact HC1|]. split; [exact HS1|].
    cbn [llama_decode kv with_kv log]. rewrite Hkv1, stored_cells_app, Hsc. cbn.
    rewrite app_nil_r. reflexivity.
Qed.

(** X8.  While a prompt is submitted the stored cursor is still 0, so every
    eviction that [decode_batched] triggers discards 0 positions: the context
    memory is exactly what the successful decodes stored, however long the
    prompt is against the capacity. *)
Theorem prompt_eviction_discards_nothing (w : World) (tokens : list Z)
        (logit_last : bool) (st0 : State) :
  g_context st0 = true ->
  0 < g_batch_size st0 ->
  Z.of_nat (length tokens) + g_batch_size st0 <= Int32.INT_MAX ->
  Int32.INT_MIN + 4 <= g_context_size st0 <= Int32.INT_MAX ->
  exists rc st' evs,
    decode_batched w tokens 0 logit_last (reset_gen_state (reset_chat_state true st0))
    = Some (rc, st')
    /\ trace st' = trace st0 ++ evs
    /\ Forall (fun d => d = 0) (discards evs)
    /\ g_current_pos st' = 0
    /\ kv st' = stored_cells evs.
Proof.
  intros Hc HB HnB Hcap.
  assert (Htotal : exists rc st', decode_batched w tokens 0 logit_last
                     (reset_gen_state (reset_chat_state true st0)) = Some (rc, st')).
  { apply decode_batched_total; cbn; try assumption; int_range. }
  destruct Htotal as [rc [st' Hrun]].
  exists rc, st'.
  destruct (decode_batched_from_fresh w tokens 0 logit_last (length tokens) 0%nat 0
              (reset_gen_state (reset_chat_state true st0)) rc st'
              eq_refl eq_refl Hrun) as [evs [Htr [Hd [HC [_ Hkv]]]]].
  exists evs. cbn in Htr, Hkv. rewrite Hc in Hkv. cbn in Hkv.
  repeat split; assumption.
Qed.

Lemma prompt_eviction_discards_nothing_witness :
  exists rc st' evs,
    decode_batched quiet_world prompt_of_20 0 true
                   (reset_gen_state (reset_chat_state true scenario_A_state))
    = Some (rc, st')
    /\ trace st' = trace scenario_A_state ++ evs
    /\ Forall (fun d => d = 0) (discards evs)
    /\ g_current_pos st' = 0
    /\ kv st' = stored_cells evs.
Proof.
  apply (prompt_eviction_discards_nothing quiet_world prompt_of_20 true scenario_A_state);
    cbn; unfold Int32.INT_MIN, Int32.INT_MAX; try lia; reflexivity.
Defined.

(** With a negative budget the bound exceeds the capacity: a prompt of 20
    tokens is submitted whole into a window of 16, three evictions run and
    discard nothing, and the memory ends with the positions 0 to 19. *)
Example negative_budget_overflows_window :
  let st' := snd (nativeGenerate quiet_world prompt_of_20 (-10) scenario_A_state) in
  discards (trace st') = [0; 0; 0]
  /\ map cell_pos (kv st') = first_positions 20
  /\ g_context_size st' = 16.
Proof. vm_compute. repeat split; reflexivity. Qed.

(** ** Requests that fit the window *)

Lemma spec_entries_positions (tokens : list Z) (start : Z) (ll : bool) (from count : nat) :
  map be_pos (spec_entries tokens start ll from count)
  = map (fun j => start + Z.of_nat j) (seq from count).
Proof. unfold spec_entries. rewrite map_map. reflexivity. Qed.

Lemma same_settings_refl (st : State) : same_settings st st.
Proof. repeat split. Qed.

Lemma same_settings_trans (a b c : State) :
  same_settings a b -> same_settings b c -> same_settings a c.
Proof.
  unfold same_settings. intros [? [? [? [? ?]]]] [? [? [? [? ?]]]].
  repeat split; congruence.
Qed.

Section PromptFits.

Variables (w : World) (tokens : list Z) (start : Z) (ll : bool) (B cap : Z).

Local Abbreviation n := (Z.of_nat (length tokens)).

Hypothesis HB : 0 < B.
Hypothesis Hstart : 0 <= start.
Hypothesis HnB : start + n + B <= Int32.INT_MAX.
Hypothesis Hcap : Int32.INT_MIN + 4 <= cap <= Int32.INT_MAX.
Hypothesis Hroom : start + n < cap - 4.

Lemma decode_batched_from_no_shift :
  forall (fuel k : nat) (i : Z) (st : State),
    g_batch_size st = B -> g_context_size st = cap ->
    0 <= i -> n - i <= Z.of_nat fuel ->
    exists rc st' evs len,
      decode_batched_from fuel w tokens start ll k i st = Some (rc, st')
      /\ trace st' = trace st ++ evs
      /\ discards evs = []
      /\ delivered evs = []
      /\ submitted_positions evs
         = map (fun j => start + Z.of_nat j) (seq (Z.to_nat i) len)
      /\ Z.of_nat len <= Z.max 0 (n - i)
      /\ (rc = 0 -> Z.of_nat len = Z.max 0 (n - i)
                    /\ stored_cells evs
                       = map (fun x => mkCell 0 (be_pos x) (be_token x))
                             (concat (decoded_batches evs)))
      /\ kv st' = kv st ++ stored_cells evs
      /\ g_current_pos st' = g_current_pos st
      /\ same_settings st' st.
Proof.
  induction fuel as [|fuel IH]; intros k i st HBst Hcst Hi Hfuel.
  { exists 0, st, [], 0%nat.
    rewrite (decode_batched_from_done w tokens start ll B HB) by int_range.
    cbn. rewrite !app_nil_r. repeat split; try reflexivity; lia. }
  destruct (Z_le_gt_dec n i) as [Hdone | Hlt].
  { exists 0, st, [], 0%nat.
    rewrite (decode_batched_from_done w tokens start ll B HB) by int_range.
    cbn. rewrite !app_nil_r. repeat split; try reflexivity; lia. }
  cbn [decode_batched_from].
  rewrite int_of_size_small by int_range.
  replace (i <? n) with true by lia.
  rewrite HBst, Hcst.
  rewrite (sub_small n i) by int_range.
  rewrite (add_small i B) by int_range.
  set (cur := Z.min (n - i) B).
  assert (Hcur : 0 < cur <= n - i) by (unfold cur; lia).
  rewrite (sub_small cap 4) by int_range.
  rewrite (add_small start i) by int_range.
  rewrite (add_small (start + i) cur) by int_range.
  replace (cap - 4 <=? start + i + cur) with false by lia.
  rewrite (chunk_is_spec tokens start ll B HB Hstart) by int_range.
  set (batch := spec_entries tokens start ll (Z.to_nat i) (Z.to_nat cur)).
  assert (Hbpos : map be_pos batch
                  = map (fun j => start + Z.of_nat j) (seq (Z.to_nat i) (Z.to_nat cur)))
    by apply spec_entries_positions.
  destruct (prompt_decode_ok w k) eqn:Hdec.
  - destruct (IH (S k) (i + B) (llama_decode true batch st))
      as [rc [st' [evs [len [Hrun [Htr [Hds [Hdl [Hpos [Hlen [Hok [Hkv [Hcp Hset]]]]]]]]]]]]];
      [exact HBst | exact Hcst | lia | lia |].
    exists rc, st', (EvDecode batch true :: evs), (Z.to_nat cur + len)%nat.
    split; [exact Hrun|].
    split. { rewrite Htr. cbn. rewrite <- app_assoc. reflexivity. }
    split; [exact Hds|]. split; [exact Hdl|].
    split.
    { change (EvDecode batch true :: evs) with ([EvDecode batch true] ++ evs).
      rewrite submitted_positions_app, Hpos.
      unfold submitted_positions. cbn. rewrite app_nil_r, Hbpos.
      rewrite seq_app, map_app. f_equal.
      destruct len as [|len']; [reflexivity|].
      replace (Z.to_nat (i + B)) with (Z.to_nat i + Z.to_nat cur)%nat by lia.
      reflexivity. }
    split; [lia|].
    split.
    { intros Hrc. destruct (Hok Hrc) as [Hfull Hcells]. split; [lia|].
      change (EvDecode batch true :: evs) with ([EvDecode batch true] ++ evs).
      rewrite stored_cells_app, decoded_batches_app, concat_app, map_app, Hcells.
      cbn. rewrite !app_nil_r. reflexivity. }
    split.
    { rewrite Hkv.
      change (EvDecode batch true :: evs) with ([EvDecode batch true] ++ evs).
      rewrite stored_cells_app. cbn. rewrite app_nil_r, <- app_assoc. reflexivity. }
    split; [exact Hcp | exact Hset].
  - exists 1, (llama_decode false batch st), [EvDecode batch false], (Z.to_nat cur).
    split; [reflexivity|]. split; [reflexivity|].
    split; [reflexivity|]. split; [reflexivity|].
    split. { unfold submitted_positions. cbn. rewrite app_nil_r. exact Hbpos. }
    split; [lia|]. split; [intros Hrc; discriminate|].
    split. { cbn. rewrite app_nil_r. reflexivity. }
    split; [reflexivity | repeat split].
Qed.

End PromptFits.

Lemma shift_if_full_not_full (st : State) :
  Int32.INT_MIN + 4 <= g_context_size st <= Int32.INT_MAX ->
  g_current_pos st < g_context_size st - 4 ->
  shift_if_full st = st.
Proof.
  intros Hcap Hlt. unfold shift_if_full. rewrite sub_small by int_range.
  replace (_ <=? _) with false by lia. reflexivity.
Qed.

Lemma seq_positions_step (c : Z) (len : nat) :
  c :: map (fun j => (c + 1) + Z.of_nat j) (seq 0 len)
  = map (fun j => c + Z.of_nat j) (seq 0 (S len)).
Proof.
  cbn [seq map]. rewrite Z.add_0_r. f_equal.
  rewrite <- seq_shift, map_map. apply map_ext. intros j. lia.
Qed.

Lemma generate_loop_no_shift (w : World) :
  forall (n i : nat) (st : State) (result : list Z),
    Int32.INT_MIN + 4 <= g_context_size st <= Int32.INT_MAX ->
    0 <= g_current_pos st ->
    g_current_pos st + Z.of_nat n <= g_context_size st - 4 ->
    exists evs len,
      trace (fst (fst (generate_loop w n i st result))) = trace st ++ evs
      /\ discards evs = []
      /\ submitted_positions evs
         = map (fun j => g_current_pos st + Z.of_nat j) (seq 0 len)
      /\ (len <= n)%nat
      /\ g_current_pos st <= g_current_pos (fst (fst (generate_loop w n i st result)))
         <= g_current_pos st + Z.of_nat len
      /\ kv (fst (fst (generate_loop w n i st result))) = kv st ++ stored_cells evs
      /\ same_settings (fst (fst (generate_loop w n i st result))) st.
Proof.
  induction n as [|n IH]; intros i st result Hcap H0 Hroom.
  { exists [], 0%nat. cbn. rewrite !app_nil_r.
    repeat split; try reflexivity; lia. }
  cbn [generate_loop]. rewrite shift_if_full_not_full by (try assumption; lia).
  set (id := common_sampler_sample w i).
  destruct (llama_vocab_is_eog w id).
  { exists [], 0%nat. cbn. rewrite !app_nil_r.
    repeat split; try reflexivity; lia. }
  unfold decode_one, common_batch_clear, common_batch_add. cbn [app].
  destruct (gen_decode_ok w i).
  - set (st2 := with_pos _ _).
    assert (Hpos2 : g_current_pos st2 = g_current_pos st + 1).
    { unfold st2. cbn. apply add_small. int_range. }
    destruct (IH (S i) st2 (result ++ common_token_to_piece w id))
      as [evs [len [Htr [Hds [Hpos [Hlen [Hcur [Hkv Hset]]]]]]]];
      [exact Hcap | lia
       | rewrite Hpos2; change (g_context_size st2) with (g_context_size st); lia |].
    exists (EvDecode [mkEntry id (g_current_pos st) [0] true] true :: evs), (S len).
    split. { rewrite Htr. cbn. rewrite <- app_assoc. reflexivity. }
    split; [exact Hds|].
    split.
    { change (EvDecode ?b true :: evs) with ([EvDecode b true] ++ evs).
      rewrite submitted_positions_app, Hpos, Hpos2.
      unfold submitted_positions. cbn [decoded_batches flat_map concat app map be_pos].
      apply seq_positions_step. }
    split; [lia|]. split; [lia|].
    split. { rewrite Hkv. cbn. rewrite <- app_assoc. reflexivity. }
    exact Hset.
  - exists [EvDecode [mkEntry id (g_current_pos st) [0] true] false], 1%nat.
    cbn [fst]. split; [reflexivity|]. split; [reflexivity|].
    split. { unfold submitted_positions. cbn. rewrite Z.add_0_r. reflexivity. }
    split; [lia|]. split; [cbn; lia|].
    split. { cbn. rewrite app_nil_r. reflexivity. }
    repeat split.
Qed.

Lemma stream_loop_no_shift (w : World) :
  forall (n i : nat) (st : State) (cached : list Z),
    Int32.INT_MIN + 4 <= g_context_size st <= Int32.INT_MAX ->
    0 <= g_current_pos st ->
    g_current_pos st + Z.of_nat n <= g_context_size st - 4 ->
    exists evs len,
      trace (fst (fst (stream_loop w n i st cached))) = trace st ++ evs
      /\ discards evs = []
      /\ submitted_positions evs
         = map (fun j => g_current_pos st + Z.of_nat j) (seq 0 len)
      /\ (len <= n)%nat
      /\ g_current_pos st <= g_current_pos (fst (fst (stream_loop w n i st cached)))
         <= g_current_pos st + Z.of_nat len
      /\ kv (fst (fst (stream_loop w n i st cached))) = kv st ++ stored_cells evs
      /\ same_settings (fst (fst (stream_loop w n i st cached))) st.
Proof.
  induction n as [|n IH]; intros i st cached Hcap H0 Hroom.
  { exists [], 0%nat. cbn. rewrite !app_nil_r.
    repeat split; try reflexivity; lia. }
  cbn [stream_loop]. rewrite shift_if_full_not_full by (try assumption; lia).
  set (id := common_sampler_sample w i).
  destruct (llama_vocab_is_eog w id).
  { exists [], 0%nat. cbn. rewrite !app_nil_r.
    repeat split; try reflexivity; lia. }
  assert (Hdeliver :
            exists st2 cached2 brk dl,
              deliver_if_valid w i st (cached ++ common_token_to_piece w id)
              = (st2, cached2, brk)
              /\ trace st2 = trace st ++ dl
              /\ discards dl = [] /\ submitted_positions dl = [] /\ stored_cells dl = []
              /\ g_current_pos st2 = g_current_pos st /\ kv st2 = kv st
              /\ g_context_size st2 = g_context_size st
              /\ same_settings st2 st).
  { unfold deliver_if_valid. destruct (is_valid_utf8 _).
    - destruct (jni_pending (call_on_token _ _ st));
        do 3 eexists; eexists [_]; (split; [reflexivity|]); repeat split.
    - do 3 eexists. exists []. split; [reflexivity|]. rewrite app_nil_r. repeat split. }
  destruct Hdeliver as [st2 [cached2 [brk [dl [Hdl [Htr2 [Hd2 [Hp2 [Hs2 [Hc2 [Hk2 [Hsz2 Hset2]]]]]]]]]]]].
  rewrite Hdl. destruct brk.
  { exists dl, 0%nat. cbn [fst]. split; [exact Htr2|]. split; [exact Hd2|].
    split; [exact Hp2|]. split; [lia|]. split; [lia|].
    split; [rewrite Hk2, Hs2, app_nil_r; reflexivity | exact Hset2]. }
  unfold decode_one, common_batch_clear, common_batch_add. cbn [app].
  destruct (gen_decode_ok w i).
  - set (st3 := with_pos _ _).
    assert (Hpos3 : g_current_pos st3 = g_current_pos st + 1).
    { unfold st3. cbn. rewrite Hc2. apply add_small. int_range. }
    assert (Hsz3 : g_context_size st3 = g_context_size st) by exact Hsz2.
    destruct (IH (S i) st3 cached2)
      as [evs [len [Htr [Hds [Hpos [Hlen [Hcur [Hkv Hset]]]]]]]];
      [rewrite Hsz3; exact Hcap | lia | rewrite Hpos3, Hsz3; lia |].
    exists (dl ++ EvDecode [mkEntry id (g_current_pos st2) [0] true] true :: evs), (S len).
    split. { rewrite Htr. cbn. rewrite Htr2, <- !app_assoc. reflexivity. }
    split. { rewrite discards_app, Hd2. exact Hds. }
    split.
    { change (EvDecode ?b true :: evs) with ([EvDecode b true] ++ evs).
      rewrite !submitted_positions_app, Hp2, Hpos, Hpos3, Hc2.
      unfold submitted_positions. cbn [decoded_batches flat_map concat app map be_pos].
      apply seq_positions_step. }
    split; [lia|]. split; [lia|].
    split.
    { rewrite Hkv. cbn. rewrite Hk2.
      change (EvDecode ?b true :: evs) with ([EvDecode b true] ++ evs).
      rewrite !stored_cells_app, Hs2. cbn. rewrite <- app_assoc. reflexivity. }
    apply (same_settings_trans _ st3); [exact Hset|].
    apply (same_settings_trans _ st2); [repeat split | exact Hset2].
  - exists (dl ++ [EvDecode [mkEntry id (g_current_pos st2) [0] true] false]), 1%nat.
    cbn [fst]. split. { cbn. rewrite Htr2, <- app_assoc. reflexivity. }
    split. { rewrite discards_app, Hd2. reflexivity. }
    split. { rewrite submitted_positions_app, Hp2, Hc2.
             unfold submitted_positions. cbn. rewrite Z.add_0_r. reflexivity. }
    split; [lia|]. split; [cbn; lia|].
    split. { cbn. rewrite Hk2, stored_cells_app, Hs2. cbn. rewrite app_nil_r. reflexivity. }
    apply (same_settings_trans _ st2); [repeat split | exact Hset2].
Qed.

Lemma shifted_positions (a b : nat) :
  forall s, map (fun j => Z.of_nat a + Z.of_nat j) (seq s b) = map Z.of_nat (seq (s + a) b).
Proof.
  induction b as [|b IH]; intros s; [reflexivity|].
  cbn [seq map]. f_equal; [lia|]. apply (IH (S s)).
Qed.

Lemma first_positions_app (a b : nat) :
  first_positions a ++ map (fun j => Z.of_nat a + Z.of_nat j) (seq 0 b)
  = first_positions (a + b).
Proof.
  unfold first_positions. rewrite seq_app, map_app. f_equal. apply shifted_positions.
Qed.

Lemma first_positions_from_zero (len : nat) :
  map (fun j => 0 + Z.of_nat j) (seq 0 len) = first_positions len.
Proof. unfold first_positions. apply map_ext. intros j. lia. Qed.

Section RequestFits.

Variables (w : World) (prompt : list Z) (maxTokens : Z) (st : State).

Local Abbreviation tokens :=
  (common_tokenize w prompt (chat_template_explicit w) (chat_template_explicit w)).
Local Abbreviation st1 := (reset_gen_state (reset_chat_state true st)).
Local Abbreviation bound := (g_context_size st - maxTokens - 4).
Local Abbreviation kept :=
  (if bound <? Z.of_nat (length tokens) then firstn (Z.to_nat bound) tokens else tokens).

Hypothesis Hm : g_model st = true.
Hypothesis Hc : g_context st = true.
Hypothesis Hbudget : 1 <= maxTokens.
Hypothesis Hbound : 0 <= bound.
Hypothesis HB : 0 < g_batch_size st.
Hypothesis HcapB : g_context_size st + g_batch_size st <= Int32.INT_MAX.
Hypothesis Hlen : Z.of_nat (length tokens) <= Int32.INT_MAX.

Lemma kept_fits : Z.of_nat (length kept) <= bound.
Proof.
  destruct (bound <? Z.of_nat (length tokens)) eqn:E; [|lia].
  rewrite length_firstn. lia.
Qed.

Lemma request_prompt_phase :
  truncate_prompt st1 maxTokens tokens = Returned kept
  /\ exists rc st2 evs len,
      decode_batched w kept 0 true st1 = Some (rc, st2)
      /\ trace st2 = trace st ++ evs
      /\ discards evs = []
      /\ delivered evs = []
      /\ submitted_positions evs = first_positions len
      /\ (len <= length kept)%nat
      /\ (rc = 0 -> len = length kept)
      /\ kv st2 = stored_cells evs
      /\ g_current_pos st2 = 0
      /\ same_settings st2 st1.
Proof.
  pose proof kept_fits as Hk.
  split.
  { apply (truncate_prompt_prefix st1 maxTokens tokens);
      [exact Hbound | change (g_context_size st - maxTokens <= Int32.INT_MAX); int_range
       | exact Hlen]. }
  assert (H1 : 0 + Z.of_nat (length kept) + g_batch_size st <= Int32.INT_MAX) by int_range.
  assert (H2 : Int32.INT_MIN + 4 <= g_context_size st <= Int32.INT_MAX) by int_range.
  assert (H3 : 0 + Z.of_nat (length kept) < g_context_size st - 4) by lia.
  assert (H4 : Z.of_nat (length kept) - 0 <= Z.of_nat (length kept)) by lia.
  destruct (decode_batched_from_no_shift w kept 0 true (g_batch_size st) (g_context_size st)
              HB (Z.le_refl 0) H1 H2 H3 (length kept) 0%nat 0 st1 eq_refl eq_refl
              (Z.le_refl 0) H4)
    as [rc [st2 [evs [len [Hrun [Htr [Hds [Hdl [Hpos [Hle [Hok [Hkv [Hcp Hset]]]]]]]]]]]]].
  exists rc, st2, evs, len. unfold decode_batched.
  split; [exact Hrun|]. split; [exact Htr|]. split; [exact Hds|]. split; [exact Hdl|].
  split. { rewrite Hpos. apply first_positions_from_zero. }
  split; [lia|].
  split. { intros Hrc. destruct (Hok Hrc) as [Hfull _]. lia. }
  split. { rewrite Hkv. cbn. rewrite Hc. reflexivity. }
  split; [exact Hcp | exact Hset].
Qed.

End RequestFits.

(** X9.  A request with a budget of at least one token whose bound
    [g_context_size - maxTokens - 4] is not negative never evicts: in
    [nativeGenerate] and in [nativeGenerateStream] no [shift_context] runs,
    the positions submitted are 0, 1, 2, ... in order and all below
    [g_context_size - 4], the cursor ends inside the window, and the context
    memory holds exactly what the successful decodes stored.  The truncation
    of the prompt leaves room for the whole budget. *)
Theorem request_never_evicts (w : World) (prompt : list Z) (maxTokens : Z)
        (st : State) :
  g_model st = true -> g_context st = true ->
  1 <= maxTokens ->
  0 <= g_context_size st - maxTokens - 4 ->
  0 < g_batch_size st ->
  g_context_size st + g_batch_size st <= Int32.INT_MAX ->
  Z.of_nat (length (common_tokenize w prompt (chat_template_explicit w)
                                    (chat_template_explicit w))) <= Int32.INT_MAX ->
  ran_inside_window st (snd (nativeGenerate w prompt maxTokens st))
  /\ ran_inside_window st (snd (nativeGenerateStream w prompt maxTokens st)).
Proof.
  intros Hm Hc Hbudget Hbound HB HcapB Hlen.
  destruct (request_prompt_phase w prompt maxTokens st Hc Hbudget Hbound HB HcapB Hlen)
    as [Htrunc [rc [st2 [evs1 [len1 [Hdec [Htr1 [Hds1 [_ [Hpos1 [Hle1 [Hok1
       [Hkv1 [Hcp1 Hset1]]]]]]]]]]]]]].
  pose proof (kept_fits w prompt maxTokens st) as Hk.
  set (kept := if _ <? _ then _ else _) in *.
  destruct Hset1 as [_ [_ [Hsz2 _]]].
  change (g_context_size st2 = g_context_size st) in Hsz2.
  assert (Hfail : ran_inside_window st st2).
  { exists evs1, len1. repeat split; try assumption; lia. }
  set (st3 := with_pos st2 (int_of_size (length kept))).
  assert (Hcur3 : g_current_pos st3 = Z.of_nat (length kept)).
  { unfold st3. cbn. apply int_of_size_small. int_range. }
  assert (Hsz3 : g_context_size st3 = g_context_size st) by exact Hsz2.
  assert (Hcap3 : Int32.INT_MIN + 4 <= g_context_size st3 <= Int32.INT_MAX)
    by (rewrite Hsz3; int_range).
  assert (Hpos3 : 0 <= g_current_pos st3) by (rewrite Hcur3; lia).
  assert (Hroom3 : g_current_pos st3 + Z.of_nat (Z.to_nat maxTokens) <= g_context_size st3 - 4)
    by (rewrite Hcur3, Hsz3; lia).
  assert (Hafter : forall st4 evs2 len2,
             rc = 0 ->
             trace st4 = trace st3 ++ evs2 -> discards evs2 = [] ->
             submitted_positions evs2
             = map (fun j => g_current_pos st3 + Z.of_nat j) (seq 0 len2) ->
             (len2 <= Z.to_nat maxTokens)%nat ->
             g_current_pos st3 <= g_current_pos st4 <= g_current_pos st3 + Z.of_nat len2 ->
             kv st4 = kv st3 ++ stored_cells evs2 ->
             ran_inside_window st st4).
  { intros st4 evs2 len2 Hrc Htr Hds Hpos Hlen2 Hcur Hkv.
    exists (evs1 ++ evs2), (length kept + len2)%nat.
    split. { rewrite Htr. cbn. rewrite Htr1, app_assoc. reflexivity. }
    split. { rewrite discards_app, Hds1, Hds. reflexivity. }
    split. { rewrite submitted_positions_app, Hpos1, Hpos, Hcur3, (Hok1 Hrc).
             apply first_positions_app. }
    split; [lia|]. split; [lia|].
    rewrite Hkv. cbn. rewrite Hkv1, stored_cells_app. reflexivity. }
  split.
  - unfold nativeGenerate. rewrite Hm, Hc. cbn [negb orb]. rewrite Htrunc, Hdec.
    destruct (Z.eqb_spec rc 0) as [Hrc | Hrc]; cbn [negb]; [|exact Hfail].
    fold st3.
    destruct (generate_loop_no_shift w (Z.to_nat maxTokens) 0 st3 [] Hcap3 Hpos3 Hroom3)
      as [evs2 [len2 [Htr [Hds [Hpos [Hlen2 [Hcur [Hkv _]]]]]]]].
    destruct (generate_loop w _ 0 st3 []) as [[st4 result] stop]. cbn [fst snd] in *.
    apply (Hafter st4 evs2 len2); assumption.
  - unfold nativeGenerateStream. rewrite Hm, Hc. cbn [negb orb]. rewrite Htrunc, Hdec.
    destruct (Z.eqb_spec rc 0) as [Hrc | Hrc]; cbn [negb]; [|exact Hfail].
    fold st3.
    destruct (has_onToken w); cbn [negb].
    + destruct (stream_loop_no_shift w (Z.to_nat maxTokens) 0 st3 [] Hcap3 Hpos3 Hroom3)
        as [evs2 [len2 [Htr [Hds [Hpos [Hlen2 [Hcur [Hkv _]]]]]]]].
      destruct (stream_loop w _ 0 st3 []) as [[st4 cached] stop]. cbn [fst snd] in *.
      apply (Hafter st4 evs2 len2); assumption.
    + cbn [snd]. apply (Hafter _ [] 0%nat); try reflexivity; try assumption.
      * cbn. rewrite app_nil_r. reflexivity.
      * lia.
      * cbn. lia.
      * cbn. rewrite app_nil_r. reflexivity.
Qed.

Lemma request_never_evicts_witness :
  ran_inside_window scenario_A_state
                    (snd (nativeGenerate quiet_world prompt_of_20 5 scenario_A_state))
  /\ ran_inside_window scenario_A_state
                       (snd (nativeGenerateStream quiet_world prompt_of_20 5 scenario_A_state)).
Proof.
  apply (request_never_evicts quiet_world prompt_of_20 5 scenario_A_state);
    try reflexivity; cbn; unfold Int32.INT_MAX; lia.
Defined.

(** A prompt of 20 tokens against a window of 16 and a budget of 5: the
    prompt is cut to 7 tokens, 5 tokens are generated, the cursor ends at 12
    and nothing is evicted. *)
Example full_budget_fits :
  let st' := snd (nativeGenerate quiet_world prompt_of_20 5 scenario_A_state) in
  discards (trace st') = []
  /\ submitted_positions (trace st') = first_positions 12
  /\ g_current_pos st' = 12.
Proof. vm_compute. repeat split; reflexivity. Qed.

(** ** The window under eviction *)

Lemma shift_context_kv (st : State) :
  0 <= g_system_pos st -> g_system_pos st <= g_current_pos st ->
  g_current_pos st <= Int32.INT_MAX ->
  kv (shift_context st)
  = flat_map (spec_evict_cell (g_system_pos st)
                              ((g_current_pos st - g_system_pos st) / 2)
                              (g_current_pos st)) (kv st).
Proof.
  intros HS HSC HC.
  destruct (discard_value _ _ HS HSC HC) as [En Hd].
  unfold shift_context. rewrite En. cbn [kv with_pos with_kv log].
  rewrite add_small by int_range. rewrite neg_small by int_range.
  apply shift_memory_cells; lia.
Qed.

Lemma evict_keeps_sequence (S d C : Z) (mem : Memory) :
  Forall (fun c => cell_seq c = 0) mem ->
  Forall (fun c => cell_seq c = 0) (flat_map (spec_evict_cell S d C) mem).
Proof.
  induction 1 as [|c mem Hc _ IH]; [constructor|].
  cbn [flat_map]. apply Forall_app. split; [|exact IH].
  unfold spec_evict_cell. rewrite Hc. cbn [Z.eqb negb].
  destruct (_ <? _); [repeat constructor; exact Hc|].
  destruct (_ <? _); [constructor|].
  destruct (_ <? _); repeat constructor; assumption.
Qed.

Lemma evict_positions (d C : Z) :
  0 <= d ->
  forall (m a : nat) (mem : Memory),
    Z.of_nat a + Z.of_nat m <= C ->
    Forall (fun c => cell_seq c = 0) mem ->
    map cell_pos mem = map Z.of_nat (seq a m) ->
    map cell_pos (flat_map (spec_evict_cell 0 d C) mem)
    = map Z.of_nat (seq (a - Z.to_nat d) (m - (Z.to_nat d - a))).
Proof.
  intros Hd. induction m as [|m IH]; intros a mem HC Hseq Hpos.
  { destruct mem; [reflexivity | discriminate]. }
  destruct mem as [|c mem]; [discriminate|].
  cbn [seq map] in Hpos. injection Hpos as Hc Hrest.
  inversion Hseq as [|? ? Hc0 Hseq']; subst.
  cbn [flat_map]. rewrite map_app.
  rewrite (IH (S a) mem) by (try assumption; lia).
  unfold spec_evict_cell. rewrite Hc0, Hc. cbn [Z.eqb negb].
  replace (Z.of_nat a <? 0) with false by lia.
  destruct (Z.of_nat a <? 0 + d) eqn:E1.
  - cbn [map app]. do 2 f_equal; lia.
  - replace (Z.of_nat a <? C) with true by lia.
    cbn [map app cell_pos].
    replace (m - (Z.to_nat d - Datatypes.S a))%nat with m by lia.
    replace (Datatypes.S m - (Z.to_nat d - a))%nat with (Datatypes.S m) by lia.
    replace (Datatypes.S a - Z.to_nat d)%nat with (Datatypes.S (a - Z.to_nat d)) by lia.
    cbn [seq map]. f_equal. lia.
Qed.

Lemma window_ok_shift_if_full (st : State) :
  window_ok st ->
  window_ok (shift_if_full st)
  /\ g_current_pos (shift_if_full st) < g_context_size st - 4
  /\ g_context_size (shift_if_full st) = g_context_size st.
Proof.
  intros [Hcap [HS [HC [Hpos Hseq]]]].
  unfold shift_if_full. rewrite sub_small by int_range.
  destruct (g_context_size st - 4 <=? g_current_pos st) eqn:Efull.
  - assert (Hfull : g_current_pos st = g_context_size st - 4) by lia.
    destruct (shift_context_cursor st) as [Hcur _]; try int_range.
    pose proof (shift_context_kv st) as Hkv.
    rewrite HS in Hcur, Hkv. rewrite Z.sub_0_r in Hcur, Hkv.
    set (C := g_current_pos st) in *. set (d := C / 2) in *.
    assert (Hd : 1 <= d <= C - 1).
    { unfold d. split; [apply Z.div_le_lower_bound; lia|].
      assert (C / 2 < C) by (apply Z.div_lt_upper_bound; lia). lia. }
    split; [|split; [rewrite Hcur; lia | reflexivity]].
    unfold window_ok.
    change (g_context_size (shift_context st)) with (g_context_size st).
    change (g_system_pos (shift_context st)) with (g_system_pos st).
    rewrite Hcur, Hkv by int_range.
    split; [exact Hcap|]. split; [exact HS|]. split; [lia|].
    split; [|apply evict_keeps_sequence; exact Hseq].
    assert (Hd0 : 0 <= d) by lia.
    rewrite (evict_positions d C Hd0 (Z.to_nat C) 0 (kv st)); try assumption; try lia.
    unfold first_positions. do 2 f_equal; lia.
  - split; [|split; [lia | reflexivity]].
    repeat split; try assumption; lia.
Qed.

Lemma window_ok_advance (st : State) (id : Z) :
  window_ok st -> g_current_pos st < g_context_size st - 4 ->
  window_ok (with_pos (decode_one true id st) (g_current_pos (decode_one true id st) +i 1)).
Proof.
  intros [Hcap [HS [HC [Hpos Hseq]]]] Hroom.
  unfold window_ok. cbn. rewrite add_small by int_range.
  split; [exact Hcap|]. split; [exact HS|]. split; [lia|]. split.
  - rewrite map_app, Hpos. cbn [map cell_pos]. unfold first_positions.
    replace (Z.to_nat (g_current_pos st + 1)) with (Datatypes.S (Z.to_nat (g_current_pos st)))
      by lia.
    rewrite seq_S, map_app. cbn. do 2 f_equal. lia.
  - apply Forall_app. split; [exact Hseq | repeat constructor].
Qed.

Lemma window_ok_same (a b : State) :
  window_ok a ->
  g_context_size b = g_context_size a -> g_system_pos b = g_system_pos a ->
  g_current_pos b = g_current_pos a -> kv b = kv a ->
  window_ok b.
Proof. unfold window_ok. intros H -> -> -> ->. exact H. Qed.

Lemma generate_loop_window (w : World) :
  forall (n i : nat) (st : State) (result : list Z),
    window_ok st -> window_ok (fst (fst (generate_loop w n i st result))).
Proof.
  induction n as [|n IH]; intros i st result Hok; [exact Hok|].
  cbn [generate_loop].
  destruct (window_ok_shift_if_full st Hok) as [Hok1 [Hroom Hsz]].
  rewrite <- Hsz in Hroom.
  destruct (llama_vocab_is_eog w _); [exact Hok1|].
  destruct (gen_decode_ok w i).
  - apply IH. apply window_ok_advance; assumption.
  - cbn [fst]. apply (window_ok_same (shift_if_full st)); [exact Hok1 | | | |]; reflexivity.
Qed.

Lemma stream_loop_window (w : World) :
  forall (n i : nat) (st : State) (cached : list Z),
    window_ok st -> window_ok (fst (fst (stream_loop w n i st cached))).
Proof.
  induction n as [|n IH]; intros i st cached Hok; [exact Hok|].
  cbn [stream_loop].
  destruct (window_ok_shift_if_full st Hok) as [Hok1 [Hroom Hsz]].
  rewrite <- Hsz in Hroom.
  destruct (llama_vocab_is_eog w _); [exact Hok1|].
  assert (Hdeliver :
            exists st2 cached2 brk,
              deliver_if_valid w i (shift_if_full st)
                               (cached ++ common_token_to_piece w (common_sampler_sample w i))
              = (st2, cached2, brk)
              /\ g_context_size st2 = g_context_size (shift_if_full st)
              /\ g_system_pos st2 = g_system_pos (shift_if_full st)
              /\ g_current_pos st2 = g_current_pos (shift_if_full st)
              /\ kv st2 = kv (shift_if_full st)).
  { unfold deliver_if_valid. destruct (is_valid_utf8 _).
    - destruct (jni_pending (call_on_token _ _ _)); do 3 eexists;
        (split; [reflexivity|]); repeat split.
    - do 3 eexists. split; [reflexivity|]. repeat split. }
  destruct Hdeliver as [st2 [cached2 [brk [Hdl [H1 [H2 [H3 H4]]]]]]].
  rewrite Hdl.
  pose proof (window_ok_same _ st2 Hok1 H1 H2 H3 H4) as Hok2.
  destruct brk; [exact Hok2|].
  destruct (gen_decode_ok w i).
  - apply IH. apply window_ok_advance; [exact Hok2 | rewrite H1, H3; exact Hroom].
  - cbn [fst]. apply (window_ok_same st2); [exact Hok2 | | | |]; reflexivity.
Qed.

Lemma submitted_positions_quiet (sh : list Event) :
  decoded_batches sh = [] -> submitted_positions sh = [].
Proof. unfold submitted_positions. intros ->. reflexivity. Qed.

Lemma generate_loop_positions (w : World) :
  forall (n i : nat) (st : State) (result : list Z),
    window_ok st ->
    exists evs,
      trace (fst (fst (generate_loop w n i st result))) = trace st ++ evs
      /\ Forall (fun p => 0 <= p < g_context_size st - 4) (submitted_positions evs).
Proof.
  induction n as [|n IH]; intros i st result Hok.
  { exists []. cbn. rewrite app_nil_r. split; [reflexivity | constructor]. }
  cbn [generate_loop].
  destruct (window_ok_shift_if_full st Hok) as [Hok1 [Hroom Hsz]].
  destruct (shift_if_full_trace st) as [sh [Htr [_ [Hdb _]]]].
  pose proof (submitted_positions_quiet sh Hdb) as Hsh.
  assert (Hpos : 0 <= g_current_pos (shift_if_full st)) by (destruct Hok1 as [_ [_ [H _]]]; lia).
  set (st1 := shift_if_full st) in *.
  destruct (llama_vocab_is_eog w _).
  { exists sh. cbn [fst]. split; [exact Htr|]. rewrite Hsh. constructor. }
  destruct (gen_decode_ok w i).
  - set (st2 := with_pos _ _).
    destruct (IH (S i) st2 (result ++ common_token_to_piece w (common_sampler_sample w i)))
      as [evs [Htr' Hall]].
    { apply window_ok_advance; [exact Hok1 | rewrite Hsz; exact Hroom]. }
    change (g_context_size st2) with (g_context_size st1) in Hall. rewrite Hsz in Hall.
    exists (sh ++ [EvDecode [mkEntry (common_sampler_sample w i) (g_current_pos st1) [0] true]
                            true] ++ evs).
    split.
    { rewrite Htr'. unfold st2. cbn. fold st1. rewrite Htr, <- !app_assoc. reflexivity. }
    rewrite !submitted_positions_app, Hsh. cbn [app].
    constructor; [split; assumption | exact Hall].
  - exists (sh ++ [EvDecode [mkEntry (common_sampler_sample w i) (g_current_pos st1) [0] true]
                            false]).
    cbn [fst]. split.
    { cbn. fold st1. rewrite Htr, <- !app_assoc. reflexivity. }
    rewrite !submitted_positions_app, Hsh. cbn [app].
    constructor; [split; assumption | constructor].
Qed.

Lemma stream_loop_positions (w : World) :
  forall (n i : nat) (st : State) (cached : list Z),
    window_ok st ->
    exists evs,
      trace (fst (fst (stream_loop w n i st cached))) = trace st ++ evs
      /\ Forall (fun p => 0 <= p < g_context_size st - 4) (submitted_positions evs).
Proof.
  induction n as [|n IH]; intros i st cached Hok.
  { exists []. cbn. rewrite app_nil_r. split; [reflexivity | constructor]. }
  cbn [stream_loop].
  destruct (window_ok_shift_if_full st Hok) as [Hok1 [Hroom Hsz]].
  destruct (shift_if_full_trace st) as [sh [Htr [_ [Hdb _]]]].
  pose proof (submitted_positions_quiet sh Hdb) as Hsh.
  assert (Hpos : 0 <= g_current_pos (shift_if_full st)) by (destruct Hok1 as [_ [_ [H _]]]; lia).
  set (st1 := shift_if_full st) in *.
  set (id := common_sampler_sample w i).
  destruct (llama_vocab_is_eog w id).
  { exists sh. cbn [fst]. split; [exact Htr|]. rewrite Hsh. constructor. }
  assert (Hdeliver :
            exists st2 cached2 brk dl,
              deliver_if_valid w i st1 (cached ++ common_token_to_piece w id)
              = (st2, cached2, brk)
              /\ trace st2 = trace st1 ++ dl
              /\ submitted_positions dl = []
              /\ g_context_size st2 = g_context_size st1
              /\ g_system_pos st2 = g_system_pos st1
              /\ g_current_pos st2 = g_current_pos st1
              /\ kv st2 = kv st1).
  { unfold deliver_if_valid. destruct (is_valid_utf8 _).
    - destruct (jni_pending (call_on_token _ _ _)); do 3 eexists; eexists [_];
        (split; [reflexivity|]); repeat split.
    - do 3 eexists. exists []. split; [reflexivity|]. rewrite app_nil_r. repeat split. }
  destruct Hdeliver as [st2 [cached2 [brk [dl [Hdl [Htr2 [Hdlq [H1 [H2 [H3 H4]]]]]]]]]].
  rewrite Hdl.
  pose proof (window_ok_same _ st2 Hok1 H1 H2 H3 H4) as Hok2.
  destruct brk.
  { exists (sh ++ dl). cbn [fst]. split; [rewrite Htr2, Htr, app_assoc; reflexivity|].
    rewrite submitted_positions_app, Hsh, Hdlq. constructor. }
  destruct (gen_decode_ok w i).
  - set (st3 := with_pos _ _).
    destruct (IH (S i) st3 cached2) as [evs [Htr' Hall]].
    { apply window_ok_advance; [exact Hok2 | rewrite H1, H3, Hsz; exact Hroom]. }
    change (g_context_size st3) with (g_context_size st2) in Hall.
    rewrite H1, Hsz in Hall.
    exists (sh ++ dl ++ [EvDecode [mkEntry id (g_current_pos st2) [0] true] true] ++ evs).
    split.
    { rewrite Htr'. unfold st3. cbn [trace with_pos decode_one llama_decode with_kv log].
      rewrite Htr2, Htr, <- !app_assoc. reflexivity. }
    rewrite !submitted_positions_app, Hsh, Hdlq. cbn [app].
    constructor; [rewrite H3; split; assumption | exact Hall].
  - exists (sh ++ dl ++ [EvDecode [mkEntry id (g_current_pos st2) [0] true] false]).
    cbn [fst]. split.
    { cbn [trace decode_one llama_decode with_kv log].
      rewrite Htr2, Htr, <- !app_assoc. reflexivity. }
    rewrite !submitted_positions_app, Hsh, Hdlq. cbn [app].
    constructor; [rewrite H3; split; assumption | constructor].
Qed.

(** X10.  In a window of at least 6 positions, from a session that satisfies
    the window invariant (boundary 0, cursor at most [capacity - 4], the
    context memory holding the positions 0, ..., cursor - 1 of sequence 0),
    both generation loops keep the invariant for any budget, evictions
    included, and every token they submit goes to a position below
    [capacity - 4].  An eviction halves a full window and renumbers what is
    left from 0. *)
Theorem generation_keeps_window (w : World) (n i : nat) (st : State)
        (result cached : list Z) :
  window_ok st ->
  (window_ok (fst (fst (generate_loop w n i st result)))
   /\ exists evs,
       trace (fst (fst (generate_loop w n i st result))) = trace st ++ evs
       /\ Forall (fun p => 0 <= p < g_context_size st - 4) (submitted_positions evs))
  /\ (window_ok (fst (fst (stream_loop w n i st cached)))
      /\ exists evs,
          trace (fst (fst (stream_loop w n i st cached))) = trace st ++ evs
          /\ Forall (fun p => 0 <= p < g_context_size st - 4) (submitted_positions evs))
  /\ (g_current_pos st = g_context_size st - 4 ->
      g_current_pos (shift_if_full st)
      = g_current_pos st - g_current_pos st / 2
      /\ g_current_pos (shift_if_full st) < g_current_pos st).
Proof.
  intros Hok.
  split; [split; [apply generate_loop_window | apply generate_loop_positions]; exact Hok|].
  split; [split; [apply stream_loop_window | apply stream_loop_positions]; exact Hok|].
  intros Hfull. destruct Hok as [Hcap [HS [HC _]]].
  unfold shift_if_full. rewrite sub_small by int_range.
  replace (_ <=? _) with true by lia.
  destruct (shift_context_cursor st) as [Hcur _]; try int_range.
  rewrite Hcur, HS, Z.sub_0_r. split; [reflexivity|].
  assert (1 <= g_current_pos st / 2) by (apply Z.div_le_lower_bound; lia). lia.
Qed.

Lemma generation_keeps_window_witness :
  (window_ok (fst (fst (generate_loop quiet_world 9 0 full_window_state [])))
   /\ exists evs,
       trace (fst (fst (generate_loop quiet_world 9 0 full_window_state [])))
       = trace full_window_state ++ evs
       /\ Forall (fun p => 0 <= p < g_context_size full_window_state - 4)
                 (submitted_positions evs))
  /\ (window_ok (fst (fst (stream_loop quiet_world 9 0 full_window_state [])))
      /\ exists evs,
          trace (fst (fst (stream_loop quiet_world 9 0 full_window_state [])))
          = trace full_window_state ++ evs
          /\ Forall (fun p => 0 <= p < g_context_size full_window_state - 4)
                    (submitted_positions evs))
  /\ (g_current_pos full_window_state = g_context_size full_window_state - 4 ->
      g_current_pos (shift_if_full full_window_state)
      = g_current_pos full_window_state - g_current_pos full_window_state / 2
      /\ g_current_pos (shift_if_full full_window_state) < g_current_pos full_window_state).
Proof.
  apply (generation_keeps_window quiet_world 9 0 full_window_state [] []).
  unfold window_ok. cbn. unfold Int32.INT_MAX.
  split; [lia|]. split; [reflexivity|]. split; [lia|].
  split; [reflexivity | repeat constructor].
Defined.

(** Nine tokens generated from the full window: an eviction of 6 positions
    at once, another of 6 when the window is full again, and the memory ends
    with the positions 0 to 8. *)
Example full_window_generation :
  let st' := fst (fst (generate_loop quiet_world 9 0 full_window_state [])) in
  discards (trace st') = [6; 6]
  /\ g_current_pos st' = 9
  /\ map cell_pos (kv st') = first_positions 9.
Proof. vm_compute. repeat split; reflexivity. Qed.

(** A window of 5 positions is too small for the invariant: at cursor
    1 = 5 - 4 the eviction discards nothing, the token is submitted at
    position 1 and the cursor ends at 2, beyond [capacity - 4]. *)
Example tiny_window_overruns :
  let st' := fst (fst (generate_loop quiet_world 1 0 tiny_window_state [])) in
  discards (trace st') = [0]
  /\ submitted_positions (trace st') = [1]
  /\ g_current_pos st' = 2
  /\ g_context_size st' - 4 = 1.
Proof. vm_compute. repeat split; reflexivity. Qed.

(** ** A prompt whose submission fails *)

Lemma shift_trace_quiet (st : State) (c : bool) :
  exists sh, trace (if c then shift_context st else st) = trace st ++ sh
             /\ decoded_batches sh = [] /\ stored_cells sh = []
             /\ g_batch_size (if c then shift_context st else st) = g_batch_size st.
Proof.
  destruct c.
  - eexists. split; [reflexivity|]. repeat split.
  - exists []. rewrite app_nil_r. repeat split.
Qed.

Lemma cells_of_entries_app (a b : list BatchEntry) :
  map (fun x => mkCell 0 (be_pos x) (be_token x)) (a ++ b)
  = map (fun x => mkCell 0 (be_pos x) (be_token x)) a
      ++ map (fun x => mkCell 0 (be_pos x) (be_token x)) b.
Proof. apply map_app. Qed.

Section PromptFails.

Variables (w : World) (tokens : list Z) (start : Z) (ll : bool) (B : Z).

Local Abbreviation n := (Z.of_nat (length tokens)).

Hypothesis HB : 0 < B.
Hypothesis Hstart : 0 <= start.
Hypothesis Hfit : start + n <= Int32.INT_MAX.
Hypothesis HnB : n + B <= Int32.INT_MAX.

Lemma decode_batched_from_fails :
  forall (k k0 fuel : nat) (i : Z) (st : State),
    g_batch_size st = B -> 0 <= i ->
    i + Z.of_nat k * B < n ->
    n - i <= Z.of_nat fuel ->
    (forall j, (j < k)%nat -> prompt_decode_ok w (k0 + j) = true) ->
    prompt_decode_ok w (k0 + k) = false ->
    exists st' pre failed,
      decode_batched_from fuel w tokens start ll k0 i st = Some (1, st')
      /\ trace st' = trace st ++ pre ++ [EvDecode failed false]
      /\ length (decoded_batches pre) = k
      /\ concat (decoded_batches pre)
         = spec_entries tokens start ll (Z.to_nat i) (Z.to_nat (Z.of_nat k * B))
      /\ failed = spec_entries tokens start ll (Z.to_nat (i + Z.of_nat k * B))
                               (Z.to_nat (Z.min (n - (i + Z.of_nat k * B)) B))
      /\ stored_cells pre
         = map (fun x => mkCell 0 (be_pos x) (be_token x)) (concat (decoded_batches pre)).
Proof.
  induction k as [|k IH]; intros k0 fuel i st HBst Hi Hlt Hfuel Hbefore Hat.
  - destruct fuel as [|fuel]; [lia|].
    cbn [decode_batched_from].
    rewrite int_of_size_small by int_range.
    replace (i <? n) with true by lia.
    rewrite HBst, (sub_small n i) by int_range.
    rewrite Nat.add_0_r in Hat. rewrite Hat.
    set (c := _ <=? _).
    destruct (shift_trace_quiet st c) as [sh [Htr [Hdb [Hsc _]]]].
    rewrite (chunk_is_spec tokens start ll B HB Hstart Hfit HnB) by lia.
    eexists. exists sh. eexists. split; [reflexivity|].
    split. { cbn [llama_decode trace with_kv log]. rewrite Htr, <- app_assoc. reflexivity. }
    rewrite Hdb, Hsc. cbn [Z.of_nat Z.mul]. rewrite Z.add_0_r.
    repeat split.
  - destruct fuel as [|fuel]; [lia|].
    cbn [decode_batched_from].
    rewrite int_of_size_small by int_range.
    replace (i <? n) with true by lia.
    rewrite HBst, (sub_small n i), (add_small i B) by int_range.
    replace (Z.min (n - i) B) with B by lia.
    assert (Hok0 : prompt_decode_ok w k0 = true)
      by (rewrite <- (Nat.add_0_r k0); apply Hbefore; lia).
    rewrite Hok0.
    set (c := _ <=? _).
    destruct (shift_trace_quiet st c) as [sh [Htr [Hdb [Hsc HB1]]]].
    set (st1 := if c then shift_context st else st) in *.
    rewrite (chunk_is_spec tokens start ll B HB Hstart Hfit HnB) by lia.
    set (batch := spec_entries tokens start ll (Z.to_nat i) (Z.to_nat B)).
    destruct (IH (S k0) fuel (i + B) (llama_decode true batch st1))
      as [st' [pre [failed [Hrun [Htr' [Hlen [Hcat [Hfailed Hcells]]]]]]]].
    { cbn. congruence. }
    { lia. }
    { lia. }
    { lia. }
    { intros j Hj. replace (S k0 + j)%nat with (k0 + S j)%nat by lia. apply Hbefore. lia. }
    { replace (S k0 + k)%nat with (k0 + S k)%nat by lia. exact Hat. }
    exists st', (sh ++ EvDecode batch true :: pre), failed.
    split; [exact Hrun|].
    split.
    { rewrite Htr'. cbn [llama_decode trace with_kv log]. rewrite Htr, <- !app_assoc.
      reflexivity. }
    change (EvDecode batch true :: pre) with ([EvDecode batch true] ++ pre).
    rewrite !decoded_batches_app, !stored_cells_app, Hdb, Hsc.
    cbn [app decoded_batches stored_cells flat_map length concat].
    split. { rewrite Hlen. reflexivity. }
    split.
    { rewrite Hcat. unfold batch.
      replace (Z.to_nat (Z.of_nat (S k) * B)) with (Z.to_nat B + Z.to_nat (Z.of_nat k * B))%nat
        by lia.
      rewrite spec_entries_split. do 2 f_equal. lia. }
    split.
    { rewrite Hfailed. f_equal; [f_equal; lia | do 2 f_equal; lia]. }
    rewrite app_nil_r, cells_of_entries_app. f_equal. exact Hcells.
Qed.

End PromptFails.

(** X11.  When the decodes of the first [k] chunks of a prompt succeed and
    the decode of chunk [k] fails, [decode_batched] returns 1 right after the
    failed decode: exactly [k + 1] batches were submitted, no later chunk is
    ever submitted, and on a freshly reset session the memory keeps the
    [k * B] tokens decoded before the failure while the cursor stays 0. *)
Theorem prompt_stops_at_first_failure (w : World) (tokens : list Z) (logit_last : bool)
        (st0 : State) (k : nat) :
  g_context st0 = true ->
  0 < g_batch_size st0 ->
  Z.of_nat (length tokens) + g_batch_size st0 <= Int32.INT_MAX ->
  (forall j, (j < k)%nat -> prompt_decode_ok w j = true) ->
  prompt_decode_ok w k = false ->
  Z.of_nat k * g_batch_size st0 < Z.of_nat (length tokens) ->
  exists st' pre failed,
    decode_batched w tokens 0 logit_last (reset_gen_state (reset_chat_state true st0))
    = Some (1, st')
    /\ trace st' = trace st0 ++ pre ++ [EvDecode failed false]
    /\ length (decoded_batches pre) = k
    /\ concat (decoded_batches pre)
       = spec_entries tokens 0 logit_last 0 (Z.to_nat (Z.of_nat k * g_batch_size st0))
    /\ kv st'
       = map (fun x => mkCell 0 (be_pos x) (be_token x))
             (spec_entries tokens 0 logit_last 0 (Z.to_nat (Z.of_nat k * g_batch_size st0)))
    /\ g_current_pos st' = 0.
Proof.
  intros Hc HB HnB Hbefore Hat Hlt.
  set (st1 := reset_gen_state (reset_chat_state true st0)).
  assert (Hfit : 0 + Z.of_nat (length tokens) <= Int32.INT_MAX) by int_range.
  destruct (decode_batched_from_fails w tokens 0 logit_last (g_batch_size st0)
              HB (Z.le_refl 0) Hfit HnB k 0%nat (length tokens) 0 st1)
    as [st' [pre [failed [Hrun [Htr [Hlen [Hcat [_ Hcells]]]]]]]];
    try reflexivity; try lia; try assumption.
  exists st', pre, failed. unfold decode_batched. fold st1.
  split; [exact Hrun|]. split; [exact Htr|]. split; [exact Hlen|]. split; [exact Hcat|].
  destruct (decode_batched_from_fresh w tokens 0 logit_last (length tokens) 0%nat 0 st1 1 st'
              eq_refl eq_refl Hrun) as [evs [Htr' [_ [HC [_ Hkv]]]]].
  rewrite Htr in Htr'. apply app_inv_head in Htr'. subst evs.
  split; [|exact HC].
  rewrite Hkv. unfold st1. cbn [kv reset_gen_state reset_chat_state]. rewrite Hc.
  cbn [andb llama_memory_clear app].
  rewrite stored_cells_app, Hcells, Hcat. cbn. apply app_nil_r.
Qed.

Lemma prompt_stops_at_first_failure_witness :
  exists st' pre failed,
    decode_batched third_chunk_fails_world prompt_of_20 0 true
                   (reset_gen_state (reset_chat_state true scenario_A_state))
    = Some (1, st')
    /\ trace st' = trace scenario_A_state ++ pre ++ [EvDecode failed false]
    /\ length (decoded_batches pre) = 2%nat
    /\ concat (decoded_batches pre)
       = spec_entries prompt_of_20 0 true 0 (Z.to_nat (Z.of_nat 2 * 4))
    /\ kv st'
       = map (fun x => mkCell 0 (be_pos x) (be_token x))
             (spec_entries prompt_of_20 0 true 0 (Z.to_nat (Z.of_nat 2 * 4)))
    /\ g_current_pos st' = 0.
Proof.
  apply (prompt_stops_at_first_failure third_chunk_fails_world prompt_of_20 true
           scenario_A_state 2).
  - reflexivity.
  - cbn. lia.
  - cbn. unfold Int32.INT_MAX. lia.
  - intros [|[|j]] Hj; try reflexivity. lia.
  - reflexivity.
  - cbn. lia.
Defined.

(** ** Requests do not see earlier requests *)

Lemma prepend_shift_context (t : list Event) (st : State) :
  shift_context (prepend_trace t st) = prepend_trace t (shift_context st).
Proof. unfold shift_context, prepend_trace. cbn. rewrite app_assoc. reflexivity. Qed.

Lemma prepend_shift_if_full (t : list Event) (st : State) :
  shift_if_full (prepend_trace t st) = prepend_trace t (shift_if_full st).
Proof.
  unfold shift_if_full. change (g_context_size (prepend_trace t st)) with (g_context_size st).
  change (g_current_pos (prepend_trace t st)) with (g_current_pos st).
  destruct (_ <=? _); [apply prepend_shift_context | reflexivity].
Qed.

Lemma prepend_llama_decode (t : list Event) (ok : bool) (b : Batch) (st : State) :
  llama_decode ok b (prepend_trace t st) = prepend_trace t (llama_decode ok b st).
Proof. unfold llama_decode, prepend_trace. cbn. rewrite app_assoc. reflexivity. Qed.

Lemma prepend_advance (t : list Event) (ok : bool) (id : Z) (st : State) :
  with_pos (decode_one ok id (prepend_trace t st))
           (g_current_pos (decode_one ok id (prepend_trace t st)) +i 1)
  = prepend_trace t (with_pos (decode_one ok id st) (g_current_pos (decode_one ok id st) +i 1))
  /\ decode_one ok id (prepend_trace t st) = prepend_trace t (decode_one ok id st).
Proof.
  unfold decode_one. change (g_current_pos (prepend_trace t st)) with (g_current_pos st).
  rewrite prepend_llama_decode. split; reflexivity.
Qed.

Lemma prepend_deliver (w : World) (t : list Event) (i : nat) (st : State) (cached : list Z) :
  deliver_if_valid w i (prepend_trace t st) cached
  = (prepend_trace t (fst (fst (deliver_if_valid w i st cached))),
     snd (fst (deliver_if_valid w i st cached)),
     snd (deliver_if_valid w i st cached)).
Proof.
  unfold deliver_if_valid. destruct (is_valid_utf8 _); [|reflexivity].
  unfold call_on_token. cbn [jni_pending with_pending log prepend_trace].
  destruct (jni_pending st || on_token_throws w i);
    cbn [fst snd]; unfold prepend_trace; cbn; rewrite app_assoc; reflexivity.
Qed.

Lemma prepend_decode_batched_from (w : World) (tokens : list Z) (start : Z) (ll : bool)
      (t : list Event) :
  forall (fuel k : nat) (i : Z) (st : State),
    decode_batched_from fuel w tokens start ll k i (prepend_trace t st)
    = match decode_batched_from fuel w tokens start ll k i st with
      | Some (rc, st') => Some (rc, prepend_trace t st')
      | None => None
      end.
Proof.
  induction fuel as [|fuel IH]; intros k i st; cbn [decode_batched_from];
    destruct (i <? _); try reflexivity.
  change (g_context_size (prepend_trace t st)) with (g_context_size st).
  change (g_batch_size (prepend_trace t st)) with (g_batch_size st).
  set (c := _ <=? _).
  assert (H1 : (if c then shift_context (prepend_trace t st) else prepend_trace t st)
               = prepend_trace t (if c then shift_context st else st)).
  { destruct c; [apply prepend_shift_context | reflexivity]. }
  rewrite H1, prepend_llama_decode.
  destruct (prompt_decode_ok w k); [apply IH | reflexivity].
Qed.

Lemma prepend_generate_loop (w : World) (t : list Event) :
  forall (n i : nat) (st : State) (result : list Z),
    generate_loop w n i (prepend_trace t st) result
    = (prepend_trace t (fst (fst (generate_loop w n i st result))),
       snd (fst (generate_loop w n i st result)),
       snd (generate_loop w n i st result)).
Proof.
  induction n as [|n IH]; intros i st result; [reflexivity|].
  cbn [generate_loop]. rewrite prepend_shift_if_full.
  destruct (llama_vocab_is_eog w _); [reflexivity|].
  destruct (prepend_advance t (gen_decode_ok w i) (common_sampler_sample w i)
                            (shift_if_full st)) as [Hadv Hdec].
  destruct (gen_decode_ok w i).
  - rewrite Hadv. apply IH.
  - rewrite Hdec. reflexivity.
Qed.

Lemma prepend_stream_loop (w : World) (t : list Event) :
  forall (n i : nat) (st : State) (cached : list Z),
    stream_loop w n i (prepend_trace t st) cached
    = (prepend_trace t (fst (fst (stream_loop w n i st cached))),
       snd (fst (stream_loop w n i st cached)),
       snd (stream_loop w n i st cached)).
Proof.
  induction n as [|n IH]; intros i st cached; [reflexivity|].
  cbn [stream_loop]. rewrite prepend_shift_if_full.
  destruct (llama_vocab_is_eog w _); [reflexivity|].
  rewrite prepend_deliver.
  destruct (deliver_if_valid w i (shift_if_full st) _) as [[st2 cached2] brk].
  cbn [fst snd]. destruct brk; [reflexivity|].
  destruct (prepend_advance t (gen_decode_ok w i) (common_sampler_sample w i) st2)
    as [Hadv Hdec].
  destruct (gen_decode_ok w i).
  - rewrite Hadv. apply IH.
  - rewrite Hdec. reflexivity.
Qed.

Lemma prepend_nativeGenerate (w : World) (prompt : list Z) (maxTokens : Z)
      (t : list Event) (st : State) :
  nativeGenerate w prompt maxTokens (prepend_trace t st)
  = (fst (nativeGenerate w prompt maxTokens st),
     prepend_trace t (snd (nativeGenerate w prompt maxTokens st))).
Proof.
  unfold nativeGenerate.
  change (g_model (prepend_trace t st)) with (g_model st).
  change (g_context (prepend_trace t st)) with (g_context st).
  destruct (negb (g_model st) || negb (g_context st)); [reflexivity|].
  change (reset_gen_state (reset_chat_state true (prepend_trace t st)))
    with (prepend_trace t (reset_gen_state (reset_chat_state true st))).
  set (st1 := reset_gen_state (reset_chat_state true st)).
  change (truncate_prompt (prepend_trace t st1)) with (truncate_prompt st1).
  destruct (truncate_prompt st1 _ _) as [kept | e |]; try reflexivity.
  unfold decode_batched. rewrite prepend_decode_batched_from.
  destruct (decode_batched_from _ w kept 0 true 0 0 st1) as [[rc st2]|]; [|reflexivity].
  destruct (negb (rc =? 0)); [reflexivity|].
  change (with_pos (prepend_trace t st2) ?p) with (prepend_trace t (with_pos st2 p)).
  rewrite prepend_generate_loop.
  destruct (generate_loop w _ 0 _ []) as [[st4 result] stop]. reflexivity.
Qed.

Lemma prepend_nativeGenerateStream (w : World) (prompt : list Z) (maxTokens : Z)
      (t : list Event) (st : State) :
  nativeGenerateStream w prompt maxTokens (prepend_trace t st)
  = (fst (nativeGenerateStream w prompt maxTokens st),
     prepend_trace t (snd (nativeGenerateStream w prompt maxTokens st))).
Proof.
  unfold nativeGenerateStream.
  change (g_model (prepend_trace t st)) with (g_model st).
  change (g_context (prepend_trace t st)) with (g_context st).
  destruct (negb (g_model st) || negb (g_context st)); [reflexivity|].
  change (reset_gen_state (reset_chat_state true (prepend_trace t st)))
    with (prepend_trace t (reset_gen_state (reset_chat_state true st))).
  set (st1 := reset_gen_state (reset_chat_state true st)).
  change (truncate_prompt (prepend_trace t st1)) with (truncate_prompt st1).
  destruct (truncate_prompt st1 _ _) as [kept | e |]; try reflexivity.
  unfold decode_batched. rewrite prepend_decode_batched_from.
  destruct (decode_batched_from _ w kept 0 true 0 0 st1) as [[rc st2]|]; [|reflexivity].
  destruct (negb (rc =? 0)); [reflexivity|].
  destruct (negb (has_onToken w)); [reflexivity|].
  change (with_pos (prepend_trace t st2) ?p) with (prepend_trace t (with_pos st2 p)).
  rewrite prepend_stream_loop.
  destruct (stream_loop w _ 0 _ []) as [[st4 cached] stop]. reflexivity.
Qed.

Lemma reset_is_clean (st : State) :
  g_model st = true -> g_context st = true ->
  reset_gen_state (reset_chat_state true st) = prepend_trace (trace st) (clean_session st).
Proof.
  intros Hm Hc. unfold reset_gen_state, reset_chat_state, prepend_trace, clean_session.
  cbn. rewrite Hm, Hc, app_nil_r. reflexivity.
Qed.

Lemma nativeGenerate_from_clean (w : World) (prompt : list Z) (maxTokens : Z) (st : State) :
  g_model st = true -> g_context st = true ->
  nativeGenerate w prompt maxTokens st
  = (fst (nativeGenerate w prompt maxTokens (clean_session st)),
     prepend_trace (trace st) (snd (nativeGenerate w prompt maxTokens (clean_session st)))).
Proof.
  intros Hm Hc. rewrite <- prepend_nativeGenerate.
  unfold nativeGenerate at 1 2. rewrite Hm, Hc.
  change (g_model (prepend_trace (trace st) (clean_session st))) with true.
  change (g_context (prepend_trace (trace st) (clean_session st))) with true.
  cbn [negb orb]. rewrite (reset_is_clean st Hm Hc). reflexivity.
Qed.

Lemma nativeGenerateStream_from_clean (w : World) (prompt : list Z) (maxTokens : Z)
      (st : State) :
  g_model st = true -> g_context st = true ->
  nativeGenerateStream w prompt maxTokens st
  = (fst (nativeGenerateStream w prompt maxTokens (clean_session st)),
     prepend_trace (trace st)
                   (snd (nativeGenerateStream w prompt maxTokens (clean_session st)))).
Proof.
  intros Hm Hc. rewrite <- prepend_nativeGenerateStream.
  unfold nativeGenerateStream at 1 2. rewrite Hm, Hc.
  change (g_model (prepend_trace (trace st) (clean_session st))) with true.
  change (g_context (prepend_trace (trace st) (clean_session st))) with true.
  cbn [negb orb]. rewrite (reset_is_clean st Hm Hc). reflexivity.
Qed.

(** X12.  A request does not see what earlier requests left behind.  Two
    loaded sessions with the same capacity and batch size (and the same
    pending-exception flag) answer a request alike, whatever their cursor,
    boundary, chat history, cached characters and context memory: the
    results are equal, the external calls made are the same, and the sessions
    end in the same state. *)
Theorem requests_start_clean (w : World) (prompt : list Z) (maxTokens : Z)
        (a b : State) :
  g_model a = true -> g_context a = true ->
  g_model b = true -> g_context b = true ->
  g_context_size a = g_context_size b ->
  g_batch_size a = g_batch_size b ->
  jni_pending a = jni_pending b ->
  (fst (nativeGenerate w prompt maxTokens a) = fst (nativeGenerate w prompt maxTokens b)
   /\ forget_trace (snd (nativeGenerate w prompt maxTokens a))
      = forget_trace (snd (nativeGenerate w prompt maxTokens b))
   /\ exists evs,
       trace (snd (nativeGenerate w prompt maxTokens a)) = trace a ++ evs
       /\ trace (snd (nativeGenerate w prompt maxTokens b)) = trace b ++ evs)
  /\ (fst (nativeGenerateStream w prompt maxTokens a)
      = fst (nativeGenerateStream w prompt maxTokens b)
      /\ forget_trace (snd (nativeGenerateStream w prompt maxTokens a))
         = forget_trace (snd (nativeGenerateStream w prompt maxTokens b))
      /\ exists evs,
          trace (snd (nativeGenerateStream w prompt maxTokens a)) = trace a ++ evs
          /\ trace (snd (nativeGenerateStream w prompt maxTokens b)) = trace b ++ evs).
Proof.
  intros Hma Hca Hmb Hcb Hsz HB Hp.
  assert (Hclean : clean_session a = clean_session b).
  { unfold clean_session. rewrite Hsz, HB, Hp. reflexivity. }
  split.
  - rewrite (nativeGenerate_from_clean w prompt maxTokens a Hma Hca).
    rewrite (nativeGenerate_from_clean w prompt maxTokens b Hmb Hcb).
    rewrite Hclean. cbn [fst snd]. split; [reflexivity|]. split; [reflexivity|].
    eexists. split; reflexivity.
  - rewrite (nativeGenerateStream_from_clean w prompt maxTokens a Hma Hca).
    rewrite (nativeGenerateStream_from_clean w prompt maxTokens b Hmb Hcb).
    rewrite Hclean. cbn [fst snd]. split; [reflexivity|]. split; [reflexivity|].
    eexists. split; reflexivity.
Qed.

Lemma requests_start_clean_witness :
  (fst (nativeGenerate quiet_world [1; 2; 3] 4 used_state)
   = fst (nativeGenerate quiet_world [1; 2; 3] 4 scenario_A_state)
   /\ forget_trace (snd (nativeGenerate quiet_world [1; 2; 3] 4 used_state))
      = forget_trace (snd (nativeGenerate quiet_world [1; 2; 3] 4 scenario_A_state))
   /\ exists evs,
       trace (snd (nativeGenerate quiet_world [1; 2; 3] 4 used_state))
       = trace used_state ++ evs
       /\ trace (snd (nativeGenerate quiet_world [1; 2; 3] 4 scenario_A_state))
          = trace scenario_A_state ++ evs)
  /\ (fst (nativeGenerateStream quiet_world [1; 2; 3] 4 used_state)
      = fst (nativeGenerateStream quiet_world [1; 2; 3] 4 scenario_A_state)
      /\ forget_trace (snd (nativeGenerateStream quiet_world [1; 2; 3] 4 used_state))
         = forget_trace (snd (nativeGenerateStream quiet_world [1; 2; 3] 4 scenario_A_state))
      /\ exists evs,
          trace (snd (nativeGenerateStream quiet_world [1; 2; 3] 4 used_state))
          = trace used_state ++ evs
          /\ trace (snd (nativeGenerateStream quiet_world [1; 2; 3] 4 scenario_A_state))
             = trace scenario_A_state ++ evs).
Proof.
  apply (requests_start_clean quiet_world [1; 2; 3] 4 used_state scenario_A_state);
    reflexivity.
Defined.

(** ** Loading and unloading *)

(** X13.  What [nativeLoadModel] leaves behind.  When the model file cannot
    be loaded the session is untouched and the handle is 0.  Otherwise the
    context is requested with the given size, batches of 512 and a thread
    count between 2 and [max(2, threads)]; if it cannot be created the handle
    is 0 and the session is unloaded, so a synchronous request answers
    "[Error: Model not loaded]" even if a model was loaded before; if it is
    created the handle is the model's address and the session is loaded and
    clean, with the requested capacity, and satisfies the window invariant
    for a capacity of at least 6. *)
Theorem load_model_outcomes (lw : LoadWorld) (contextSize threads : Z) (st : State)
        (w : World) (prompt : list Z) (maxTokens : Z) :
  let r := nativeLoadModel lw contextSize threads st in
  let n_threads := load_threads lw threads in
  (llama_model_load_from_file lw = 0 -> r = (0, st))
  /\ 2 <= n_threads <= Z.max 2 threads
  /\ (llama_model_load_from_file lw <> 0 ->
      llama_init_from_model lw contextSize 512 n_threads = false ->
      fst r = 0
      /\ g_model (snd r) = false /\ g_context (snd r) = false
      /\ nativeGenerate w prompt maxTokens (snd r) = (Returned error_not_loaded, snd r))
  /\ (llama_model_load_from_file lw <> 0 ->
      llama_init_from_model lw contextSize 512 n_threads = true ->
      fst r = llama_model_load_from_file lw
      /\ snd r = prepend_trace (trace st)
                   (clean_session (with_model st contextSize))
      /\ g_context_size (snd r) = contextSize /\ g_batch_size (snd r) = 512
      /\ (6 <= contextSize <= Int32.INT_MAX -> window_ok (snd r))).
Proof.
  intros r n_threads. subst r. unfold nativeLoadModel.
  split.
  { intros ->. reflexivity. }
  split.
  { unfold n_threads, load_threads. lia. }
  split.
  - intros Hmodel Hinit.
    replace (llama_model_load_from_file lw =? 0) with false by lia.
    cbn [g_batch_size with_model]. fold n_threads. rewrite Hinit. cbn [negb fst snd].
    split; [reflexivity|]. split; [reflexivity|]. split; [reflexivity|].
    unfold nativeGenerate. reflexivity.
  - intros Hmodel Hinit.
    replace (llama_model_load_from_file lw =? 0) with false by lia.
    cbn [g_batch_size with_model]. fold n_threads. rewrite Hinit. cbn [negb fst snd].
    split; [reflexivity|].
    split. { unfold prepend_trace, clean_session. cbn. rewrite app_nil_r. reflexivity. }
    split; [reflexivity|]. split; [reflexivity|].
    intros Hsize. unfold window_ok. cbn.
    split; [exact Hsize|]. split; [reflexivity|]. split; [lia|].
    split; [reflexivity | constructor].
Qed.

Lemma load_model_outcomes_witness :
  fst (nativeLoadModel working_loader 4096 4 unloaded_state) = 4096
  /\ snd (nativeLoadModel working_loader 4096 4 unloaded_state) = default_state
  /\ fst (nativeLoadModel no_context_loader 4096 4 used_state) = 0
  /\ fst (nativeGenerate quiet_world [104; 105] 8
            (snd (nativeLoadModel no_context_loader 4096 4 used_state)))
     = Returned error_not_loaded.
Proof.
  pose proof (load_model_outcomes working_loader 4096 4 unloaded_state
                quiet_world [104; 105] 8) as Hok.
  pose proof (load_model_outcomes no_context_loader 4096 4 used_state
                quiet_world [104; 105] 8) as Hfail.
  cbv zeta in Hok, Hfail.
  destruct Hok as (_ & _ & _ & Hok).
  destruct Hfail as (_ & _ & Hfail & _).
  destruct (Hok ltac:(cbn; lia) eq_refl) as (Hhandle & Hstate & _).
  destruct (Hfail ltac:(cbn; lia) eq_refl) as (Hzero & _ & _ & Hgen).
  split; [exact Hhandle|].
  split; [rewrite Hstate; reflexivity|].
  split; [exact Hzero|].
  rewrite Hgen. reflexivity.
Defined.

(** X14.  [nativeFreeModel], whatever handle is passed, calls
    [llama_batch_free(g_batch)] without a test.  As long as the storage of
    [g_batch] was never allocated or is live, the call unloads the session
    whatever it was: model and context are null, the conversation state is
    reset, nothing is decoded and no consumer is called; afterwards a
    synchronous request answers "[Error: Model not loaded]", a streaming
    request returns without calling the consumer and tokenizing gives an
    empty array, each leaving the state as it is.  After a successful
    [nativeLoadModel] the first [nativeFreeModel] releases the storage and
    leaves its addresses in [g_batch], so a second one frees it again: its
    behaviour is undefined.  On a session that never loaded a model the call
    can be repeated. *)
Theorem free_model_unloads (lw : LoadWorld) (contextSize threads handle handle' : Z)
        (st : State) (b : BatchStorage) (w : World) (prompt : list Z) (maxTokens : Z) :
  let freed := mkState false false (g_context_size st) (g_batch_size st)
                       [] 0 0 0 [] [] [] (jni_pending st) (trace st) in
  let loaded := nativeLoadModel lw contextSize threads st in
  (b <> BatchReleased ->
   exists b',
     nativeFreeModel handle st b = Some (freed, b')
     /\ (b = BatchAllocated -> b' = BatchReleased)
     /\ (b = BatchNull -> b' = BatchNull)
     /\ nativeGenerate w prompt maxTokens freed = (Returned error_not_loaded, freed)
     /\ nativeGenerateStream w prompt maxTokens freed = (Returned tt, freed)
     /\ nativeTokenize w prompt freed
        = ((if new_int_array_ok w then Some [] else None), freed))
  /\ (fst loaded <> 0 ->
      exists st',
        nativeFreeModel handle (snd loaded) (batch_after_load (fst loaded) b)
        = Some (st', BatchReleased)
        /\ g_model st' = false /\ g_context st' = false
        /\ nativeFreeModel handle' st' BatchReleased = None)
  /\ nativeFreeModel handle st BatchNull = Some (freed, BatchNull)
  /\ nativeFreeModel handle' freed BatchNull = Some (freed, BatchNull).
Proof.
  intros freed loaded. split; [|split; [|split; reflexivity]].
  - intros Hb. destruct b; [exists BatchNull | exists BatchReleased | contradiction];
      (split; [reflexivity|]); (split; [intros H; try reflexivity; discriminate H|]);
      (split; [intros H; try reflexivity; discriminate H|]);
      repeat split.
  - intros Hload. unfold batch_after_load.
    replace (fst loaded =? 0) with false by lia.
    eexists. split; [reflexivity|]. repeat split.
Qed.

Lemma free_model_unloads_witness :
  let loaded := nativeLoadModel working_loader 4096 4 unloaded_state in
  (exists b',
      nativeFreeModel 4096 used_state BatchAllocated
      = Some (mkState false false 16 4 [] 0 0 0 [] [] [] false
                      [EvShift 3; EvOnToken [0x61] false], b')
      /\ b' = BatchReleased)
  /\ (exists st',
         nativeFreeModel 4096 (snd loaded) (batch_after_load (fst loaded) BatchNull)
         = Some (st', BatchReleased)
         /\ g_model st' = false /\ g_context st' = false
         /\ nativeFreeModel 4096 st' BatchReleased = None).
Proof.
  intros loaded.
  destruct (free_model_unloads working_loader 4096 4 4096 4096 used_state BatchAllocated
              quiet_world [104; 105] 8) as [Hfree _].
  destruct (free_model_unloads working_loader 4096 4 4096 4096 unloaded_state BatchNull
              quiet_world [104; 105] 8) as [_ [Htwice _]].
  split.
  - destruct (Hfree ltac:(discriminate)) as [b' [Hrun [Hb' _]]].
    exists b'. split; [exact Hrun | apply Hb'; reflexivity].
  - apply Htwice. cbn. lia.
Defined.

(* ========================================================================= *)
(** * The requests end to end *)
(* ========================================================================= *)

(** ** How far the generation loops get *)

Lemma steps_run_none (w : World) (i : nat) : steps_run w i 0 0 StopBudget.
Proof.
  unfold steps_run. split; [lia|]. split; [intros j Hj; lia|].
  split; [intros j Hj; lia|]. split; [reflexivity | intros j Hj; lia].
Qed.

Lemma steps_run_eog (w : World) (i n : nat) :
  llama_vocab_is_eog w (common_sampler_sample w i) = true ->
  steps_run w i (S n) 0 StopEog.
Proof.
  intros Heog. unfold steps_run. split; [lia|]. split; [intros j Hj; lia|].
  split; [intros j Hj; lia|]. split; [lia|].
  split; [rewrite Nat.add_0_r; exact Heog | intros j Hj; lia].
Qed.

Lemma steps_run_failed (w : World) (i n : nat) :
  llama_vocab_is_eog w (common_sampler_sample w i) = false ->
  gen_decode_ok w i = false ->
  steps_run w i (S n) 1 StopDecodeFailed.
Proof.
  intros Heog Hfail. unfold steps_run. split; [lia|].
  split. { intros j Hj. replace j with 0%nat by lia. rewrite Nat.add_0_r. exact Heog. }
  split; [intros j Hj; lia|].
  exists 0%nat. rewrite Nat.add_0_r. split; [reflexivity | exact Hfail].
Qed.

Lemma steps_run_cancelled (w : World) (i n : nat) :
  llama_vocab_is_eog w (common_sampler_sample w i) = false ->
  steps_run w i (S n) 1 StopCancelled.
Proof.
  intros Heog. unfold steps_run. split; [lia|].
  split. { intros j Hj. replace j with 0%nat by lia. rewrite Nat.add_0_r. exact Heog. }
  split; [intros j Hj; lia|].
  exists 0%nat. reflexivity.
Qed.

Lemma steps_run_step (w : World) (i n m : nat) (stop : Stop) :
  llama_vocab_is_eog w (common_sampler_sample w i) = false ->
  gen_decode_ok w i = true ->
  steps_run w (S i) n m stop ->
  steps_run w i (S n) (S m) stop.
Proof.
  intros Heog Hok [Hm [Hne [Hdec Hstop]]].
  assert (Hshift : forall (P : nat -> Prop) (k : nat),
             P i -> (forall j, (j < k)%nat -> P (S i + j)%nat) ->
             forall j, (j < S k)%nat -> P (i + j)%nat).
  { intros P k H0 Hrest [|j] Hj.
    - rewrite Nat.add_0_r. exact H0.
    - rewrite Nat.add_succ_r. apply (Hrest j). lia. }
  unfold steps_run. split; [lia|].
  split.
  { apply (Hshift (fun x => llama_vocab_is_eog w (common_sampler_sample w x) = false));
      assumption. }
  split.
  { intros j Hj.
    apply (Hshift (fun x => gen_decode_ok w x = true) (Nat.pred m)); try assumption; try lia.
    intros j' Hj'. apply Hdec. lia. }
  destruct stop.
  - destruct Hstop as [-> Hall]. split; [reflexivity|].
    apply (Hshift (fun x => gen_decode_ok w x = true)); assumption.
  - destruct Hstop as [Hlt [He Hall]]. split; [lia|].
    split; [rewrite Nat.add_succ_r; exact He|].
    apply (Hshift (fun x => gen_decode_ok w x = true)); assumption.
  - destruct Hstop as [j [-> Hf]]. exists (S j).
    split; [reflexivity | rewrite Nat.add_succ_r; exact Hf].
  - destruct Hstop as [j ->]. exists (S j). reflexivity.
Qed.

Lemma submitted_tokens_app (a b : list Event) :
  submitted_tokens (a ++ b) = submitted_tokens a ++ submitted_tokens b.
Proof.
  unfold submitted_tokens. rewrite decoded_batches_app, concat_app, map_app. reflexivity.
Qed.

Lemma submitted_tokens_quiet (sh : list Event) :
  decoded_batches sh = [] -> submitted_tokens sh = [].
Proof. unfold submitted_tokens. intros ->. reflexivity. Qed.

(** The synchronous loop: the steps it ran, the text it accumulated and the
    tokens it submitted. *)
Lemma generate_loop_steps (w : World) :
  forall (n i : nat) (st : State) (result : list Z),
  exists m evs,
    steps_run w i n m (snd (generate_loop w n i st result))
    /\ snd (generate_loop w n i st result) <> StopCancelled
    /\ snd (fst (generate_loop w n i st result)) = result ++ fragments w i m
    /\ trace (fst (fst (generate_loop w n i st result))) = trace st ++ evs
    /\ submitted_tokens evs = map (common_sampler_sample w) (seq i m)
    /\ delivered evs = [].
Proof.
  induction n as [|n IH]; intros i st result.
  { exists 0%nat, []. cbn [generate_loop fst snd]. unfold fragments. cbn [seq map concat].
    rewrite !app_nil_r. split; [apply steps_run_none|]. split; [discriminate|].
    repeat split. }
  cbn [generate_loop].
  destruct (shift_if_full_trace st) as [sh [Htr [Hdel [Hdb _]]]].
  set (st1 := shift_if_full st) in *.
  set (id := common_sampler_sample w i).
  destruct (llama_vocab_is_eog w id) eqn:Heog.
  { exists 0%nat, sh. cbn [fst snd]. unfold fragments. cbn [seq map concat].
    rewrite app_nil_r. split; [apply steps_run_eog; exact Heog|]. split; [discriminate|].
    split; [reflexivity|]. split; [exact Htr|].
    split; [apply submitted_tokens_quiet; exact Hdb | exact Hdel]. }
  destruct (gen_decode_ok w i) eqn:Hok.
  - set (st2 := with_pos _ _).
    destruct (IH (S i) st2 (result ++ common_token_to_piece w id))
      as [m [evs [Hsteps [Hstop [Hres [Htr' [Htok Hdel']]]]]]].
    exists (S m), (sh ++ [EvDecode [mkEntry id (g_current_pos st1) [0] true] true] ++ evs).
    split; [apply steps_run_step; assumption|]. split; [exact Hstop|].
    split.
    { rewrite Hres. unfold fragments. cbn [seq map concat]. fold id.
      rewrite <- app_assoc. reflexivity. }
    split.
    { rewrite Htr'. unfold st2. cbn. fold st1. rewrite Htr, <- !app_assoc. reflexivity. }
    rewrite !submitted_tokens_app, !delivered_app, Htok, Hdel', Hdel.
    rewrite (submitted_tokens_quiet sh Hdb).
    split; reflexivity.
  - exists 1%nat, (sh ++ [EvDecode [mkEntry id (g_current_pos st1) [0] true] false]).
    cbn [fst snd]. split; [apply steps_run_failed; assumption|]. split; [discriminate|].
    split. { unfold fragments. cbn [seq map concat]. rewrite app_nil_r. reflexivity. }
    split. { cbn. fold st1. rewrite Htr, <- !app_assoc. reflexivity. }
    rewrite !submitted_tokens_app, !delivered_app, Hdel.
    rewrite (submitted_tokens_quiet sh Hdb).
    split; reflexivity.
Qed.

Lemma fragments_step (w : World) (i m : nat) :
  fragments w i (S m)
  = common_token_to_piece w (common_sampler_sample w i) ++ fragments w (S i) m.
Proof. reflexivity. Qed.

Lemma fragments_none (w : World) (i : nat) : fragments w i 0 = [].
Proof. reflexivity. Qed.

(** The streaming loop: the steps it ran, the buffers it handed over, each
    read as a C string by the consumer, the bytes it kept and the tokens it
    submitted. *)
Lemma stream_loop_steps (w : World) :
  forall (n i : nat) (st : State) (cached : list Z),
  exists m evs bufs,
    steps_run w i n m (snd (stream_loop w n i st cached))
    /\ trace (fst (fst (stream_loop w n i st cached))) = trace st ++ evs
    /\ delivered evs = map c_str bufs
    /\ Forall (fun b => is_valid_utf8 (Some b) = true) bufs
    /\ cached ++ fragments w i m
       = concat bufs ++ snd (fst (stream_loop w n i st cached))
    /\ (cached = [] \/ is_valid_utf8 (Some cached) = false ->
        snd (fst (stream_loop w n i st cached)) = []
        \/ is_valid_utf8 (Some (snd (fst (stream_loop w n i st cached)))) = false)
    /\ submitted_tokens evs
       = map (common_sampler_sample w)
             (seq i (match snd (stream_loop w n i st cached) with
                     | StopCancelled => Nat.pred m
                     | _ => m
                     end))
    /\ (snd (stream_loop w n i st cached) = StopCancelled ->
        snd (fst (stream_loop w n i st cached)) = []
        /\ exists pre chunk threw, evs = pre ++ [EvOnToken chunk threw])
    /\ (nul_free cached -> (forall id, nul_free (common_token_to_piece w id)) ->
        bufs = delivered evs).
Proof.
  induction n as [|n IH]; intros i st cached.
  { exists 0%nat, [], []. cbn [stream_loop fst snd]. rewrite fragments_none, !app_nil_r.
    split; [apply steps_run_none|]. split; [reflexivity|]. split; [reflexivity|].
    split; [constructor|]. split; [reflexivity|]. split; [intros H; exact H|].
    split; [reflexivity|]. split; [discriminate|]. intros _ _. reflexivity. }
  cbn [stream_loop].
  destruct (shift_if_full_trace st) as [sh [Htr [Hdel [Hdb _]]]].
  pose proof (submitted_tokens_quiet sh Hdb) as Htok.
  set (st1 := shift_if_full st) in *.
  set (id := common_sampler_sample w i).
  destruct (llama_vocab_is_eog w id) eqn:Heog.
  { exists 0%nat, sh, []. cbn [fst snd]. rewrite fragments_none, !app_nil_r.
    split; [apply steps_run_eog; exact Heog|]. split; [exact Htr|]. split; [exact Hdel|].
    split; [constructor|]. split; [reflexivity|]. split; [intros H; exact H|].
    split; [exact Htok|]. split; [discriminate|]. intros _ _. rewrite Hdel. reflexivity. }
  set (piece := common_token_to_piece w id).
  set (cached1 := cached ++ piece).
  assert (Hnf : nul_free cached -> (forall id, nul_free (common_token_to_piece w id)) ->
                nul_free cached1).
  { intros H1 H2. unfold cached1, nul_free. apply Forall_app. split; [exact H1 | apply H2]. }
  unfold deliver_if_valid.
  destruct (is_valid_utf8 (Some cached1)) eqn:Hvalid.
  - (* the buffer validates: it is handed over and cleared *)
    set (ev := EvOnToken (c_str cached1) (on_token_throws w i)).
    set (st_cb := call_on_token (c_str cached1) (on_token_throws w i) st1).
    assert (Htr_cb : trace st_cb = trace st ++ sh ++ [ev]).
    { unfold st_cb. cbn. fold st1. rewrite Htr, <- app_assoc. reflexivity. }
    destruct (jni_pending st_cb) eqn:Hpend.
    + exists 1%nat, (sh ++ [ev]), [cached1]. cbn [fst snd].
      rewrite fragments_step, fragments_none, !app_nil_r. fold id. fold piece.
      split; [apply steps_run_cancelled; exact Heog|].
      split; [exact Htr_cb|].
      split. { rewrite delivered_app, Hdel. reflexivity. }
      split; [constructor; [exact Hvalid | constructor]|].
      split. { cbn [concat]. rewrite !app_nil_r. reflexivity. }
      split; [intros _; left; reflexivity|].
      split. { rewrite submitted_tokens_app, Htok. reflexivity. }
      split. { intros _. split; [reflexivity|]. exists sh, (c_str cached1), (on_token_throws w i).
               reflexivity. }
      intros H1 H2. rewrite delivered_app, Hdel. cbn.
      rewrite c_str_nul_free by auto. reflexivity.
    + destruct (gen_decode_ok w i) eqn:Hok.
      * set (st3 := with_pos _ _).
        destruct (IH (S i) st3 [])
          as [m [evs [bufs [Hsteps [Htr' [Hd [Hall [Hcons [Hres [Htoks [Hcan Hnul]]]]]]]]]]].
        assert (Htr3 : trace st3
                       = trace st ++ sh ++ [ev]
                           ++ [EvDecode [mkEntry id (g_current_pos st_cb) [0] true] true]).
        { unfold st3. cbn [trace with_pos decode_one llama_decode with_kv log].
          rewrite Htr_cb, <- !app_assoc. reflexivity. }
        destruct (stream_loop w n (S i) st3 []) as [[st' residue] stop].
        cbn [fst snd] in *.
        exists (S m),
          (sh ++ [ev] ++ [EvDecode [mkEntry id (g_current_pos st_cb) [0] true] true] ++ evs),
          (cached1 :: bufs).
        split; [apply steps_run_step; assumption|].
        split. { rewrite Htr', Htr3, <- !app_assoc. reflexivity. }
        split. { rewrite !delivered_app, Hdel, Hd. reflexivity. }
        split; [constructor; [exact Hvalid | exact Hall]|].
        split.
        { rewrite fragments_step. fold id. fold piece. cbn [concat app] in *.
          rewrite <- app_assoc, <- Hcons. unfold cached1.
          rewrite <- !app_assoc. reflexivity. }
        split; [intros _; apply Hres; left; reflexivity|].
        split.
        { rewrite !submitted_tokens_app, Htok, Htoks.
          destruct stop; try reflexivity.
          destruct Hsteps as [_ [_ [_ [j ->]]]]. reflexivity. }
        split.
        { intros Hs. destruct (Hcan Hs) as [Hr [pre [chunk [threw ->]]]].
          split; [exact Hr|].
          exists (sh ++ [ev] ++ [EvDecode [mkEntry id (g_current_pos st_cb) [0] true] true]
                     ++ pre), chunk, threw.
          rewrite <- !app_assoc. reflexivity. }
        intros H1 H2. rewrite !delivered_app, Hdel. cbn.
        rewrite c_str_nul_free by auto. f_equal. apply Hnul; [constructor | exact H2].
      * exists 1%nat,
          (sh ++ [ev] ++ [EvDecode [mkEntry id (g_current_pos st_cb) [0] true] false]),
          [cached1].
        cbn [fst snd].
        rewrite fragments_step, fragments_none, !app_nil_r. fold id. fold piece.
        split; [apply steps_run_failed; assumption|].
        split.
        { cbn [trace decode_one llama_decode with_kv log].
          rewrite Htr_cb, <- !app_assoc. reflexivity. }
        split. { rewrite !delivered_app, Hdel. reflexivity. }
        split; [constructor; [exact Hvalid | constructor]|].
        split. { cbn [concat]. rewrite !app_nil_r. reflexivity. }
        split; [intros _; left; reflexivity|].
        split. { rewrite !submitted_tokens_app, Htok. reflexivity. }
        split; [discriminate|].
        intros H1 H2. rewrite !delivered_app, Hdel. cbn.
        rewrite c_str_nul_free by auto. reflexivity.
  - (* the buffer does not validate: nothing is handed over, the bytes stay *)
    destruct (gen_decode_ok w i) eqn:Hok.
    + set (st3 := with_pos _ _).
      destruct (IH (S i) st3 cached1)
        as [m [evs [bufs [Hsteps [Htr' [Hd [Hall [Hcons [Hres [Htoks [Hcan Hnul]]]]]]]]]]].
      assert (Htr3 : trace st3
                     = trace st ++ sh
                         ++ [EvDecode [mkEntry id (g_current_pos st1) [0] true] true]).
      { unfold st3. cbn [trace with_pos decode_one llama_decode with_kv log].
        fold st1. rewrite Htr, <- !app_assoc. reflexivity. }
      destruct (stream_loop w n (S i) st3 cached1) as [[st' residue] stop].
      cbn [fst snd] in *.
      exists (S m),
        (sh ++ [EvDecode [mkEntry id (g_current_pos st1) [0] true] true] ++ evs), bufs.
      split; [apply steps_run_step; assumption|].
      split. { rewrite Htr', Htr3, <- !app_assoc. reflexivity. }
      split. { rewrite !delivered_app, Hdel, Hd. reflexivity. }
      split; [exact Hall|].
      split.
      { rewrite fragments_step. fold id. fold piece.
        rewrite <- Hcons. unfold cached1. rewrite <- !app_assoc. reflexivity. }
      split; [intros _; apply Hres; right; exact Hvalid|].
      split.
      { rewrite !submitted_tokens_app, Htok, Htoks.
        destruct stop; try reflexivity.
        destruct Hsteps as [_ [_ [_ [j ->]]]]. reflexivity. }
      split.
      { intros Hs. destruct (Hcan Hs) as [Hr [pre [chunk [threw ->]]]].
        split; [exact Hr|].
        exists (sh ++ [EvDecode [mkEntry id (g_current_pos st1) [0] true] true] ++ pre),
          chunk, threw.
        rewrite <- !app_assoc. reflexivity. }
      intros H1 H2. rewrite !delivered_app, Hdel. cbn. apply Hnul; auto.
    + exists 1%nat, (sh ++ [EvDecode [mkEntry id (g_current_pos st1) [0] true] false]), [].
      cbn [fst snd].
      rewrite fragments_step, fragments_none, !app_nil_r. fold id. fold piece.
      split; [apply steps_run_failed; assumption|].
      split.
      { cbn [trace decode_one llama_decode with_kv log].
        fold st1. rewrite Htr, <- !app_assoc. reflexivity. }
      split. { rewrite !delivered_app, Hdel. reflexivity. }
      split; [constructor|].
      split; [reflexivity|].
      split; [intros _; right; exact Hvalid|].
      split. { rewrite !submitted_tokens_app, Htok. reflexivity. }
      split; [discriminate|].
      intros H1 H2. rewrite !delivered_app, Hdel. reflexivity.
Qed.

Lemma steps_run_unique (w : World) (i n m m' : nat) (stop stop' : Stop) :
  steps_run w i n m stop -> steps_run w i n m' stop' ->
  stop <> StopCancelled -> stop' <> StopCancelled ->
  m = m'.
Proof.
  assert (Hlt : forall a b sa sb,
             steps_run w i n a sa -> steps_run w i n b sb ->
             sa <> StopCancelled -> (a < b)%nat -> False).
  { intros a b sa sb [Ha [_ [_ Hsa]]] [Hb [Hne [Hdec _]]] Hnc Hab.
    destruct sa.
    - destruct Hsa as [-> _]. lia.
    - destruct Hsa as [_ [He _]]. rewrite (Hne a Hab) in He. discriminate.
    - destruct Hsa as [j [-> Hf]]. rewrite (Hdec j Hab) in Hf. discriminate.
    - apply Hnc. reflexivity. }
  intros H H' Hs Hs'.
  destruct (Nat.lt_trichotomy m m') as [Hc | [Hc | Hc]]; [exfalso | exact Hc | exfalso].
  - exact (Hlt m m' stop stop' H H' Hs Hc).
  - exact (Hlt m' m stop' stop H' H Hs' Hc).
Qed.

(** ** Text that holds a NUL *)

Lemma nul_free_or_cut (v : list Z) :
  nul_free v \/ (forall u, c_str (v ++ u) = c_str v).
Proof.
  induction v as [|b v [IH | IH]].
  - left. constructor.
  - destruct (b =? 0) eqn:Eb.
    + right. intros u. cbn [app c_str]. rewrite Eb. reflexivity.
    + left. constructor; [apply Z.eqb_neq; exact Eb | exact IH].
  - right. intros u. cbn [app c_str]. rewrite IH. reflexivity.
Qed.

(** Valid text followed by one incomplete unit is surfaced as the valid text,
    whether the trimming removes the unit or a NUL hides it. *)
Lemma validate_output_any (v u : list Z) :
  utf8_scan v = true -> incomplete_unit u ->
  c_str (validate_output (v ++ u)) = c_str v.
Proof.
  intros Hv Hu. destruct (nul_free_or_cut v) as [Hnf | Hcut].
  - destruct (validate_output_trims v u Hnf Hv Hu) as [_ ->]. reflexivity.
  - unfold validate_output. cbn [is_valid_utf8].
    rewrite <- utf8_scan_c_str, Hcut, utf8_scan_c_str, Hv. cbn [negb]. apply Hcut.
Qed.

(** What [nativeGenerate] makes of an accumulated output. *)
Lemma surfaced_cases (output : list Z) :
  (is_valid_utf8 (Some output) = true ->
   c_str (validate_output output) = c_str output
   /\ is_valid_utf8 (Some (c_str (validate_output output))) = true)
  /\ (forall v u,
        output = v ++ u -> is_valid_utf8 (Some v) = true -> incomplete_unit u ->
        c_str (validate_output output) = c_str v
        /\ is_valid_utf8 (Some (c_str (validate_output output))) = true).
Proof.
  split.
  - intros Hvalid. unfold validate_output. rewrite Hvalid. cbn [negb].
    split; [reflexivity|]. cbn [is_valid_utf8] in *. rewrite utf8_scan_c_str. exact Hvalid.
  - intros v u -> Hv Hu. cbn [is_valid_utf8] in *.
    rewrite (validate_output_any v u Hv Hu).
    split; [reflexivity|]. rewrite utf8_scan_c_str. exact Hv.
Qed.

(** Buffers that validate one by one validate when put together. *)
Lemma bufs_scan (bufs : list (list Z)) :
  Forall (fun b => is_valid_utf8 (Some b) = true) bufs ->
  utf8_scan (concat bufs) = true.
Proof.
  induction 1 as [|b bufs Hb _ IH]; [reflexivity|].
  cbn [concat is_valid_utf8] in *.
  destruct (nul_free_or_cut b) as [Hnf | Hcut].
  - change (utf8_scan (b ++ concat bufs)) with (expect_conts 0 (b ++ concat bufs)).
    rewrite (expect_conts_app b _ Hnf 0%nat Hb). exact IH.
  - rewrite <- utf8_scan_c_str, Hcut, utf8_scan_c_str. exact Hb.
Qed.

(** ** The truncation with a bound that is not negative *)

Lemma truncate_prompt_kept (st : State) (maxTokens : Z) (tokens : list Z) :
  0 <= max_prompt st maxTokens ->
  Z.of_nat (length tokens) <= Int32.INT_MAX ->
  truncate_prompt st maxTokens tokens
  = Returned (spec_kept (max_prompt st maxTokens) tokens).
Proof.
  intros H0 Hn. unfold truncate_prompt, spec_kept.
  rewrite int_of_size_small by assumption.
  assert (Hr : Int32.in_range (max_prompt st maxTokens))
    by (unfold max_prompt, Int32.sub; apply wrap_in_range).
  destruct (_ <? _) eqn:E; [|reflexivity].
  unfold vector_resize, to_size_t.
  rewrite Z.mod_small by int_range.
  replace (_ <=? _) with true by lia. reflexivity.
Qed.

Lemma spec_kept_length (bound : Z) (tokens : list Z) :
  Z.of_nat (length (spec_kept bound tokens)) <= Z.of_nat (length tokens).
Proof.
  unfold spec_kept. destruct (_ <? _); [|lia]. rewrite length_firstn. lia.
Qed.

Lemma spec_kept_cases (bound : Z) (tokens : list Z) :
  0 <= bound ->
  (bound < Z.of_nat (length tokens) ->
   spec_kept bound tokens = firstn (Z.to_nat bound) tokens
   /\ Z.of_nat (length (spec_kept bound tokens)) = bound)
  /\ (Z.of_nat (length tokens) <= bound -> spec_kept bound tokens = tokens).
Proof.
  intros Hb. unfold spec_kept. split.
  - intros Hlt. replace (_ <? _) with true by lia.
    split; [reflexivity|]. rewrite length_firstn. lia.
  - intros Hle. replace (_ <? _) with false by lia. reflexivity.
Qed.

(** ** How the submission of a prompt ends *)

Section PromptOutcome.

Variables (w : World) (tokens : list Z) (start : Z) (ll : bool) (B : Z).

Local Abbreviation n := (Z.of_nat (length tokens)).

Hypothesis HB : 0 < B.
Hypothesis HnB : n + B <= Int32.INT_MAX.

(** [decode_batched] returns 0 exactly when the decode of every chunk
    succeeds, and 1 right after the first decode that fails. *)
Lemma decode_batched_from_outcome :
  forall (fuel k : nat) (i : Z) (st : State),
    g_batch_size st = B -> 0 <= i -> n - i <= Z.of_nat fuel ->
    exists rc st' evs,
      decode_batched_from fuel w tokens start ll k i st = Some (rc, st')
      /\ trace st' = trace st ++ evs
      /\ delivered evs = []
      /\ ((rc = 0
           /\ forall j, i + Z.of_nat j * B < n -> prompt_decode_ok w (k + j) = true)
          \/ (rc = 1
              /\ exists j pre failed,
                  i + Z.of_nat j * B < n
                  /\ prompt_decode_ok w (k + j) = false
                  /\ (forall j', (j' < j)%nat -> prompt_decode_ok w (k + j') = true)
                  /\ evs = pre ++ [EvDecode failed false])).
Proof.
  assert (Hdone : forall fuel k i st,
             n <= i ->
             exists rc st' evs,
               decode_batched_from fuel w tokens start ll k i st = Some (rc, st')
               /\ trace st' = trace st ++ evs
               /\ delivered evs = []
               /\ ((rc = 0
                    /\ forall j, i + Z.of_nat j * B < n -> prompt_decode_ok w (k + j) = true)
                   \/ (rc = 1
                       /\ exists j pre failed,
                           i + Z.of_nat j * B < n
                           /\ prompt_decode_ok w (k + j) = false
                           /\ (forall j', (j' < j)%nat -> prompt_decode_ok w (k + j') = true)
                           /\ evs = pre ++ [EvDecode failed false]))).
  { intros fuel k i st Hi. exists 0, st, [].
    split.
    { destruct fuel; cbn [decode_batched_from];
        rewrite int_of_size_small by int_range;
        replace (i <? n) with false by lia; reflexivity. }
    split; [rewrite app_nil_r; reflexivity|]. split; [reflexivity|].
    left. split; [reflexivity|]. intros j Hj.
    assert (0 <= Z.of_nat j * B) by (apply Z.mul_nonneg_nonneg; lia). lia. }
  induction fuel as [|fuel IH]; intros k i st HBst Hi Hfuel.
  { apply Hdone. lia. }
  destruct (Z_le_gt_dec n i) as [Hge | Hlt]; [apply Hdone; exact Hge|].
  cbn [decode_batched_from].
  rewrite int_of_size_small by int_range.
  replace (i <? n) with true by lia.
  rewrite HBst, (sub_small n i), (add_small i B) by int_range.
  set (c := _ <=? _).
  destruct (shift_trace st c) as [d Htr].
  assert (Hsh : delivered (if c then [EvShift d] else []) = []) by (destruct c; reflexivity).
  assert (HB1 : g_batch_size (if c then shift_context st else st) = B)
    by (destruct c; exact HBst).
  set (st1 := if c then shift_context st else st) in *.
  set (batch := fill_batch _ _ _ _ _ _ _).
  destruct (prompt_decode_ok w k) eqn:Hok.
  - destruct (IH (S k) (i + B) (llama_decode true batch st1))
      as [rc [st' [evs [Hrun [Htr' [Hdel Hcase]]]]]]; [exact HB1 | lia | lia |].
    exists rc, st', ((if c then [EvShift d] else []) ++ [EvDecode batch true] ++ evs).
    split; [exact Hrun|].
    split.
    { rewrite Htr'. cbn [llama_decode trace with_kv log]. rewrite Htr, <- !app_assoc.
      reflexivity. }
    split. { rewrite !delivered_app, Hsh, Hdel. reflexivity. }
    destruct Hcase as [[Hrc Hall] | [Hrc [j [pre [failed [Hj [Hf [Hbefore Hevs]]]]]]]].
    + left. split; [exact Hrc|]. intros [|j] Hj.
      * rewrite Nat.add_0_r. exact Hok.
      * rewrite Nat.add_succ_r. apply (Hall j). lia.
    + right. split; [exact Hrc|].
      exists (S j), ((if c then [EvShift d] else []) ++ [EvDecode batch true] ++ pre), failed.
      split; [lia|].
      split; [rewrite Nat.add_succ_r; exact Hf|].
      split.
      { intros [|j'] Hj'.
        - rewrite Nat.add_0_r. exact Hok.
        - rewrite Nat.add_succ_r. apply (Hbefore j'). lia. }
      rewrite Hevs, <- !app_assoc. reflexivity.
  - exists 1, (llama_decode false batch st1),
      ((if c then [EvShift d] else []) ++ [EvDecode batch false]).
    split; [reflexivity|].
    split.
    { cbn [llama_decode trace with_kv log]. rewrite Htr, <- !app_assoc. reflexivity. }
    split. { rewrite !delivered_app, Hsh. reflexivity. }
    right. split; [reflexivity|].
    exists 0%nat, (if c then [EvShift d] else []), batch.
    split; [lia|]. split; [rewrite Nat.add_0_r; exact Hok|].
    split; [intros j' Hj'; lia | reflexivity].
Qed.

End PromptOutcome.

(** ** The phases of a request on a loaded session *)

Section Request.

Variables (w : World) (prompt : list Z) (maxTokens : Z) (st : State).

Local Abbreviation tokens := (prompt_tokens w prompt).
Local Abbreviation st1 := (reset_gen_state (reset_chat_state true st)).
Local Abbreviation kept := (spec_kept (max_prompt st maxTokens) tokens).

Hypothesis Hm : g_model st = true.
Hypothesis Hc : g_context st = true.

Lemma nativeGenerate_after_prompt (kept' : list Z) (rc : Z) (st2 : State) :
  truncate_prompt st1 maxTokens tokens = Returned kept' ->
  decode_batched w kept' 0 true st1 = Some (rc, st2) ->
  nativeGenerate w prompt maxTokens st
  = if negb (rc =? 0) then (Returned error_prompt_failed, st2)
    else (Returned (c_str (validate_output
                             (snd (fst (generate_loop w (Z.to_nat maxTokens) 0
                                          (with_pos st2 (int_of_size (length kept'))) []))))),
          fst (fst (generate_loop w (Z.to_nat maxTokens) 0
                      (with_pos st2 (int_of_size (length kept'))) []))).
Proof.
  intros Htrunc Hdec. unfold prompt_tokens in Htrunc.
  unfold nativeGenerate. rewrite Hm, Hc. cbn [negb orb].
  rewrite Htrunc, Hdec. destruct (negb (rc =? 0)); [reflexivity|].
  destruct (generate_loop w _ 0 _ []) as [[st4 r] stop]. reflexivity.
Qed.

Lemma nativeGenerateStream_after_prompt (kept' : list Z) (rc : Z) (st2 : State) :
  truncate_prompt st1 maxTokens tokens = Returned kept' ->
  decode_batched w kept' 0 true st1 = Some (rc, st2) ->
  nativeGenerateStream w prompt maxTokens st
  = if negb (rc =? 0) then (Returned tt, st2)
    else if negb (has_onToken w)
         then (Returned tt, with_pending (with_pos st2 (int_of_size (length kept'))) true)
         else (Returned tt,
               fst (fst (stream_loop w (Z.to_nat maxTokens) 0
                           (with_pos st2 (int_of_size (length kept'))) []))).
Proof.
  intros Htrunc Hdec. unfold prompt_tokens in Htrunc.
  unfold nativeGenerateStream. rewrite Hm, Hc. cbn [negb orb].
  rewrite Htrunc, Hdec. destruct (negb (rc =? 0)); [reflexivity|].
  destruct (negb (has_onToken w)); [reflexivity|].
  destruct (stream_loop w _ 0 _ []) as [[st4 r] stop]. reflexivity.
Qed.

Lemma request_throws :
  max_prompt st maxTokens < 0 ->
  Z.of_nat (length tokens) <= Int32.INT_MAX ->
  nativeGenerate w prompt maxTokens st = (Threw length_error, st1)
  /\ nativeGenerateStream w prompt maxTokens st = (Threw length_error, st1).
Proof.
  intros Hneg Hn. unfold prompt_tokens in Hn.
  unfold nativeGenerate, nativeGenerateStream. rewrite Hm, Hc. cbn [negb orb].
  rewrite (truncate_prompt_negative st1 maxTokens _ Hneg Hn). split; reflexivity.
Qed.

Hypothesis HB : 0 < g_batch_size st.
Hypothesis Hlen : Z.of_nat (length tokens) + g_batch_size st <= Int32.INT_MAX.
Hypothesis Hbound : 0 <= max_prompt st maxTokens.

Lemma request_truncation :
  truncate_prompt st1 maxTokens tokens = Returned kept.
Proof.
  apply (truncate_prompt_kept st1 maxTokens tokens); [exact Hbound | lia].
Qed.

(** The prompt phase of either entry point: [decode_batched] returns, with 0
    exactly when every chunk of the kept prompt is decoded. *)
Lemma request_prompt :
  exists rc st2 evs,
    decode_batched w kept 0 true st1 = Some (rc, st2)
    /\ trace st2 = trace st ++ evs
    /\ delivered evs = []
    /\ ((rc = 0
         /\ forall j, Z.of_nat j * g_batch_size st < Z.of_nat (length kept) ->
                      prompt_decode_ok w j = true)
        \/ (rc = 1
            /\ exists j pre failed,
                Z.of_nat j * g_batch_size st < Z.of_nat (length kept)
                /\ prompt_decode_ok w j = false
                /\ (forall j', (j' < j)%nat -> prompt_decode_ok w j' = true)
                /\ evs = pre ++ [EvDecode failed false])).
Proof.
  pose proof (spec_kept_length (max_prompt st maxTokens) tokens) as Hk.
  assert (H2 : Z.of_nat (length kept) + g_batch_size st <= Int32.INT_MAX) by lia.
  assert (H3 : Z.of_nat (length kept) - 0 <= Z.of_nat (length kept)) by lia.
  destruct (decode_batched_from_outcome w kept 0 true (g_batch_size st)
              HB H2 (length kept) 0%nat 0 st1 eq_refl (Z.le_refl 0) H3)
    as [rc [st2 [evs [Hrun [Htr [Hdel Hcase]]]]]].
  exists rc, st2, evs. split; [exact Hrun|]. split; [exact Htr|]. split; [exact Hdel|].
  exact Hcase.
Qed.

End Request.

(** ** The text that reaches the caller *)

Lemma nativeGenerate_text (w : World) (prompt : list Z) (maxTokens : Z) (st : State)
      (text : list Z) :
  fst (nativeGenerate w prompt maxTokens st) = Returned text ->
  text = error_not_loaded \/ text = error_prompt_failed
  \/ exists m stop,
      steps_run w 0 (Z.to_nat maxTokens) m stop /\ stop <> StopCancelled
      /\ text = c_str (validate_output (fragments w 0 m)).
Proof.
  unfold nativeGenerate.
  destruct (negb (g_model st) || negb (g_context st)).
  { cbn [fst]. intros H. injection H as <-. left. reflexivity. }
  destruct (truncate_prompt _ _ _) as [kept | e |]; try discriminate.
  destruct (decode_batched w kept 0 true _) as [[rc st2]|]; [|discriminate].
  destruct (negb (rc =? 0)).
  { cbn [fst]. intros H. injection H as <-. right. left. reflexivity. }
  destruct (generate_loop_steps w (Z.to_nat maxTokens) 0
              (with_pos st2 (int_of_size (length kept))) [])
    as [m [evs [Hsteps [Hstop [Hres _]]]]].
  destruct (generate_loop w _ 0 _ []) as [[st4 result] stop].
  cbn [fst snd app] in *. intros H. injection H as <-.
  right. right. exists m, stop. rewrite Hres.
  split; [exact Hsteps|]. split; [exact Hstop | reflexivity].
Qed.

Lemma requests_throw_only_negative (w : World) (prompt : list Z) (maxTokens : Z)
      (st : State) (e : CppException) :
  fst (nativeGenerate w prompt maxTokens st) = Threw e
  \/ fst (nativeGenerateStream w prompt maxTokens st) = Threw e ->
  max_prompt st maxTokens < 0.
Proof.
  unfold nativeGenerate, nativeGenerateStream.
  destruct (negb (g_model st) || negb (g_context st)); [intros [H | H]; discriminate|].
  destruct (truncate_prompt _ _ _) as [kept | e' |] eqn:Etr.
  - destruct (decode_batched w kept 0 true _) as [[rc st2]|];
      [|intros [H | H]; discriminate].
    destruct (negb (rc =? 0)); [intros [H | H]; discriminate|].
    destruct (generate_loop w _ 0 _ []) as [[st4 result] stop].
    destruct (negb (has_onToken w)); [intros [H | H]; discriminate|].
    destruct (stream_loop w _ 0 _ []) as [[st5 c] stop']. intros [H | H]; discriminate.
  - intros _. apply (truncate_prompt_throws_only_negative _ _ _ _ Etr).
  - exfalso. exact (truncate_prompt_never_diverges _ _ _ Etr).
Qed.

Lemma nativeGenerate_returns (w : World) (prompt : list Z) (maxTokens : Z) (st : State) :
  0 < g_batch_size st ->
  Z.of_nat (length (prompt_tokens w prompt)) + g_batch_size st <= Int32.INT_MAX ->
  0 <= max_prompt st maxTokens ->
  exists text, fst (nativeGenerate w prompt maxTokens st) = Returned text.
Proof.
  intros HB Hlen Hbound.
  destruct (g_model st) eqn:Hm.
  2: { eexists. unfold nativeGenerate. rewrite Hm. reflexivity. }
  destruct (g_context st) eqn:Hc.
  2: { eexists. unfold nativeGenerate. rewrite Hm, Hc. reflexivity. }
  destruct (request_prompt w prompt maxTokens st HB Hlen) as [rc [st2 [evs [Hrun _]]]].
  rewrite (nativeGenerate_after_prompt w prompt maxTokens st Hm Hc _ rc st2
             (request_truncation w prompt maxTokens st HB Hlen Hbound) Hrun).
  destruct (negb (rc =? 0)); eexists; reflexivity.
Qed.

(** C4, as amended.  Every chunk [nativeGenerateStream] hands to the consumer
    validates.  A text that [nativeGenerate] returns is one of the two error
    texts, which validate, or the accumulated output of the steps that ran,
    trimmed once by [validate_output] and read up to its first NUL.  That
    text validates when the output validates, and then nothing is trimmed;
    it also validates when the output is valid text followed by one
    incomplete unit, and is then the valid text.  Neither entry point throws
    unless the truncation bound is negative: the trimming raises nothing,
    and with a bound that is not negative and a batch size of at least 1
    [nativeGenerate] does return a text. *)
Theorem surfaced_text_validity (w : World) (prompt : list Z) (maxTokens : Z)
        (st : State) :
  (exists evs,
      trace (snd (nativeGenerateStream w prompt maxTokens st)) = trace st ++ evs
      /\ Forall (fun chunk => is_valid_utf8 (Some chunk) = true) (delivered evs))
  /\ (forall text,
        fst (nativeGenerate w prompt maxTokens st) = Returned text ->
        ((text = error_not_loaded \/ text = error_prompt_failed)
         /\ is_valid_utf8 (Some text) = true)
        \/ exists m stop,
            steps_run w 0 (Z.to_nat maxTokens) m stop /\ stop <> StopCancelled
            /\ text = c_str (validate_output (fragments w 0 m))
            /\ (is_valid_utf8 (Some (fragments w 0 m)) = true ->
                text = c_str (fragments w 0 m) /\ is_valid_utf8 (Some text) = true)
            /\ (forall v u,
                  fragments w 0 m = v ++ u ->
                  is_valid_utf8 (Some v) = true -> incomplete_unit u ->
                  text = c_str v /\ is_valid_utf8 (Some text) = true))
  /\ (forall e,
        fst (nativeGenerate w prompt maxTokens st) = Threw e
        \/ fst (nativeGenerateStream w prompt maxTokens st) = Threw e ->
        max_prompt st maxTokens < 0)
  /\ (0 < g_batch_size st ->
      Z.of_nat (length (prompt_tokens w prompt)) + g_batch_size st <= Int32.INT_MAX ->
      0 <= max_prompt st maxTokens ->
      exists text, fst (nativeGenerate w prompt maxTokens st) = Returned text).
Proof.
  split; [apply nativeGenerateStream_chunks|].
  split; [|split; [intros e; apply requests_throw_only_negative
                  | apply nativeGenerate_returns]].
  intros text Htext.
  destruct (nativeGenerate_text w prompt maxTokens st text Htext)
    as [-> | [-> | [m [stop [Hsteps [Hstop ->]]]]]].
  - left. split; [left; reflexivity | reflexivity].
  - left. split; [right; reflexivity | reflexivity].
  - right. exists m, stop.
    destruct (surfaced_cases (fragments w 0 m)) as [Hvalid Htrim].
    split; [exact Hsteps|]. split; [exact Hstop|]. split; [reflexivity|].
    split; [exact Hvalid|].
    intros v u Hout Hv Hu. exact (Htrim v u Hout Hv Hu).
Qed.

(** The letter a, a complete three-byte unit and the first two bytes of
    another one: the stream delivers two chunks, the synchronous call returns
    the four bytes in front of the incomplete unit. *)
Lemma surfaced_text_validity_witness :
  let w := byte_world [0x61; 0xE4; 0xBD; 0xA0; 0xE4; 0xBD] never always in
  (exists evs,
      trace (snd (nativeGenerateStream w [1; 2; 3] 8 scenario_A_state))
      = trace scenario_A_state ++ evs
      /\ Forall (fun chunk => is_valid_utf8 (Some chunk) = true) (delivered evs))
  /\ fst (nativeGenerate w [1; 2; 3] 8 scenario_A_state)
     = Returned [0x61; 0xE4; 0xBD; 0xA0]
  /\ exists m stop,
      steps_run w 0 8 m stop /\ stop <> StopCancelled
      /\ [0x61; 0xE4; 0xBD; 0xA0] = c_str (validate_output (fragments w 0 m))
      /\ (forall v u,
            fragments w 0 m = v ++ u ->
            is_valid_utf8 (Some v) = true -> incomplete_unit u ->
            [0x61; 0xE4; 0xBD; 0xA0] = c_str v
            /\ is_valid_utf8 (Some [0x61; 0xE4; 0xBD; 0xA0]) = true).
Proof.
  intros w.
  destruct (surfaced_text_validity w [1; 2; 3] 8 scenario_A_state) as [Hstream [Hsync _]].
  split; [exact Hstream|]. split; [reflexivity|].
  destruct (Hsync [0x61; 0xE4; 0xBD; 0xA0] eq_refl)
    as [[[Herr | Herr] _] | [m [stop [Hsteps [Hstop [Htext [_ Htrim]]]]]]];
    [discriminate Herr | discriminate Herr |].
  exists m, stop.
  split; [exact Hsteps|]. split; [exact Hstop|]. split; [exact Htext | exact Htrim].
Defined.

(** The three bytes of one unit arrive in three steps and are delivered
    together, followed by the letter. *)
Example stream_holds_partial_unit :
  delivered (trace (snd (nativeGenerateStream
                           (byte_world [0xE4; 0xBD; 0xA0; 0x61] never always)
                           [1; 2; 3] 4 scenario_A_state)))
  = [[0xE4; 0xBD; 0xA0]; [0x61]].
Proof. vm_compute. reflexivity. Qed.

(** C4 as stated fails for the synchronous result.  The sampler draws the
    lead byte 0xE4 of a three-byte unit and then the letter 'a': the output
    does not validate, its last byte is neither a continuation byte nor has
    the high bit set, so nothing is trimmed and the malformed string is
    returned. *)
Lemma surfaced_text_counterexample :
  fst (nativeGenerate (byte_world [0xE4; 0x61] never always) [1] 2 scenario_A_state)
  = Returned [0xE4; 0x61]
  /\ is_valid_utf8 (Some [0xE4; 0x61]) = false.
Proof. vm_compute. split; reflexivity. Qed.

(** ** The stream buffer *)

(** C6, as amended.  The buffer is handed to the consumer exactly when
    [is_valid_utf8] accepts it, which looks at the bytes before the first
    NUL only; the consumer receives those bytes and the whole buffer is
    cleared.  Otherwise nothing is delivered and the buffer goes unchanged
    into the next step.  Over the loop of a request, which starts from an
    empty buffer: the fragments of the steps that ran are the buffers handed
    over, in order, followed by the bytes left at the end; every buffer
    handed over validated; the bytes left are none or do not validate, and
    are in no delivery; and when no fragment holds a NUL the chunks
    delivered are the buffers themselves. *)
Theorem stream_buffer_discipline (w : World) (prompt : list Z) (maxTokens : Z)
        (st : State) (n i : nat) (st_i : State) (buf : list Z) :
  (is_valid_utf8 (Some buf) = true ->
     exists st',
       deliver_if_valid w i st_i buf = (st', [], jni_pending st_i || on_token_throws w i)
       /\ trace st' = trace st_i ++ [EvOnToken (c_str buf) (on_token_throws w i)])
  /\ (is_valid_utf8 (Some buf) = false ->
      deliver_if_valid w i st_i buf = (st_i, buf, false))
  /\ (exists m evs bufs,
        steps_run w i n m (snd (stream_loop w n i st_i []))
        /\ trace (fst (fst (stream_loop w n i st_i []))) = trace st_i ++ evs
        /\ delivered evs = map c_str bufs
        /\ Forall (fun b => is_valid_utf8 (Some b) = true) bufs
        /\ fragments w i m = concat bufs ++ snd (fst (stream_loop w n i st_i []))
        /\ (snd (fst (stream_loop w n i st_i [])) = []
            \/ is_valid_utf8 (Some (snd (fst (stream_loop w n i st_i [])))) = false)
        /\ (snd (stream_loop w n i st_i []) = StopCancelled ->
            snd (fst (stream_loop w n i st_i [])) = []
            /\ exists pre chunk threw, evs = pre ++ [EvOnToken chunk threw])
        /\ ((forall id, nul_free (common_token_to_piece w id)) -> delivered evs = bufs))
  /\ (forall kept st2,
        g_model st = true -> g_context st = true ->
        truncate_prompt (reset_gen_state (reset_chat_state true st)) maxTokens
                        (prompt_tokens w prompt) = Returned kept ->
        decode_batched w kept 0 true (reset_gen_state (reset_chat_state true st))
        = Some (0, st2) ->
        has_onToken w = true ->
        nativeGenerateStream w prompt maxTokens st
        = (Returned tt,
           fst (fst (stream_loop w (Z.to_nat maxTokens) 0
                       (with_pos st2 (int_of_size (length kept))) [])))).
Proof.
  split; [|split; [|split]].
  - intros Hvalid. unfold deliver_if_valid. rewrite Hvalid.
    cbn [call_on_token jni_pending with_pending log].
    destruct (jni_pending st_i || on_token_throws w i); eexists; split; reflexivity.
  - intros Hvalid. unfold deliver_if_valid. rewrite Hvalid. reflexivity.
  - destruct (stream_loop_steps w n i st_i [])
      as [m [evs [bufs [Hsteps [Htr [Hd [Hall [Hcons [Hres [_ [Hcan Hnul]]]]]]]]]]].
    exists m, evs, bufs.
    split; [exact Hsteps|]. split; [exact Htr|]. split; [exact Hd|]. split; [exact Hall|].
    split; [exact Hcons|]. split; [apply Hres; left; reflexivity|].
    split; [exact Hcan|].
    intros Hp. symmetry. apply Hnul; [constructor | exact Hp].
  - intros kept st2 Hm Hc Htrunc Hdec Hcb.
    rewrite (nativeGenerateStream_after_prompt w prompt maxTokens st Hm Hc kept 0 st2
               Htrunc Hdec).
    rewrite Hcb. reflexivity.
Qed.

(** A complete unit is delivered whole, an incomplete one is kept; in a
    request that generates a three-byte unit, a letter and a lead byte, the
    fragments are the two chunks delivered followed by the lead byte. *)
Lemma stream_buffer_discipline_witness :
  let w := byte_world [0xE4; 0xBD; 0xA0; 0x61; 0xC3] never always in
  let st3 := with_pos (after_prompt w [1; 2; 3] scenario_A_state) 3 in
  (exists st',
      deliver_if_valid w 0 scenario_A_state [0xE4; 0xBD; 0xA0] = (st', [], false)
      /\ trace st' = [EvOnToken [0xE4; 0xBD; 0xA0] false])
  /\ deliver_if_valid w 0 scenario_A_state [0xE4; 0xBD]
     = (scenario_A_state, [0xE4; 0xBD], false)
  /\ (exists m evs bufs,
        steps_run w 0 8 m (snd (stream_loop w 8 0 st3 []))
        /\ trace (fst (fst (stream_loop w 8 0 st3 []))) = trace st3 ++ evs
        /\ delivered evs = map c_str bufs
        /\ Forall (fun b => is_valid_utf8 (Some b) = true) bufs
        /\ fragments w 0 m = concat bufs ++ snd (fst (stream_loop w 8 0 st3 []))
        /\ delivered evs = bufs)
  /\ nativeGenerateStream w [1; 2; 3] 8 scenario_A_state
     = (Returned tt, fst (fst (stream_loop w 8 0 st3 [])))
  /\ delivered (trace (fst (fst (stream_loop w 8 0 st3 []))))
     = [[0xE4; 0xBD; 0xA0]; [0x61]]
  /\ snd (fst (stream_loop w 8 0 st3 [])) = [0xC3].
Proof.
  intros w st3.
  destruct (stream_buffer_discipline w [1; 2; 3] 8 scenario_A_state 8 0 scenario_A_state
              [0xE4; 0xBD; 0xA0]) as [Hvalid _].
  destruct (stream_buffer_discipline w [1; 2; 3] 8 scenario_A_state 8 0 scenario_A_state
              [0xE4; 0xBD]) as [_ [Hinvalid _]].
  destruct (stream_buffer_discipline w [1; 2; 3] 8 scenario_A_state 8 0 st3 [])
    as [_ [_ [Hloop Hentry]]].
  split; [exact (Hvalid eq_refl)|].
  split; [exact (Hinvalid eq_refl)|].
  split.
  { destruct Hloop as [m [evs [bufs [Hsteps [Htr [Hd [Hall [Hcons [_ [_ Hnul]]]]]]]]]].
    exists m, evs, bufs.
    split; [exact Hsteps|]. split; [exact Htr|]. split; [exact Hd|]. split; [exact Hall|].
    split; [exact Hcons|]. apply Hnul.
    intros id. cbn. destruct (id =? 0) eqn:E; repeat constructor. lia. }
  split.
  { apply (Hentry [1; 2; 3] (after_prompt w [1; 2; 3] scenario_A_state));
      reflexivity. }
  split; reflexivity.
Defined.

(** C6 as stated fails when a fragment holds a NUL.  The first token of
    [nul_piece_world] has the piece 61 00 FF.  The buffer 61 00 FF is not
    made of complete units, yet [is_valid_utf8] accepts it, reading up to
    the NUL: the letter is delivered and the whole buffer is cleared in the
    middle of the generation.  The bytes 00 FF are in no chunk and are not
    in the buffer at the end: the chunks delivered and the bytes left are
    not the fragments produced. *)
Lemma stream_buffer_counterexample :
  let w := nul_piece_world in
  let r := nativeGenerateStream w [1; 2; 3] 4 scenario_A_state in
  let st3 := with_pos (after_prompt w [1; 2; 3] scenario_A_state) 3 in
  fragments w 0 2 = [0x61; 0x00; 0xFF; 0x62]
  /\ is_valid_utf8 (Some [0x61; 0x00; 0xFF]) = true
  /\ ~ (exists units, [0x61; 0x00; 0xFF] = concat units /\ Forall complete_unit units)
  /\ snd r = fst (fst (stream_loop w 4 0 st3 []))
  /\ delivered (trace (snd r)) = [[0x61]; [0x62]]
  /\ snd (fst (stream_loop w 4 0 st3 [])) = []
  /\ concat (delivered (trace (snd r))) ++ snd (fst (stream_loop w 4 0 st3 []))
     <> fragments w 0 2.
Proof.
  cbv zeta. split; [reflexivity|]. split; [reflexivity|].
  split.
  { intros [units [Hcat Hunits]].
    assert (Hnf : nul_free (concat units)).
    { clear Hcat. induction Hunits as [|u units Hu _ IH]; [constructor|].
      cbn [concat]. apply Forall_app. split; [apply complete_unit_nul_free; exact Hu | exact IH]. }
    rewrite <- Hcat in Hnf. inversion Hnf as [|? ? _ Hrest]; subst.
    inversion Hrest as [|? ? Hzero _]; subst. apply Hzero. reflexivity. }
  split; [vm_compute; reflexivity|].
  split; [vm_compute; reflexivity|].
  split; [vm_compute; reflexivity|].
  vm_compute. discriminate.
Qed.

(** ** A decode that fails *)



(** ** What a request submits *)

Lemma max_prompt_exact (st : State) (maxTokens : Z) :
  Int32.in_range (g_context_size st - maxTokens) ->
  Int32.in_range (g_context_size st - maxTokens - 4) ->
  max_prompt st maxTokens = g_context_size st - maxTokens - 4.
Proof.
  intros H1 H2. unfold max_prompt.
  rewrite (sub_small (g_context_size st) maxTokens) by exact H1.
  apply sub_small. exact H2.
Qed.

Lemma prompt_submitted (w : World) (kept : list Z) (st : State) :
  0 < g_batch_size st ->
  Z.of_nat (length kept) + g_batch_size st <= Int32.INT_MAX ->
  (forall k, prompt_decode_ok w k = true) ->
  exists st2 evs,
    decode_batched w kept 0 true st = Some (0, st2)
    /\ trace st2 = trace st ++ evs
    /\ concat (decoded_batches evs) = spec_entries kept 0 true 0 (length kept)
    /\ delivered evs = [].
Proof.
  intros HB HnB Hok. unfold decode_batched.
  destruct kept as [|t kept'] eqn:Ek.
  { exists st, []. cbn. rewrite app_nil_r. repeat split. }
  rewrite <- Ek in *.
  assert (Hpos : 0 < Z.of_nat (length kept)) by (rewrite Ek; cbn [length]; lia).
  assert (Hfit : 0 + Z.of_nat (length kept) <= Int32.INT_MAX) by lia.
  assert (Hi : 0 <= 0 < Z.of_nat (length kept)) by lia.
  assert (Hfuel : Z.of_nat (length kept) - 0 <= Z.of_nat (length kept)) by lia.
  destruct (decode_batched_from_spec w kept 0 true (g_batch_size st)
              HB (Z.le_refl 0) Hfit HnB Hok (length kept) 0%nat 0 st eq_refl Hi Hfuel)
    as [st2 [evs [Hrun [Htr [_ [_ [Hcat _]]]]]]].
  rewrite Z.sub_0_r, Nat2Z.id in Hcat. cbn [Z.to_nat] in Hcat.
  exists st2, evs. split; [exact Hrun|]. split; [exact Htr|]. split; [exact Hcat|].
  destruct (decode_batched_from_quiet w kept 0 true _ _ _ _ _ _ Hrun) as [evs' [Htr' Hdel]].
  rewrite Htr in Htr'. apply app_inv_head in Htr'. subst evs'. exact Hdel.
Qed.

Section RequestSubmits.

Variables (w : World) (prompt : list Z) (maxTokens : Z) (st : State).

Local Abbreviation tokens := (prompt_tokens w prompt).
Local Abbreviation st1 := (reset_gen_state (reset_chat_state true st)).
Local Abbreviation kept := (spec_kept (max_prompt st maxTokens) tokens).

Hypothesis Hm : g_model st = true.
Hypothesis Hc : g_context st = true.
Hypothesis HB : 0 < g_batch_size st.
Hypothesis Hlen : Z.of_nat (length tokens) + g_batch_size st <= Int32.INT_MAX.
Hypothesis Hbound : 0 <= max_prompt st maxTokens.
Hypothesis Hok : forall k, prompt_decode_ok w k = true.

(** When every decode of the prompt succeeds, a request submits the kept
    prompt, chunk by chunk, and then tokens it sampled, one by one. *)
Lemma request_submits :
  (exists evs_p evs_g m,
      trace (snd (nativeGenerate w prompt maxTokens st)) = trace st ++ evs_p ++ evs_g
      /\ concat (decoded_batches evs_p) = spec_entries kept 0 true 0 (length kept)
      /\ submitted_tokens evs_g = map (common_sampler_sample w) (seq 0 m))
  /\ (exists evs_p evs_g m,
         trace (snd (nativeGenerateStream w prompt maxTokens st)) = trace st ++ evs_p ++ evs_g
         /\ concat (decoded_batches evs_p) = spec_entries kept 0 true 0 (length kept)
         /\ submitted_tokens evs_g = map (common_sampler_sample w) (seq 0 m)).
Proof.
  pose proof (spec_kept_length (max_prompt st maxTokens) tokens) as Hk.
  assert (HnB : Z.of_nat (length kept) + g_batch_size st <= Int32.INT_MAX) by lia.
  destruct (prompt_submitted w kept st1 HB HnB Hok) as [st2 [evs_p [Hrun [Htr [Hcat _]]]]].
  cbn [trace reset_gen_state reset_chat_state] in Htr.
  pose proof (request_truncation w prompt maxTokens st HB Hlen Hbound) as Htrunc.
  set (st3 := with_pos st2 (int_of_size (length kept))).
  assert (Htr3 : trace st3 = trace st ++ evs_p) by exact Htr.
  split.
  - rewrite (nativeGenerate_after_prompt w prompt maxTokens st Hm Hc kept 0 st2 Htrunc Hrun).
    cbn [Z.eqb negb snd]. fold st3.
    destruct (generate_loop_steps w (Z.to_nat maxTokens) 0 st3 [])
      as [m [evs_g [_ [_ [_ [Htr' [Htok _]]]]]]].
    exists evs_p, evs_g, m.
    split; [rewrite Htr', Htr3, app_assoc; reflexivity|].
    split; [exact Hcat | exact Htok].
  - rewrite (nativeGenerateStream_after_prompt w prompt maxTokens st Hm Hc kept 0 st2
               Htrunc Hrun).
    cbn [Z.eqb negb]. fold st3.
    destruct (negb (has_onToken w)).
    + exists evs_p, [], 0%nat. cbn [snd trace with_pending].
      rewrite Htr3, app_nil_r. split; [reflexivity|]. split; [exact Hcat | reflexivity].
    + destruct (stream_loop_steps w (Z.to_nat maxTokens) 0 st3 [])
        as [m [evs_g [bufs [_ [Htr' [_ [_ [_ [_ [Htok _]]]]]]]]]].
      cbn [snd].
      exists evs_p, evs_g,
        (match snd (stream_loop w (Z.to_nat maxTokens) 0 st3 []) with
         | StopCancelled => Nat.pred m
         | _ => m
         end).
      split; [rewrite Htr', Htr3, app_assoc; reflexivity|].
      split; [exact Hcat | exact Htok].
Qed.

End RequestSubmits.

(** C5.  On a loaded session whose prompt decodes succeed, both entry
    points submit, as their prompt, exactly what the specification asks for as long
    as the bound [capacity - maxTokens - 4] is not negative: the prefix of
    length [bound] of a tokenized prompt longer than the bound, the whole
    prompt otherwise, token [i] at position [i]; what they submit afterwards
    are tokens they sampled.  With a negative bound every prompt is longer
    than the bound and nothing is submitted: the resize throws
    [std::length_error], which neither entry point catches. *)
Theorem prompt_truncation (w : World) (prompt : list Z) (maxTokens : Z) (st : State) :
  let tokens := prompt_tokens w prompt in
  let bound := g_context_size st - maxTokens - 4 in
  let kept := spec_kept bound tokens in
  let st1 := reset_gen_state (reset_chat_state true st) in
  g_model st = true -> g_context st = true ->
  0 < g_batch_size st ->
  Int32.in_range (g_context_size st - maxTokens) -> Int32.in_range bound ->
  Z.of_nat (length tokens) + g_batch_size st <= Int32.INT_MAX ->
  (forall k, prompt_decode_ok w k = true) ->
  (0 <= bound ->
     (bound < Z.of_nat (length tokens) ->
      kept = firstn (Z.to_nat bound) tokens /\ Z.of_nat (length kept) = bound)
     /\ (Z.of_nat (length tokens) <= bound -> kept = tokens)
     /\ (exists evs_p evs_g m,
            trace (snd (nativeGenerate w prompt maxTokens st)) = trace st ++ evs_p ++ evs_g
            /\ concat (decoded_batches evs_p) = spec_entries kept 0 true 0 (length kept)
            /\ submitted_tokens evs_p = kept
            /\ submitted_tokens evs_g = map (common_sampler_sample w) (seq 0 m))
     /\ (exists evs_p evs_g m,
            trace (snd (nativeGenerateStream w prompt maxTokens st))
            = trace st ++ evs_p ++ evs_g
            /\ concat (decoded_batches evs_p) = spec_entries kept 0 true 0 (length kept)
            /\ submitted_tokens evs_p = kept
            /\ submitted_tokens evs_g = map (common_sampler_sample w) (seq 0 m)))
  /\ (bound < 0 ->
      bound < Z.of_nat (length tokens)
      /\ nativeGenerate w prompt maxTokens st = (Threw length_error, st1)
      /\ nativeGenerateStream w prompt maxTokens st = (Threw length_error, st1)
      /\ trace st1 = trace st).
Proof.
  intros tokens bound kept st1 Hm Hc HB Hr1 Hr2 Hlen Hok.
  pose proof (max_prompt_exact st maxTokens Hr1 Hr2) as Hmp. fold bound in Hmp.
  split.
  - intros Hbound.
    destruct (spec_kept_cases bound tokens Hbound) as [Hlong Hshort].
    split; [exact Hlong|]. split; [exact Hshort|].
    assert (Hbound' : 0 <= max_prompt st maxTokens) by (rewrite Hmp; exact Hbound).
    destruct (request_submits w prompt maxTokens st Hm Hc HB Hlen Hbound' Hok)
      as [[p1 [g1 [m1 [Ht1 [Hc1 Hg1]]]]] [p2 [g2 [m2 [Ht2 [Hc2 Hg2]]]]]].
    rewrite Hmp in Hc1, Hc2. fold tokens in Hc1, Hc2. fold kept in Hc1, Hc2.
    split.
    + exists p1, g1, m1. split; [exact Ht1|]. split; [exact Hc1|].
      split; [|exact Hg1]. unfold submitted_tokens. rewrite Hc1. apply spec_entries_tokens.
    + exists p2, g2, m2. split; [exact Ht2|]. split; [exact Hc2|].
      split; [|exact Hg2]. unfold submitted_tokens. rewrite Hc2. apply spec_entries_tokens.
  - intros Hneg. split; [lia|].
    assert (Hneg' : max_prompt st maxTokens < 0) by (rewrite Hmp; exact Hneg).
    assert (Hn : Z.of_nat (length (prompt_tokens w prompt)) <= Int32.INT_MAX)
      by (fold tokens; lia).
    destruct (request_throws w prompt maxTokens st Hm Hc Hneg' Hn) as [Hg Hs].
    split; [exact Hg|]. split; [exact Hs | reflexivity].
Qed.

(** A prompt of 11 tokens in a window of 16 with a budget of 2 tokens: the
    first 10 tokens are submitted.  The default window of 4096 with a budget
    of 5000 tokens: both entry points throw before anything is submitted. *)
Lemma prompt_truncation_witness :
  (exists evs_p evs_g m,
      trace (snd (nativeGenerate quiet_world prompt_of_11 2 scenario_A_state))
      = trace scenario_A_state ++ evs_p ++ evs_g
      /\ concat (decoded_batches evs_p)
         = spec_entries [11; 12; 13; 14; 15; 16; 17; 18; 19; 20] 0 true 0 10
      /\ submitted_tokens evs_p = [11; 12; 13; 14; 15; 16; 17; 18; 19; 20]
      /\ submitted_tokens evs_g = map (common_sampler_sample quiet_world) (seq 0 m))
  /\ (exists evs_p evs_g m,
         trace (snd (nativeGenerateStream quiet_world prompt_of_11 2 scenario_A_state))
         = trace scenario_A_state ++ evs_p ++ evs_g
         /\ concat (decoded_batches evs_p)
            = spec_entries [11; 12; 13; 14; 15; 16; 17; 18; 19; 20] 0 true 0 10
         /\ submitted_tokens evs_p = [11; 12; 13; 14; 15; 16; 17; 18; 19; 20]
         /\ submitted_tokens evs_g = map (common_sampler_sample quiet_world) (seq 0 m))
  /\ 4096 - 5000 - 4 < Z.of_nat (length (prompt_tokens quiet_world [104; 105]))
  /\ nativeGenerate quiet_world [104; 105] 5000 default_state
     = (Threw length_error, default_state)
  /\ nativeGenerateStream quiet_world [104; 105] 5000 default_state
     = (Threw length_error, default_state).
Proof.
  assert (Hfits : (0 <= 16 - 2 - 4 -> _) /\ _)
    by (apply (prompt_truncation quiet_world prompt_of_11 2 scenario_A_state);
        try reflexivity; cbn; unfold Int32.in_range, Int32.INT_MIN, Int32.INT_MAX; lia).
  assert (Hthrows : _ /\ (4096 - 5000 - 4 < 0 -> _))
    by (apply (prompt_truncation quiet_world [104; 105] 5000 default_state);
        try reflexivity; cbn; unfold Int32.in_range, Int32.INT_MIN, Int32.INT_MAX; lia).
  destruct Hfits as [Hfits _]. destruct Hthrows as [_ Hthrows].
  destruct (Hfits ltac:(lia)) as [_ [_ [Hg Hs]]].
  destruct (Hthrows ltac:(lia)) as [Hlong [Hgt [Hst _]]].
  split; [exact Hg|]. split; [exact Hs|]. split; [exact Hlong|].
  split; [exact Hgt | exact Hst].
Defined.

(** The same defect in a window of 16: with a budget of 20 tokens the bound
    is -8, and a prompt of 2 tokens ends the request in the resize. *)
Example negative_bound_submits_nothing :
  max_prompt scenario_A_state 20 = -8
  /\ -8 < Z.of_nat (length [1; 2])
  /\ truncate_prompt scenario_A_state 20 [1; 2] = Threw length_error
  /\ nativeGenerate quiet_world [1; 2] 20 scenario_A_state
     = (Threw length_error, scenario_A_state).
Proof. vm_compute. repeat split; reflexivity. Qed.

(** ** Every way a synchronous request ends *)

(** X5.  On a session whose batch size is at least 1, with a tokenized
    prompt whose length plus the batch size stays within [INT_MAX],
    [nativeGenerate] ends in exactly one of four ways, decided by the session
    and the world.
    Without a model or a context it returns "[Error: Model not loaded]" and
    leaves the state as it is.  Loaded, with a negative bound
    [g_context_size - maxTokens - 4] (as an [int]), it throws
    [std::length_error] from the state the resets leave.  Loaded, with a
    bound that is not negative, it returns
    "[Error: Failed to process prompt]" right after the failed decode when
    the decode of some chunk of the kept prompt fails, and otherwise the
    accumulated fragments of the steps that ran, through [validate_output].
    So it throws exactly when loaded with a negative bound, and it always
    ends. *)
Theorem nativeGenerate_outcomes (w : World) (prompt : list Z) (maxTokens : Z)
        (st : State) :
  let r := nativeGenerate w prompt maxTokens st in
  let st1 := reset_gen_state (reset_chat_state true st) in
  let kept := spec_kept (max_prompt st maxTokens) (prompt_tokens w prompt) in
  0 < g_batch_size st ->
  Z.of_nat (length (prompt_tokens w prompt)) + g_batch_size st <= Int32.INT_MAX ->
  (((g_model st = false \/ g_context st = false)
    /\ r = (Returned error_not_loaded, st))
   \/ (g_model st = true /\ g_context st = true
       /\ max_prompt st maxTokens < 0
       /\ r = (Threw length_error, st1))
   \/ (g_model st = true /\ g_context st = true
       /\ 0 <= max_prompt st maxTokens
       /\ (exists j, Z.of_nat j * g_batch_size st < Z.of_nat (length kept)
                     /\ prompt_decode_ok w j = false)
       /\ fst r = Returned error_prompt_failed
       /\ exists pre failed, trace (snd r) = trace st ++ pre ++ [EvDecode failed false])
   \/ (g_model st = true /\ g_context st = true
       /\ 0 <= max_prompt st maxTokens
       /\ (forall j, Z.of_nat j * g_batch_size st < Z.of_nat (length kept) ->
                     prompt_decode_ok w j = true)
       /\ exists m stop,
           steps_run w 0 (Z.to_nat maxTokens) m stop /\ stop <> StopCancelled
           /\ fst r = Returned (c_str (validate_output (fragments w 0 m)))))
  /\ (fst r = Threw length_error
      <-> g_model st = true /\ g_context st = true /\ max_prompt st maxTokens < 0)
  /\ fst r <> Diverged.
Proof.
  intros r st1 kept HB Hlen.
  assert (Hcases :
            ((g_model st = false \/ g_context st = false)
             /\ r = (Returned error_not_loaded, st))
            \/ (g_model st = true /\ g_context st = true
                /\ max_prompt st maxTokens < 0
                /\ r = (Threw length_error, st1))
            \/ (g_model st = true /\ g_context st = true
                /\ 0 <= max_prompt st maxTokens
                /\ (exists j, Z.of_nat j * g_batch_size st < Z.of_nat (length kept)
                              /\ prompt_decode_ok w j = false)
                /\ fst r = Returned error_prompt_failed
                /\ exists pre failed,
                    trace (snd r) = trace st ++ pre ++ [EvDecode failed false])
            \/ (g_model st = true /\ g_context st = true
                /\ 0 <= max_prompt st maxTokens
                /\ (forall j, Z.of_nat j * g_batch_size st < Z.of_nat (length kept) ->
                              prompt_decode_ok w j = true)
                /\ exists m stop,
                    steps_run w 0 (Z.to_nat maxTokens) m stop /\ stop <> StopCancelled
                    /\ fst r = Returned (c_str (validate_output (fragments w 0 m))))).
  { subst r st1 kept.
    destruct (g_model st) eqn:Hm; [|left; split; [left; reflexivity|]].
    2: { unfold nativeGenerate. rewrite Hm. reflexivity. }
    destruct (g_context st) eqn:Hc; [|left; split; [right; reflexivity|]].
    2: { unfold nativeGenerate. rewrite Hm, Hc. reflexivity. }
    right.
    destruct (Z_lt_ge_dec (max_prompt st maxTokens) 0) as [Hneg | Hpos].
    { left. split; [reflexivity|]. split; [reflexivity|]. split; [exact Hneg|].
      apply (request_throws w prompt maxTokens st Hm Hc Hneg). lia. }
    right.
    assert (Hbound : 0 <= max_prompt st maxTokens) by lia.
    pose proof (request_truncation w prompt maxTokens st HB Hlen Hbound) as Htrunc.
    destruct (request_prompt w prompt maxTokens st HB Hlen)
      as [rc [st2 [evs [Hrun [Htr [_ Hcase]]]]]].
    pose proof (nativeGenerate_after_prompt w prompt maxTokens st Hm Hc _ rc st2
                  Htrunc Hrun) as Hgen.
    destruct Hcase as [[-> Hall] | [-> [j [pre [failed [Hj [Hbad [_ ->]]]]]]]].
    - right. split; [reflexivity|]. split; [reflexivity|]. split; [exact Hbound|].
      split; [exact Hall|].
      cbn [Z.eqb negb] in Hgen.
      destruct (generate_loop_steps w (Z.to_nat maxTokens) 0
                  (with_pos st2 (int_of_size
                                   (length (spec_kept (max_prompt st maxTokens)
                                                      (prompt_tokens w prompt))))) [])
        as [m [evs_g [Hsteps [Hstop [Hres _]]]]].
      exists m, (snd (generate_loop w (Z.to_nat maxTokens) 0
                        (with_pos st2 (int_of_size
                                         (length (spec_kept (max_prompt st maxTokens)
                                                            (prompt_tokens w prompt)))))
                        [])).
      split; [exact Hsteps|]. split; [exact Hstop|].
      rewrite Hgen. cbn [fst]. rewrite Hres. reflexivity.
    - left. split; [reflexivity|]. split; [reflexivity|]. split; [exact Hbound|].
      split; [exists j; split; assumption|].
      cbn [Z.eqb negb] in Hgen. rewrite Hgen. cbn [fst snd].
      split; [reflexivity|]. exists pre, failed. exact Htr. }
  split; [exact Hcases|].
  split.
  - split.
    + intros Hthrow.
      destruct Hcases as [[_ Hr] | [[Hm [Hc [Hneg _]]] | [[_ [_ [_ [_ [Hr _]]]]]
                                   | [_ [_ [_ [_ [m [stop [_ [_ Hr]]]]]]]]]]].
      * rewrite Hr in Hthrow. discriminate.
      * repeat split; assumption.
      * rewrite Hr in Hthrow. discriminate.
      * rewrite Hr in Hthrow. discriminate.
    + intros [Hm [Hc Hneg]].
      destruct (request_throws w prompt maxTokens st Hm Hc Hneg) as [Hr _]; [lia|].
      unfold r. rewrite Hr. reflexivity.
  - destruct Hcases as [[_ Hr] | [[_ [_ [_ Hr]]] | [[_ [_ [_ [_ [Hr _]]]]]
                                 | [_ [_ [_ [_ [m [stop [_ [_ Hr]]]]]]]]]]];
      rewrite Hr; discriminate.
Qed.

(** The three ways a loaded session with a window of 16 can answer: text,
    the failed-prompt text, an exception. *)
Lemma nativeGenerate_outcomes_witness :
  (fst (nativeGenerate quiet_world [104; 105] 20 scenario_A_state) = Threw length_error
   <-> g_model scenario_A_state = true /\ g_context scenario_A_state = true
       /\ max_prompt scenario_A_state 20 < 0)
  /\ fst (nativeGenerate third_chunk_fails_world prompt_of_11 1 scenario_A_state)
     <> Diverged
  /\ fst (nativeGenerate quiet_world [104; 105] 20 scenario_A_state) = Threw length_error
  /\ fst (nativeGenerate third_chunk_fails_world prompt_of_11 1 scenario_A_state)
     = Returned error_prompt_failed.
Proof.
  assert (H1 : _ /\ _ /\ fst (nativeGenerate quiet_world [104; 105] 20 scenario_A_state)
                        <> Diverged)
    by (apply (nativeGenerate_outcomes quiet_world [104; 105] 20 scenario_A_state);
        cbn; unfold Int32.INT_MAX; lia).
  assert (H2 : _ /\ _ /\ fst (nativeGenerate third_chunk_fails_world prompt_of_11 1
                                scenario_A_state) <> Diverged)
    by (apply (nativeGenerate_outcomes third_chunk_fails_world prompt_of_11 1
                 scenario_A_state);
        cbn; unfold Int32.INT_MAX; lia).
  destruct H1 as [_ [Hiff _]]. destruct H2 as [_ [_ Hend]].
  split; [exact Hiff|]. split; [exact Hend|].
  split; [|reflexivity].
  apply Hiff. split; [reflexivity|]. split; [reflexivity|]. cbn. lia.
Defined.

(** ** Streaming against the synchronous call *)

Lemma stream_follows_generate (w : World) :
  (forall j, on_token_throws w j = false) ->
  forall (n i : nat) (st_s st_g : State) (cached result : list Z),
    forget_trace st_s = forget_trace st_g ->
    decoded_batches (trace st_s) = decoded_batches (trace st_g) ->
    jni_pending st_s = false ->
    snd (stream_loop w n i st_s cached) = snd (generate_loop w n i st_g result)
    /\ forget_trace (fst (fst (stream_loop w n i st_s cached)))
       = forget_trace (fst (fst (generate_loop w n i st_g result)))
    /\ decoded_batches (trace (fst (fst (stream_loop w n i st_s cached))))
       = decoded_batches (trace (fst (fst (generate_loop w n i st_g result)))).
Proof.
  intros Hquiet.
  induction n as [|n IH]; intros i st_s st_g cached result Hst Hdec Hpend.
  { cbn. repeat split; assumption. }
  cbn [stream_loop generate_loop].
  pose proof (forget_trace_shift_if_full _ _ Hst) as Hst1.
  destruct (shift_if_full_trace st_s) as [sh_s [Htr_s [_ [Hdb_s Hpend_s]]]].
  destruct (shift_if_full_trace st_g) as [sh_g [Htr_g [_ [Hdb_g _]]]].
  assert (Hdec1 : decoded_batches (trace (shift_if_full st_s))
                  = decoded_batches (trace (shift_if_full st_g))).
  { rewrite Htr_s, Htr_g, !decoded_batches_app, Hdb_s, Hdb_g, Hdec. reflexivity. }
  set (s1 := shift_if_full st_s) in *. set (g1 := shift_if_full st_g) in *.
  set (id := common_sampler_sample w i).
  destruct (llama_vocab_is_eog w id).
  { cbn [fst snd]. repeat split; assumption. }
  set (piece := common_token_to_piece w id).
  unfold deliver_if_valid. rewrite Hquiet.
  destruct (is_valid_utf8 (Some (cached ++ piece))).
  - (* the buffer is delivered *)
    set (s2 := call_on_token (c_str (cached ++ piece)) false s1).
    assert (Hp2 : jni_pending s2 = false).
    { unfold s2. cbn. rewrite Hpend_s, Hpend. reflexivity. }
    rewrite Hp2.
    assert (Hst2 : forget_trace s2 = forget_trace g1).
    { rewrite <- Hst1. unfold s2, call_on_token, forget_trace. cbn.
      rewrite Hpend_s, Hpend. cbn. rewrite <- Hpend, <- Hpend_s. reflexivity. }
    assert (Hdec2 : decoded_batches (trace s2) = decoded_batches (trace g1)).
    { unfold s2. cbn. rewrite decoded_batches_app. cbn. rewrite app_nil_r. exact Hdec1. }
    assert (Hpos2 : g_current_pos s2 = g_current_pos g1).
    { change (g_current_pos (forget_trace s2) = g_current_pos (forget_trace g1)).
      rewrite Hst2. reflexivity. }
    destruct (forget_trace_step s2 g1 (gen_decode_ok w i) id Hst2) as [Hadv Hfail].
    destruct (gen_decode_ok w i).
    + apply IH.
      * exact Hadv.
      * cbn [trace with_pos]. rewrite !forget_trace_decoded, Hdec2, Hpos2. reflexivity.
      * exact Hp2.
    + cbn [fst snd]. split; [reflexivity|]. split; [exact Hfail|].
      rewrite !forget_trace_decoded, Hdec2, Hpos2. reflexivity.
  - (* the buffer is kept *)
    assert (Hpos1 : g_current_pos s1 = g_current_pos g1).
    { change (g_current_pos (forget_trace s1) = g_current_pos (forget_trace g1)).
      rewrite Hst1. reflexivity. }
    destruct (forget_trace_step s1 g1 (gen_decode_ok w i) id Hst1) as [Hadv Hfail].
    destruct (gen_decode_ok w i).
    + apply IH.
      * exact Hadv.
      * cbn [trace with_pos]. rewrite !forget_trace_decoded, Hdec1, Hpos1. reflexivity.
      * cbn. rewrite Hpend_s. exact Hpend.
    + cbn [fst snd]. split; [reflexivity|]. split; [exact Hfail|].
      rewrite !forget_trace_decoded, Hdec1, Hpos1. reflexivity.
Qed.

Lemma decode_batched_from_pending (w : World) (tokens : list Z) (start : Z) (ll : bool) :
  forall (fuel k : nat) (i : Z) (st : State) (rc : Z) (st' : State),
    decode_batched_from fuel w tokens start ll k i st = Some (rc, st') ->
    jni_pending st' = jni_pending st.
Proof.
  induction fuel as [|fuel IH]; intros k i st rc st' Hrun; cbn [decode_batched_from] in Hrun;
    destruct (i <? _); try discriminate;
    try (injection Hrun as _ <-; reflexivity).
  destruct (prompt_decode_ok w k).
  - apply IH in Hrun. rewrite Hrun. destruct (_ <=? _); reflexivity.
  - injection Hrun as _ <-. destruct (_ <=? _); reflexivity.
Qed.

Lemma fragments_nul_free (w : World) (i m : nat) :
  (forall id, nul_free (common_token_to_piece w id)) -> nul_free (fragments w i m).
Proof.
  intros Hp. unfold fragments, nul_free. revert i.
  induction m as [|m IH]; intros i; cbn [seq map concat]; [constructor|].
  apply Forall_app. split; [apply Hp | apply IH].
Qed.

(** X7.  With a consumer that never throws, a streaming request and a
    synchronous request on the same session and world leave the same cursor
    and context memory, decode the same batches and leave their loops for
    the same reason.  The buffers the stream hands over, each of which the
    consumer reads up to its first NUL, followed by the bytes left in the
    stream buffer, are the output the synchronous call accumulates.  When
    the stream buffer ends empty or holding one incomplete unit, the text the
    synchronous call returns is the buffers handed over put together, read
    up to the first NUL; and when no piece holds a NUL the buffers are the
    chunks delivered, so that text is the chunks put together. *)
Theorem stream_matches_generate (w : World) (prompt : list Z) (maxTokens : Z)
        (st : State) (tokens' : list Z) (st2 : State) :
  let st3 := with_pos st2 (int_of_size (length tokens')) in
  let rs := stream_loop w (Z.to_nat maxTokens) 0 st3 [] in
  let rg := generate_loop w (Z.to_nat maxTokens) 0 st3 [] in
  (forall j, on_token_throws w j = false) ->
  has_onToken w = true ->
  jni_pending st = false ->
  g_model st = true -> g_context st = true ->
  truncate_prompt (reset_gen_state (reset_chat_state true st)) maxTokens
                  (common_tokenize w prompt (chat_template_explicit w)
                                   (chat_template_explicit w))
  = Returned tokens' ->
  decode_batched w tokens' 0 true (reset_gen_state (reset_chat_state true st))
  = Some (0, st2) ->
  nativeGenerateStream w prompt maxTokens st = (Returned tt, fst (fst rs))
  /\ nativeGenerate w prompt maxTokens st
     = (Returned (c_str (validate_output (snd (fst rg)))), fst (fst rg))
  /\ forget_trace (fst (fst rs)) = forget_trace (fst (fst rg))
  /\ decoded_batches (trace (fst (fst rs))) = decoded_batches (trace (fst (fst rg)))
  /\ snd rs = snd rg
  /\ exists evs bufs,
      trace (fst (fst rs)) = trace st2 ++ evs
      /\ delivered evs = map c_str bufs
      /\ concat bufs ++ snd (fst rs) = snd (fst rg)
      /\ (snd (fst rs) = [] \/ incomplete_unit (snd (fst rs)) ->
          fst (nativeGenerate w prompt maxTokens st) = Returned (c_str (concat bufs)))
      /\ ((forall id, nul_free (common_token_to_piece w id)) ->
          delivered evs = bufs /\ c_str (concat bufs) = concat (delivered evs)).
Proof.
  intros st3 rs rg Hquiet Hcb Hpend Hm Hc Htrunc Hdec.
  assert (Hpend3 : jni_pending st3 = false).
  { unfold st3. cbn. rewrite (decode_batched_from_pending _ _ _ _ _ _ _ _ _ _ Hdec).
    exact Hpend. }
  destruct (stream_follows_generate w Hquiet (Z.to_nat maxTokens) 0 st3 st3 [] []
              eq_refl eq_refl Hpend3) as [Hstop [Hst Hdb]].
  fold rs in Hstop, Hst, Hdb. fold rg in Hstop, Hst, Hdb.
  assert (Hgen : nativeGenerate w prompt maxTokens st
                 = (Returned (c_str (validate_output (snd (fst rg)))), fst (fst rg))).
  { rewrite (nativeGenerate_after_prompt w prompt maxTokens st Hm Hc tokens' 0 st2
               Htrunc Hdec). reflexivity. }
  assert (Hstr : nativeGenerateStream w prompt maxTokens st = (Returned tt, fst (fst rs))).
  { rewrite (nativeGenerateStream_after_prompt w prompt maxTokens st Hm Hc tokens' 0 st2
               Htrunc Hdec). rewrite Hcb. reflexivity. }
  destruct (stream_loop_steps w (Z.to_nat maxTokens) 0 st3 [])
    as [m [evs [bufs [Hsteps [Htr [Hd [Hall [Hcons [_ [_ [_ Hnul]]]]]]]]]]].
  destruct (generate_loop_steps w (Z.to_nat maxTokens) 0 st3 [])
    as [m' [evs' [Hsteps' [Hstop' [Hres _]]]]].
  fold rs in Hsteps, Htr, Hcons. fold rg in Hsteps', Hstop', Hres.
  cbn [app] in Hcons, Hres.
  assert (Hmm : m = m').
  { apply (steps_run_unique w 0 (Z.to_nat maxTokens) m m' (snd rs) (snd rg));
      try assumption. rewrite Hstop. exact Hstop'. }
  subst m'.
  assert (Hout : concat bufs ++ snd (fst rs) = snd (fst rg)) by congruence.
  pose proof (bufs_scan bufs Hall) as Hvalid.
  split; [exact Hstr|]. split; [exact Hgen|]. split; [exact Hst|]. split; [exact Hdb|].
  split; [exact Hstop|].
  exists evs, bufs.
  split; [exact Htr|]. split; [exact Hd|]. split; [exact Hout|].
  split.
  - intros Hend. rewrite Hgen. cbn [fst]. f_equal. rewrite <- Hout.
    destruct Hend as [-> | Hinc].
    + rewrite app_nil_r. unfold validate_output. cbn [is_valid_utf8].
      rewrite Hvalid. reflexivity.
    + apply validate_output_any; assumption.
  - intros Hp.
    assert (Hbufs : delivered evs = bufs) by (symmetry; apply Hnul; [constructor | exact Hp]).
    split; [exact Hbufs|]. rewrite Hbufs.
    apply c_str_nul_free.
    pose proof (fragments_nul_free w 0 m Hp) as Hnf.
    rewrite Hcons in Hnf. apply Forall_app in Hnf. apply Hnf.
Qed.

Lemma stream_matches_generate_witness :
  let w := byte_world [0xE4; 0xBD; 0xA0; 0x61; 0xC3] never always in
  let st3 := with_pos (after_prompt w [1; 2; 3] scenario_A_state) 3 in
  let rs := stream_loop w 8 0 st3 [] in
  let rg := generate_loop w 8 0 st3 [] in
  nativeGenerateStream w [1; 2; 3] 8 scenario_A_state = (Returned tt, fst (fst rs))
  /\ nativeGenerate w [1; 2; 3] 8 scenario_A_state
     = (Returned (c_str (validate_output (snd (fst rg)))), fst (fst rg))
  /\ forget_trace (fst (fst rs)) = forget_trace (fst (fst rg))
  /\ decoded_batches (trace (fst (fst rs))) = decoded_batches (trace (fst (fst rg)))
  /\ snd rs = snd rg
  /\ exists evs bufs,
      trace (fst (fst rs)) = trace (after_prompt w [1; 2; 3] scenario_A_state) ++ evs
      /\ delivered evs = map c_str bufs
      /\ concat bufs ++ snd (fst rs) = snd (fst rg)
      /\ fst (nativeGenerate w [1; 2; 3] 8 scenario_A_state) = Returned (c_str (concat bufs))
      /\ delivered evs = bufs /\ c_str (concat bufs) = concat (delivered evs).
Proof.
  intros w st3 rs rg.
  destruct (stream_matches_generate w [1; 2; 3] 8 scenario_A_state [1; 2; 3]
              (after_prompt w [1; 2; 3] scenario_A_state)
              (fun _ => eq_refl) eq_refl eq_refl eq_refl eq_refl eq_refl eq_refl)
    as [Hs [Hg [Hf [Hd [Hstop [evs [bufs [Htr [Hdel [Hout [Hend Hnul]]]]]]]]]]].
  split; [exact Hs|]. split; [exact Hg|]. split; [exact Hf|]. split; [exact Hd|].
  split; [exact Hstop|].
  exists evs, bufs.
  split; [exact Htr|]. split; [exact Hdel|]. split; [exact Hout|].
  split.
  - apply Hend. right. exists 0xC3, [], 2%nat.
    split; [reflexivity|]. split; [reflexivity|]. split; [lia|].
    split; [constructor | cbn; lia].
  - apply Hnul. intros id. cbn. destruct (id =? 0) eqn:E; repeat constructor. lia.
Defined.
